(** * Answer-Generator: the processing pipeline and its session store

    A shallow embedding of the backend of the question-paper answer
    generator ([src/backend/src]): the Redis-backed [SessionManager]
    ([session_manager.py]), the retrying [AnswerGenerator]
    ([answer_generator.py]), the Celery task [process_question_paper]
    ([tasks.py]) and the regeneration endpoint [regenerate_answer]
    ([main.py]).

    Conventions of the embedding.
    - Python [int] is [Z]; [float] is the kernel's binary64 [float], so that
      [int((p / 100) * 40)] is computed exactly as the interpreter does.
    - An exception is its class name together with its [str()].  Every
      exception is an instance of [Exception] (no [KeyboardInterrupt] or
      [SystemExit] is injected).
    - Effectful code lives in the monad [M]: it threads the [World] (the
      Redis database, the upload directory, the PDF store, the clock and
      the counters of the external calls made so far), may raise, and
      reports the externally visible actions it performed as a list of
      [Event]s, in order.
    - The external collaborators (file parsing, the LLM provider, the
      knowledge base, Graphviz, ReportLab, the storage backend) are the
      fields of [Env]; nothing is assumed about what they return.
    - The Redis server is taken to be reachable: its commands do not raise.
      JSON text kept in Redis is identified with the value it encodes. *)

From Stdlib Require Import ZArith Floats Ascii String DecimalString DecimalPos DecimalZ.
From stdpp Require Import gmap strings list.

Open Scope Z_scope.

(* ===================================================================== *)
(** ** Python values *)
(* ===================================================================== *)

(** [str(n)] for an [int]. *)
Definition str_of_Z (n : Z) : string := NilZero.string_of_int (Z.to_int n).

(** [float(n)] for an [int] below [2^53] in magnitude (exact there). *)
Definition float_of_Z (n : Z) : float :=
  if n <? 0 then PrimFloat.opp (PrimFloat.of_uint63 (Uint63.of_Z (- n)))
  else PrimFloat.of_uint63 (Uint63.of_Z n).

(** [a / b] on two [int]s: true division, correctly rounded. *)
Definition py_truediv (a b : Z) : float :=
  PrimFloat.div (float_of_Z a) (float_of_Z b).

(** [x * n] for a [float] and an [int]. *)
Definition py_fmul (x : float) (n : Z) : float :=
  PrimFloat.mul x (float_of_Z n).

(** [int(x)]: truncation toward zero.  Python raises on an infinity or a
    NaN; no caller below reaches that case and the embedding returns [0]. *)
Definition py_int (x : float) : Z :=
  match Prim2SF x with
  | S754_finite s m e =>
      let mag := if 0 <=? e then Z.pos m * 2 ^ e else Z.pos m / 2 ^ (- e) in
      if s then - mag else mag
  | _ => 0
  end.

(** [l[i]] on a list: a negative index counts from the end; [None] stands
    for [IndexError]. *)
Definition py_index {A} (l : list A) (i : Z) : option A :=
  let n := Z.of_nat (length l) in
  if 0 <=? i then l !! Z.to_nat i
  else if - n <=? i then l !! Z.to_nat (n + i)
  else None.

(** [range(n)]. *)
Definition py_range (n : Z) : list Z := Z.of_nat <$> seq 0 (Z.to_nat n).

(** [enumerate(l, start)]. *)
Fixpoint py_enumerate {A} (start : Z) (l : list A) : list (Z * A) :=
  match l with
  | [] => []
  | x :: l' => (start, x) :: py_enumerate (start + 1) l'
  end.

(** The line feed. *)
Definition newline : string := String "010"%char EmptyString.

(** The characters [str.strip()] removes, within ASCII. *)
Definition is_space (c : ascii) : bool :=
  let n := nat_of_ascii c in
  ((9 <=? n)%nat && (n <=? 13)%nat) || ((28 <=? n)%nat && (n <=? 32)%nat).

(** [not s.strip()]: the text is empty or all white space. *)
Fixpoint is_blank (s : string) : bool :=
  match s with
  | EmptyString => true
  | String c s' => is_space c && is_blank s'
  end.

(* ===================================================================== *)
(** ** Exceptions ([exceptions.py]) *)
(* ===================================================================== *)

(** An exception: [type(e).__name__] and [str(e)]. *)
Record exn := Exn { exn_type : string; exn_str : string }.

Global Instance exn_eq_dec : EqDecision exn.
Proof. solve_decision. Defined.

(** [isinstance(e, cls)] for a class without subclasses. *)
Definition isinstance (e : exn) (cls : string) : bool :=
  bool_decide (exn_type e = cls).

(** [QuestionAnswerError.__init__]: the full message. *)
Definition full_message (message : string) (context : list (string * string))
    (guidance : option string) : string :=
  let with_context :=
    match context with
    | [] => message
    | _ => message +:+ " [Context: " +:+
           String.concat ", " ((fun kv => kv.1 +:+ "=" +:+ kv.2) <$> context) +:+ "]"
    end in
  match guidance with
  | Some g => if bool_decide (g = "") then with_context
              else with_context +:+ " [Guidance: " +:+ g +:+ "]"
  | None => with_context
  end.

(** [AnswerGenerationError(message)]. *)
Definition AnswerGenerationError (message : string) : exn :=
  Exn "AnswerGenerationError"
    (full_message message []
       (Some "Please try again or contact support if the issue persists.")).

(** [LanguageNotSupportedError(language, supported_languages)]. *)
Definition LanguageNotSupportedError (language : string)
    (supported_languages : list string) : exn :=
  Exn "LanguageNotSupportedError"
    (full_message ("Language '" +:+ language +:+ "' is not supported")
       [("language", language)]
       (Some match supported_languages with
             | [] => "Please select a supported language"
             | _ => "Please select a supported language: " +:+
                    String.concat ", " supported_languages
             end)).

(** [DiagramGenerationError(message)]. *)
Definition DiagramGenerationError (message : string) : exn :=
  Exn "DiagramGenerationError"
    (full_message message [] (Some "The answer will be generated without diagrams.")).

(** [PDFGenerationError(message)]. *)
Definition PDFGenerationError (message : string) : exn :=
  Exn "PDFGenerationError"
    (full_message message [] (Some "Please check the input data and try again.")).

(** What [raise ParseError(message, parse_issue)] raises.  [parse_issue] is
    a required positional parameter of [ParseError.__init__]: a call that
    leaves it out raises [TypeError] in place of the [ParseError]. *)
Definition ParseError (message : string) (parse_issue : option string) : exn :=
  match parse_issue with
  | Some issue =>
      Exn "ParseError"
        (full_message message [("parse_issue", issue)]
           (Some "Please ensure the file is not corrupted and is in the correct format."))
  | None =>
      Exn "TypeError"
        "ParseError.__init__() missing 1 required positional argument: 'parse_issue'"
  end.

Definition ValueError (message : string) : exn := Exn "ValueError" message.
Definition IndexError : exn := Exn "IndexError" "list index out of range".
Definition FileNotFoundError (path : string) : exn :=
  Exn "FileNotFoundError" ("[Errno 2] No such file or directory: '" +:+ path +:+ "'").

(* ===================================================================== *)
(** ** Data models ([models.py]) *)
(* ===================================================================== *)

Record Question := { q_id : string; q_text : string; q_context : option string }.

Record VisualElementSpec :=
  { ve_type : string; ve_description : string; ve_language : string }.

Record Answer := {
  question_id : string;
  content : string;
  language : string;
  visual_elements : list VisualElementSpec;
  references : list string;
  knowledge_sources : list string
}.

Record Diagram :=
  { image_data : string; format : string; caption : string; d_language : string }.

Record PDFDocument := { pdf_content : string; pdf_filename : string; pdf_page_count : Z }.

(** [PDFDocument(...)] with its [__post_init__] validation. *)
Definition PDFDocument_new (content filename : string) (page_count : Z) : exn + PDFDocument :=
  if bool_decide (content = "") then inl (Exn "ValueError" "PDF content cannot be empty")
  else if page_count <? 1 then inl (Exn "ValueError" "Page count must be at least 1")
  else inr {| pdf_content := content; pdf_filename := filename; pdf_page_count := page_count |}.

Record KnowledgeEntry := { ke_id : string; ke_references : list string }.

(** [Answer(...)] with its [__post_init__] validation. *)
Definition Answer_new (question_id content language : string)
    (visual_elements : list VisualElementSpec)
    (references knowledge_sources : list string) : exn + Answer :=
  if is_blank content then inl (ValueError "Answer content cannot be empty")
  else if bool_decide (language = "") then inl (ValueError "Language code cannot be empty")
  else inr {| question_id := question_id; content := content; language := language;
              visual_elements := visual_elements; references := references;
              knowledge_sources := knowledge_sources |}.

(** [Diagram(...)] with its [__post_init__] validation. *)
Definition Diagram_new (image_data format caption language : string) : exn + Diagram :=
  if negb (bool_decide (format = "png") || bool_decide (format = "svg"))
  then inl (ValueError ("Unsupported image format: " +:+ format))
  else if bool_decide (image_data = "") then inl (ValueError "Image data cannot be empty")
  else if bool_decide (language = "") then inl (ValueError "Language code cannot be empty")
  else inr {| image_data := image_data; format := format; caption := caption;
              d_language := language |}.

(** A keyword argument value at a call site. *)
Inductive pyval := PStr (s : string) | PInt (n : Z) | PNone.

(** The fields the dataclass [Question] declares: its generated
    [__init__] accepts exactly these keywords. *)
Definition Question_fields : list string := ["id"; "text"; "context"; "metadata"].

Definition kwarg (name : string) (kwargs : list (string * pyval)) : option pyval :=
  snd <$> List.find (fun kv => bool_decide (kv.1 = name)) kwargs.

(** [Question] called with keyword arguments: the generated [__init__] rejects a keyword that is
    not a field and requires [id] and [text]; [__post_init__] rejects a
    blank text. *)
Definition Question_new (kwargs : list (string * pyval)) : exn + Question :=
  match List.find (fun kv => negb (bool_decide (kv.1 ∈ Question_fields))) kwargs with
  | Some (k, _) =>
      inl (Exn "TypeError"
             ("Question.__init__() got an unexpected keyword argument '" +:+ k +:+ "'"))
  | None =>
      match kwarg "id" kwargs, kwarg "text" kwargs with
      | Some (PStr i), Some (PStr t) =>
          if is_blank t then inl (ValueError "Question text cannot be empty")
          else inr {| q_id := i; q_text := t;
                      q_context := match kwarg "context" kwargs with
                                   | Some (PStr c) => Some c
                                   | _ => None
                                   end |}
      | _, _ => inl (Exn "TypeError" "Question.__init__() missing required arguments")
      end
  end.

(* ===================================================================== *)
(** ** Language service ([language_service.py]) *)
(* ===================================================================== *)

Definition _SUPPORTED_LANGUAGES : list string :=
  ["en"; "es"; "fr"; "de"; "zh"; "ja"; "hi"; "ar"; "pt"; "ru"].

Definition is_supported (language_code : string) : bool :=
  bool_decide (language_code ∈ _SUPPORTED_LANGUAGES).

(* ===================================================================== *)
(** ** The Redis database behind the session manager *)
(* ===================================================================== *)

Inductive SessionStatus := PENDING | PROCESSING | COMPLETE | ERROR.

Global Instance SessionStatus_eq_dec : EqDecision SessionStatus.
Proof. solve_decision. Defined.

(** [SessionStatus.value]. *)
Definition status_value (s : SessionStatus) : string :=
  match s with
  | PENDING => "pending"
  | PROCESSING => "processing"
  | COMPLETE => "complete"
  | ERROR => "error"
  end.

(** [ProgressEvent.to_dict()]. *)
Record ProgressEvent := {
  pe_session_id : string;
  pe_stage : string;
  pe_progress : Z;
  pe_message : string;
  pe_timestamp : Z
}.

(** The dictionary [store_answer] keeps per answer. *)
Record AnswerData := {
  ad_index : Z;
  ad_question : string;
  ad_answer : string;
  ad_diagrams_count : Z;
  ad_timestamp : Z
}.

(** The two shapes of [result_data] the task stores. *)
Inductive ResultData :=
  | ResultSuccess (pdf_identifier filename : string)
      (page_count questions_processed answers_generated diagrams_generated : Z)
  | ResultError (error error_type traceback : string).

(** The key space, by the type of value a key holds: hashes
    ([session:<id>]), the two kinds of JSON lists ([progress:<id>],
    [answers:<id>]), plain values ([result:<id>]) and the time-to-live set
    on a key. *)
Record Redis := {
  hashes : gmap string (gmap string string);
  event_lists : gmap string (list ProgressEvent);
  answer_lists : gmap string (list AnswerData);
  values : gmap string ResultData;
  ttls : gmap string Z
}.

Definition redis_empty : Redis :=
  {| hashes := ∅; event_lists := ∅; answer_lists := ∅; values := ∅; ttls := ∅ |}.

Definition key_exists (r : Redis) (key : string) : bool :=
  bool_decide (is_Some (hashes r !! key)) || bool_decide (is_Some (event_lists r !! key))
  || bool_decide (is_Some (answer_lists r !! key)) || bool_decide (is_Some (values r !! key)).

(** [HSET key field value]. *)
Definition hset (key field value : string) (r : Redis) : Redis :=
  {| hashes := <[key := <[field := value]> (default ∅ (hashes r !! key))]> (hashes r);
     event_lists := event_lists r; answer_lists := answer_lists r;
     values := values r; ttls := ttls r |}.

(** [HSET key mapping=...]. *)
Definition hset_mapping (key : string) (mapping : list (string * string)) (r : Redis) : Redis :=
  foldl (fun r kv => hset key kv.1 kv.2 r) r mapping.

(** [HGET key field]. *)
Definition hget (r : Redis) (key field : string) : option string :=
  hashes r !! key ≫= (fun h => h !! field).

(** [HGETALL key]. *)
Definition hgetall (r : Redis) (key : string) : gmap string string :=
  default ∅ (hashes r !! key).

(** [EXPIRE key seconds]: no effect on a key that does not exist. *)
Definition expire (key : string) (seconds : Z) (r : Redis) : Redis :=
  if key_exists r key then
    {| hashes := hashes r; event_lists := event_lists r; answer_lists := answer_lists r;
       values := values r; ttls := <[key := seconds]> (ttls r) |}
  else r.

(** [RPUSH key value] on a list of progress events. *)
Definition rpush_event (key : string) (e : ProgressEvent) (r : Redis) : Redis :=
  {| hashes := hashes r;
     event_lists := <[key := default [] (event_lists r !! key) ++ [e]]> (event_lists r);
     answer_lists := answer_lists r; values := values r; ttls := ttls r |}.

(** [RPUSH key value] on a list of answers. *)
Definition rpush_answer (key : string) (a : AnswerData) (r : Redis) : Redis :=
  {| hashes := hashes r; event_lists := event_lists r;
     answer_lists := <[key := default [] (answer_lists r !! key) ++ [a]]> (answer_lists r);
     values := values r; ttls := ttls r |}.

(** [LRANGE key 0 -1]. *)
Definition lrange_events (r : Redis) (key : string) : list ProgressEvent :=
  default [] (event_lists r !! key).

Definition lrange_answers (r : Redis) (key : string) : list AnswerData :=
  default [] (answer_lists r !! key).

(** [LSET key i value], for an index within the list. *)
Definition lset_answer (key : string) (i : nat) (a : AnswerData) (r : Redis) : Redis :=
  {| hashes := hashes r; event_lists := event_lists r;
     answer_lists := <[key := <[i := a]> (lrange_answers r key)]> (answer_lists r);
     values := values r; ttls := ttls r |}.

(** [SET key value EX seconds]. *)
Definition set_ex (key : string) (v : ResultData) (seconds : Z) (r : Redis) : Redis :=
  {| hashes := hashes r; event_lists := event_lists r; answer_lists := answer_lists r;
     values := <[key := v]> (values r); ttls := <[key := seconds]> (ttls r) |}.

(** [DEL key]. *)
Definition del (key : string) (r : Redis) : Redis :=
  {| hashes := delete key (hashes r); event_lists := delete key (event_lists r);
     answer_lists := delete key (answer_lists r); values := delete key (values r);
     ttls := delete key (ttls r) |}.

(* ===================================================================== *)
(** ** [SessionManager] ([session_manager.py]) *)
(* ===================================================================== *)

Record SessionManager := { session_ttl : Z }.

(** [SessionManager()] with the default time-to-live of one hour. *)
Definition SessionManager_new : SessionManager := {| session_ttl := 3600 |}.

Definition _get_session_key (session_id : string) : string := "session:" +:+ session_id.
Definition _get_progress_key (session_id : string) : string := "progress:" +:+ session_id.
Definition _get_result_key (session_id : string) : string := "result:" +:+ session_id.
Definition _get_answers_key (session_id : string) : string := "answers:" +:+ session_id.

(** [datetime.isoformat()] of a clock reading. *)
Definition isoformat (t : Z) : string := str_of_Z t.

(** [int(s)] on the decimal text Redis returns for a stored [int]. *)
Definition int_of_str (s : string) : Z :=
  match NilZero.int_of_string s with
  | Some d => Z.of_int d
  | None => 0
  end.

Section SessionManager.
Variable self : SessionManager.

(** [create_session]: [uuid] is what [uuid.uuid4()] would return, [now]
    the clock, [metadata] the JSON text of the metadata. *)
Definition create_session (uuid : string) (now : Z) (session_id : option string)
    (language : string) (metadata : option string) (r : Redis) : string * Redis :=
  let session_id := default uuid session_id in
  let session_data :=
    [("session_id", session_id);
     ("status", status_value PENDING);
     ("language", language);
     ("created_at", isoformat now);
     ("metadata", default "{}" metadata)] in
  let session_key := _get_session_key session_id in
  (session_id, expire session_key (session_ttl self) (hset_mapping session_key session_data r)).

(** [get_session]: [None] when the hash is empty or missing. *)
Definition get_session (r : Redis) (session_id : string) : option (gmap string string) :=
  let session_data := hgetall r (_get_session_key session_id) in
  if bool_decide (session_data = ∅) then None else Some session_data.

Definition update_session_status (session_id : string) (status : SessionStatus)
    (r : Redis) : Redis :=
  let session_key := _get_session_key session_id in
  expire session_key (session_ttl self) (hset session_key "status" (status_value status) r).

Definition set_language_preference (session_id language : string) (r : Redis) : Redis :=
  let session_key := _get_session_key session_id in
  expire session_key (session_ttl self) (hset session_key "language" language r).

Definition get_language_preference (r : Redis) (session_id : string) : option string :=
  hget r (_get_session_key session_id) "language".

Definition add_progress_event (event : ProgressEvent) (r : Redis) : Redis :=
  let progress_key := _get_progress_key (pe_session_id event) in
  let r := rpush_event progress_key event r in
  let r := expire progress_key (session_ttl self) r in
  let session_key := _get_session_key (pe_session_id event) in
  let r := hset session_key "progress" (str_of_Z (pe_progress event)) r in
  let r := hset session_key "current_stage" (pe_stage event) r in
  expire session_key (session_ttl self) r.

Definition get_progress_events (r : Redis) (session_id : string) : list ProgressEvent :=
  lrange_events r (_get_progress_key session_id).

Record LatestProgress := { lp_progress : Z; lp_stage : string; lp_status : string }.

Definition get_latest_progress (r : Redis) (session_id : string) : option LatestProgress :=
  let session_key := _get_session_key session_id in
  let progress := hget r session_key "progress" in
  let stage := hget r session_key "current_stage" in
  let status := hget r session_key "status" in
  match progress with
  | None => None
  | Some p =>
      Some {| lp_progress := if bool_decide (p = "") then 0 else int_of_str p;
              lp_stage := match stage with
                          | Some s => if bool_decide (s = "") then "pending" else s
                          | None => "pending"
                          end;
              lp_status := match status with
                           | Some s => if bool_decide (s = "") then status_value PENDING else s
                           | None => status_value PENDING
                           end |}
  end.

Definition store_result (session_id : string) (result_data : ResultData) (r : Redis) : Redis :=
  set_ex (_get_result_key session_id) result_data (session_ttl self) r.

Definition get_result (r : Redis) (session_id : string) : option ResultData :=
  values r !! _get_result_key session_id.

Definition delete_session (session_id : string) (r : Redis) : Redis :=
  del (_get_result_key session_id)
    (del (_get_progress_key session_id) (del (_get_session_key session_id) r)).

Definition store_answer (now : Z) (session_id : string) (question_index : Z)
    (question_text answer_text : string) (diagrams_count : Z) (r : Redis) : Redis :=
  let answers_key := _get_answers_key session_id in
  let answer_data :=
    {| ad_index := question_index; ad_question := question_text;
       ad_answer := answer_text; ad_diagrams_count := diagrams_count;
       ad_timestamp := now |} in
  expire answers_key (session_ttl self) (rpush_answer answers_key answer_data r).

Definition get_answers (r : Redis) (session_id : string) : list AnswerData :=
  lrange_answers r (_get_answers_key session_id).

(** The loop of [update_answer]: the first entry whose stored index is
    [question_index] is rewritten, and the scan stops there. *)
Fixpoint update_answer_scan (now : Z) (answers_key : string) (question_index : Z)
    (new_answer_text : string) (entries : list (nat * AnswerData)) (r : Redis) : Redis :=
  match entries with
  | [] => r
  | (i, answer) :: rest =>
      if bool_decide (ad_index answer = question_index) then
        lset_answer answers_key i
          {| ad_index := ad_index answer; ad_question := ad_question answer;
             ad_answer := new_answer_text;
             ad_diagrams_count := ad_diagrams_count answer;
             ad_timestamp := now |} r
      else update_answer_scan now answers_key question_index new_answer_text rest r
  end.

Definition update_answer (now : Z) (session_id : string) (question_index : Z)
    (new_answer_text : string) (r : Redis) : Redis :=
  let answers_key := _get_answers_key session_id in
  let answers_data := lrange_answers r answers_key in
  update_answer_scan now answers_key question_index new_answer_text
    (imap (fun i a => (i, a)) answers_data) r.

End SessionManager.

(** A call of a method of the session manager that writes to Redis. *)
Inductive StoreOp :=
  | OpCreateSession (uuid : string) (now : Z) (session_id : option string)
      (language : string) (metadata : option string)
  | OpUpdateSessionStatus (session_id : string) (status : SessionStatus)
  | OpSetLanguagePreference (session_id language : string)
  | OpAddProgressEvent (event : ProgressEvent)
  | OpStoreResult (session_id : string) (result_data : ResultData)
  | OpDeleteSession (session_id : string)
  | OpStoreAnswer (now : Z) (session_id : string) (question_index : Z)
      (question_text answer_text : string) (diagrams_count : Z)
  | OpUpdateAnswer (now : Z) (session_id : string) (question_index : Z)
      (new_answer_text : string).

Definition run_op (self : SessionManager) (op : StoreOp) (r : Redis) : Redis :=
  match op with
  | OpCreateSession uuid now session_id language metadata =>
      (create_session self uuid now session_id language metadata r).2
  | OpUpdateSessionStatus session_id status => update_session_status self session_id status r
  | OpSetLanguagePreference session_id language =>
      set_language_preference self session_id language r
  | OpAddProgressEvent event => add_progress_event self event r
  | OpStoreResult session_id result_data => store_result self session_id result_data r
  | OpDeleteSession session_id => delete_session session_id r
  | OpStoreAnswer now session_id question_index question_text answer_text diagrams_count =>
      store_answer self now session_id question_index question_text answer_text
        diagrams_count r
  | OpUpdateAnswer now session_id question_index new_answer_text =>
      update_answer now session_id question_index new_answer_text r
  end.

(** The calls of a list, made in order. *)
Definition run_ops (self : SessionManager) (ops : list StoreOp) (r : Redis) : Redis :=
  foldl (fun r op => run_op self op r) r ops.

(** The calls that append a progress event to a session, or delete it. *)
Definition appends_progress_or_deletes (session_id : string) (op : StoreOp) : bool :=
  match op with
  | OpAddProgressEvent event => bool_decide (pe_session_id event = session_id)
  | OpDeleteSession sid => bool_decide (sid = session_id)
  | _ => false
  end.

(* ===================================================================== *)
(** ** Effects: the world, the events, the monad *)
(* ===================================================================== *)

(** What a run can be observed to do, in order. *)
Inductive Event :=
  | EvStatus (session_id : string) (status : SessionStatus)
  | EvProgress (event : ProgressEvent)
  | EvStoreAnswer (session_id : string) (answer : AnswerData)
  | EvUpdateAnswer (session_id : string) (question_index : Z) (new_answer_text : string)
  | EvStoreResult (session_id : string) (result : ResultData)
  | EvProviderCall (question : Question)
  | EvSleep (seconds : Z)
  | EvRender (spec : VisualElementSpec)
  | EvSavePdf (identifier : string)
  | EvRemove (path : string).

Record World := {
  redis : Redis;                      (* the session store *)
  uploads : gset string;              (* paths that exist in the upload directory *)
  pdfs : gmap string PDFDocument;     (* the PDF storage backend *)
  clock : Z;                          (* [datetime.utcnow()] *)
  provider_calls : nat;               (* LLM provider calls made so far *)
  render_calls : nat                  (* Graphviz renderings made so far *)
}.

Definition with_redis (f : Redis → Redis) (w : World) : World :=
  {| redis := f (redis w); uploads := uploads w; pdfs := pdfs w; clock := clock w;
     provider_calls := provider_calls w; render_calls := render_calls w |}.

Inductive outcome (A : Type) :=
  | Ok (a : A)
  | Raise (e : exn).
Arguments Ok {A} a.
Arguments Raise {A} e.

Definition M (A : Type) : Type := World → outcome A * World * list Event.

Definition ret {A} (a : A) : M A := fun w => (Ok a, w, []).

Definition raise {A} (e : exn) : M A := fun w => (Raise e, w, []).

Definition bind {A B} (m : M A) (k : A → M B) : M B := fun w =>
  match m w with
  | (Ok a, w1, ev1) => let '(r, w2, ev2) := k a w1 in (r, w2, ev1 ++ ev2)
  | (Raise e, w1, ev1) => (Raise e, w1, ev1)
  end.

Notation "x <- m ;; k" := (bind m (fun x => k))
  (at level 100, m at next level, right associativity).
Notation "m ;;; k" := (bind m (fun _ => k))
  (at level 100, right associativity).

(** [try: m] with the exception, if any, handed over as a value. *)
Definition catch {A} (m : M A) : M (outcome A) := fun w =>
  let '(r, w1, ev1) := m w in (Ok r, w1, ev1).

(** [try: m  except Exception as e: handler e]. *)
Definition try_except {A} (m : M A) (handler : exn → M A) : M A :=
  r <- catch m ;;
  match r with
  | Ok a => ret a
  | Raise e => handler e
  end.

(** [try: m  finally: cleanup]. *)
Definition try_finally {A} (m : M A) (cleanup : M unit) : M A := fun w =>
  let '(r, w1, ev1) := m w in
  match cleanup w1 with
  | (Ok _, w2, ev2) => (r, w2, ev1 ++ ev2)
  | (Raise e, w2, ev2) => (Raise e, w2, ev1 ++ ev2)
  end.

(** A constructor call that may raise. *)
Definition lift {A} (r : exn + A) : M A :=
  match r with
  | inr a => ret a
  | inl e => raise e
  end.

(** A Redis command sequence, with the events it amounts to. *)
Definition redis_do (f : Redis → Redis) (events : list Event) : M unit := fun w =>
  (Ok tt, with_redis f w, events).

Definition redis_get {A} (f : Redis → A) : M A := fun w => (Ok (f (redis w)), w, []).

(** [datetime.utcnow()]. *)
Definition utcnow : M Z := fun w => (Ok (clock w), w, []).

(** [time.sleep(seconds)]. *)
Definition sleep (seconds : Z) : M unit := fun w =>
  (Ok tt,
   {| redis := redis w; uploads := uploads w; pdfs := pdfs w; clock := clock w + seconds;
      provider_calls := provider_calls w; render_calls := render_calls w |},
   [EvSleep seconds]).

(** The external collaborators.  A provider or Graphviz call is indexed by
    the number of such calls made before it, so that an environment may
    answer every call differently. *)
Record Env := {
  (* [InputParserFactory.parse] on the content of the file at a path *)
  parse_file : string → string → exn + list Question;
  (* lines 94-168 of [tasks.py]: knowledge base, API keys, provider
     selection and the constructors of the four services *)
  pipeline_services : option exn;
  (* lines 426-445 of [main.py]: knowledge base and [AnswerGenerator] *)
  regenerate_services : option exn;
  (* [knowledge_base.search(query, limit=5)] *)
  kb_search : string → exn + list KnowledgeEntry;
  (* the call of the selected provider on the prompt for a question *)
  provider_call : nat → Question → string → exn + string;
  (* [_detect_visual_elements] *)
  detect_visual_elements : Question → string → string → list VisualElementSpec;
  (* [graph.pipe(format='png')] on the graph built for a specification *)
  graphviz_pipe : nat → VisualElementSpec → exn + string;
  (* ReportLab: the bytes and the file name of the built document *)
  reportlab_build : list Question → list Answer → gmap string (list Diagram) → string →
                    exn + (string * string);
  (* [PDFStorage.generate_identifier] at a clock reading *)
  generate_identifier : Z → string;
  (* [backend.save] *)
  backend_save : PDFDocument → string → option exn;
  (* [traceback.format_exc()] *)
  format_exc : exn → string;
  (* the error [os.remove] fails with on an existing path, if any *)
  os_remove_error : string → option exn
}.

(* ===================================================================== *)
(** ** Calls of the session manager from effectful code *)
(* ===================================================================== *)

Section SessionManagerCalls.
Variable session_manager : SessionManager.

Definition call_get_session (session_id : string) : M (option (gmap string string)) :=
  redis_get (fun r => get_session r session_id).

Definition call_update_session_status (session_id : string) (status : SessionStatus) : M unit :=
  redis_do (update_session_status session_manager session_id status)
    [EvStatus session_id status].

Definition call_add_progress_event (event : ProgressEvent) : M unit :=
  redis_do (add_progress_event session_manager event) [EvProgress event].

Definition call_store_result (session_id : string) (result_data : ResultData) : M unit :=
  redis_do (store_result session_manager session_id result_data)
    [EvStoreResult session_id result_data].

Definition call_store_answer (session_id : string) (question_index : Z)
    (question_text answer_text : string) (diagrams_count : Z) : M unit :=
  now <- utcnow ;;
  redis_do
    (store_answer session_manager now session_id question_index question_text
       answer_text diagrams_count)
    [EvStoreAnswer session_id
       {| ad_index := question_index; ad_question := question_text;
          ad_answer := answer_text; ad_diagrams_count := diagrams_count;
          ad_timestamp := now |}].

Definition call_get_answers (session_id : string) : M (list AnswerData) :=
  redis_get (fun r => get_answers r session_id).

Definition call_update_answer (session_id : string) (question_index : Z)
    (new_answer_text : string) : M unit :=
  now <- utcnow ;;
  redis_do (update_answer now session_id question_index new_answer_text)
    [EvUpdateAnswer session_id question_index new_answer_text].

End SessionManagerCalls.

(* ===================================================================== *)
(** ** [AnswerGenerator] ([answer_generator.py]) *)
(* ===================================================================== *)

Record AnswerGenerator := {
  max_retries : Z;
  progress_callback : option (string → Z → string → M unit)
}.

(** [AnswerGenerator(..., max_retries=3, progress_callback=None)]. *)
Definition AnswerGenerator_new (max_retries : option Z)
    (progress_callback : option (string → Z → string → M unit)) : AnswerGenerator :=
  {| max_retries := default 3 max_retries; progress_callback := progress_callback |}.

Section AnswerGenerator.
Variable E : Env.
Variable self : AnswerGenerator.

(** [AnswerGenerator._emit_progress]: reports through the callback, when
    one is configured. *)
Definition gen_emit_progress (stage : string) (progress : Z) (message : string) : M unit :=
  match progress_callback self with
  | Some callback => callback stage progress message
  | None => ret tt
  end.

(** [_search_knowledge_base]: a failing search yields no entries. *)
Definition _search_knowledge_base (question : Question) : M (list KnowledgeEntry) :=
  try_except (lift (kb_search E (q_text question))) (fun _ => ret []).

(** [_generate_references]: the references of the entries, first
    occurrences only. *)
Definition _generate_references (knowledge_entries : list KnowledgeEntry) : list string :=
  foldl (fun references ref =>
           if bool_decide (ref ∈ references) then references else references ++ [ref])
    [] (knowledge_entries ≫= ke_references).

(** [language_service.get_language_config]. *)
Definition get_language_config (language_code : string) : M string :=
  if is_supported language_code then ret language_code
  else raise (LanguageNotSupportedError language_code _SUPPORTED_LANGUAGES).

(** One call of the selected provider ([_call_openai], ...). *)
Definition call_provider (question : Question) (target_language : string) : M string :=
  fun w =>
    (match provider_call E (provider_calls w) question target_language with
     | inr response => Ok response
     | inl e => Raise e
     end,
     {| redis := redis w; uploads := uploads w; pdfs := pdfs w; clock := clock w;
        provider_calls := S (provider_calls w); render_calls := render_calls w |},
     [EvProviderCall question]).

(** The retry loop of [_generate_answer_with_llm], over the attempts still
    to make.  It ends with the response returned from inside the loop, or
    with the last error once the loop is left. *)
Fixpoint retry_loop (question : Question) (target_language : string)
    (attempts : list Z) (last_error : option exn) : M (string + option exn) :=
  match attempts with
  | [] => ret (inr last_error)
  | attempt :: rest =>
      r <- catch (call_provider question target_language) ;;
      match r with
      | Ok response => ret (inl response)
      | Raise e =>
          if attempt <? max_retries self - 1 then
            (* Exponential backoff: 1s, 2s, 4s *)
            let wait_time := 2 ^ attempt in
            sleep wait_time ;;;
            retry_loop question target_language rest (Some e)
          else ret (inr (Some e))
      end
  end.

(** [str(last_error)], where [last_error] may still be [None]. *)
Definition str_of_last_error (last_error : option exn) : string :=
  match last_error with
  | Some e => exn_str e
  | None => "None"
  end.

Definition _generate_answer_with_llm (question : Question) (target_language : string) : M string :=
  _lang_config <- get_language_config target_language ;;
  r <- retry_loop question target_language (py_range (max_retries self)) None ;;
  match r with
  | inl response => ret response
  | inr last_error =>
      raise (AnswerGenerationError
               ("Failed to generate answer after " +:+ str_of_Z (max_retries self) +:+
                " attempts. Last error: " +:+ str_of_last_error last_error))
  end.

Definition generate_answer (question : Question) (target_language : string) : M Answer :=
  if negb (is_supported target_language) then
    raise (LanguageNotSupportedError
             ("Language '" +:+ target_language +:+ "' is not supported. " +:+
              "Use LanguageService.get_supported_languages() to see available languages.")
             [])
  else
    try_except
      (gen_emit_progress "knowledge_search" 10
         ("Searching knowledge base for question " +:+ q_id question) ;;;
       knowledge_entries <- _search_knowledge_base question ;;
       gen_emit_progress "context_building" 20
         ("Building context for question " +:+ q_id question) ;;;
       gen_emit_progress "answer_generation" 40
         ("Generating answer for question " +:+ q_id question) ;;;
       answer_content <- _generate_answer_with_llm question target_language ;;
       gen_emit_progress "visual_detection" 70
         ("Detecting visual elements for question " +:+ q_id question) ;;;
       let visual_elements :=
         detect_visual_elements E question answer_content target_language in
       gen_emit_progress "citation_generation" 90
         ("Generating citations for question " +:+ q_id question) ;;;
       let knowledge_source_ids := ke_id <$> knowledge_entries in
       let references := _generate_references knowledge_entries in
       gen_emit_progress "complete" 100
         ("Completed answer generation for question " +:+ q_id question) ;;;
       lift (Answer_new (q_id question) answer_content target_language visual_elements
               references knowledge_source_ids))
      (fun e =>
         if isinstance e "LanguageNotSupportedError" then raise e
         else raise (AnswerGenerationError
                       ("Failed to generate answer for question '" +:+ q_id question +:+
                        "': " +:+ exn_str e))).

End AnswerGenerator.

(* ===================================================================== *)
(** ** Diagram, PDF and storage services *)
(* ===================================================================== *)

Section Services.
Variable E : Env.

Definition diagram_types : list string :=
  ["block_diagram"; "flowchart"; "hierarchy"; "sequence"].

(** [graph.pipe(format='png')] on the graph built for [spec]. *)
Definition call_graphviz (spec : VisualElementSpec) : M string := fun w =>
  (match graphviz_pipe E (render_calls w) spec with
   | inr data => Ok data
   | inl e => Raise e
   end,
   {| redis := redis w; uploads := uploads w; pdfs := pdfs w; clock := clock w;
      provider_calls := provider_calls w; render_calls := S (render_calls w) |},
   [EvRender spec]).

(** [DiagramGenerator.generate_diagram]: whatever goes wrong leaves as a
    [DiagramGenerationError]. *)
Definition generate_diagram (spec : VisualElementSpec) : M Diagram :=
  try_except
    (if negb (is_supported (ve_language spec)) then
       raise (DiagramGenerationError
                ("Language '" +:+ ve_language spec +:+
                 "' is not supported for diagram generation"))
     else
       _lang_config <- get_language_config (ve_language spec) ;;
       if negb (bool_decide (ve_type spec ∈ diagram_types)) then
         raise (DiagramGenerationError ("Unsupported diagram type: " +:+ ve_type spec))
       else
         image_data <- call_graphviz spec ;;
         lift (Diagram_new image_data "png" (ve_description spec) (ve_language spec)))
    (fun e =>
       if isinstance e "DiagramGenerationError" then raise e
       else raise (DiagramGenerationError ("Failed to generate diagram: " +:+ exn_str e))).

(** [PDFGenerator.generate_pdf]: the input validation, then ReportLab. *)
Definition generate_pdf (questions : list Question) (answers : list Answer)
    (diagrams : gmap string (list Diagram)) (target_language : string) : M PDFDocument :=
  try_except
    (if bool_decide (questions = []) then raise (PDFGenerationError "No questions provided")
     else if bool_decide (answers = []) then raise (PDFGenerationError "No answers provided")
     else if negb (bool_decide (length questions = length answers)) then
       raise (PDFGenerationError
                ("Question count (" +:+ str_of_Z (Z.of_nat (length questions)) +:+
                 ") does not match answer count (" +:+
                 str_of_Z (Z.of_nat (length answers)) +:+ ")"))
     else if negb (is_supported target_language) then
       raise (PDFGenerationError ("Language '" +:+ target_language +:+ "' is not supported"))
     else
       _lang_config <- get_language_config target_language ;;
       built <- lift (reportlab_build E questions answers diagrams target_language) ;;
       let page_count := 2 + Z.of_nat (length questions) in
       lift (PDFDocument_new built.1 built.2 page_count))
    (fun e =>
       if isinstance e "PDFGenerationError" then raise e
       else raise (PDFGenerationError ("Failed to generate PDF: " +:+ exn_str e))).

(** [PDFStorage.save_pdf] without a caller-chosen identifier. *)
Definition save_pdf (pdf_document : PDFDocument) : M string := fun w =>
  let identifier := generate_identifier E (clock w) in
  match backend_save E pdf_document identifier with
  | Some e => (Raise e, w, [])
  | None =>
      (Ok identifier,
       {| redis := redis w; uploads := uploads w;
          pdfs := <[identifier := pdf_document]> (pdfs w); clock := clock w;
          provider_calls := provider_calls w; render_calls := render_calls w |},
       [EvSavePdf identifier])
  end.

(** [os.path.exists] and [os.remove] on the upload directory. *)
Definition os_path_exists (path : string) : M bool := fun w =>
  (Ok (bool_decide (path ∈ uploads w)), w, []).

Definition os_remove (path : string) : M unit := fun w =>
  if bool_decide (path ∈ uploads w) then
    match os_remove_error E path with
    | Some e => (Raise e, w, [])
    | None =>
        (Ok tt,
         {| redis := redis w; uploads := uploads w ∖ {[path]}; pdfs := pdfs w;
            clock := clock w; provider_calls := provider_calls w;
            render_calls := render_calls w |},
         [EvRemove path])
    end
  else (Raise (FileNotFoundError path), w, []).

End Services.

(* ===================================================================== *)
(** ** The Celery task ([tasks.py]) *)
(* ===================================================================== *)

Section Tasks.
Variable E : Env.
Variable session_manager : SessionManager.

(** [_emit_progress]: a failure to record the event is only logged. *)
Definition _emit_progress (session_id stage : string) (progress : Z) (message : string) : M unit :=
  try_except
    (now <- utcnow ;;
     let event := {| pe_session_id := session_id; pe_stage := stage;
                     pe_progress := progress; pe_message := message;
                     pe_timestamp := now |} in
     call_add_progress_event session_manager event)
    (fun _ => ret tt).

(** [_parse_input_file]. *)
Definition _parse_input_file (file_path file_format : string) : M (list Question) :=
  try_except
    (present <- os_path_exists file_path ;;
     if present : bool then lift (parse_file E file_path file_format)
     else raise (FileNotFoundError file_path))
    (fun e =>
       if isinstance e "ParseError" then raise e
       else raise (ParseError ("Failed to parse input file: " +:+ exn_str e) None)).

(** The progress callback handed to the answer generator (lines 98-101). *)
Definition answer_progress_callback (session_id stage : string) (progress : Z)
    (message : string) : M unit :=
  (* Map answer generation progress to overall progress (20-60%) *)
  let overall_progress := 20 + py_int (py_fmul (py_truediv progress 100) 40) in
  _emit_progress session_id stage overall_progress message.

(** Lines 94-168: the services the later steps use. *)
Definition initialize_services (session_id : string) : M AnswerGenerator :=
  match pipeline_services E with
  | Some e => raise e
  | None => ret (AnswerGenerator_new None (Some (answer_progress_callback session_id)))
  end.

(** The body of the loop of step 3 (lines 179-225), for the [i]-th of
    [n] questions: it returns the list [answers] as the iteration leaves
    it.  [store_answer] does not raise, so the handler finds [answers]
    as it was when the iteration began. *)
Definition answer_step (answer_generator : AnswerGenerator) (session_id target_language : string)
    (n : Z) (answers : list Answer) (i : Z) (question : Question) : M (list Answer) :=
  try_except
    ((* Calculate progress for this question (25-60% range) *)
     let question_progress := 25 + py_int (py_fmul (py_truediv i n) 35) in
     _emit_progress session_id "generating_answer" question_progress
       ("Generating answer " +:+ str_of_Z i +:+ "/" +:+ str_of_Z n) ;;;
     answer <- generate_answer E answer_generator question target_language ;;
     let answers := answers ++ [answer] in
     (* Store answer for real-time preview *)
     call_store_answer session_manager session_id (i - 1) (q_text question)
       (content answer) (Z.of_nat (length (visual_elements answer))) ;;;
     ret answers)
    (fun e =>
       (* Create a fallback answer with error information *)
       error_answer <-
         lift (Answer_new (q_id question) ("Error generating answer: " +:+ exn_str e)
                 target_language [] [] []) ;;
       let answers := answers ++ [error_answer] in
       (* Store error answer for preview *)
       call_store_answer session_manager session_id (i - 1) (q_text question)
         (content error_answer) 0 ;;;
       ret answers).

(** [for i, question in enumerate(questions, 1)]. *)
Fixpoint answer_loop (answer_generator : AnswerGenerator) (session_id target_language : string)
    (n : Z) (items : list (Z * Question)) (answers : list Answer) : M (list Answer) :=
  match items with
  | [] => ret answers
  | (i, question) :: rest =>
      answers <- answer_step answer_generator session_id target_language n answers i question ;;
      answer_loop answer_generator session_id target_language n rest answers
  end.

(** [for visual_spec in answer.visual_elements] (lines 244-261): a
    [DiagramGenerationError] skips the specification. *)
Fixpoint diagram_loop (session_id : string) (total_visual_elements : Z)
    (specs : list VisualElementSpec) (answer_diagrams : list Diagram)
    (processed_elements : Z) : M (list Diagram * Z) :=
  match specs with
  | [] => ret (answer_diagrams, processed_elements)
  | visual_spec :: rest =>
      r <- catch
             (diagram <- generate_diagram E visual_spec ;;
              let answer_diagrams := answer_diagrams ++ [diagram] in
              let processed_elements := processed_elements + 1 in
              (* Update progress (65-75% range) *)
              let diagram_progress :=
                65 + py_int (py_fmul (py_truediv processed_elements total_visual_elements) 10) in
              _emit_progress session_id "generating_diagram" diagram_progress
                ("Generated diagram " +:+ str_of_Z processed_elements +:+ "/" +:+
                 str_of_Z total_visual_elements) ;;;
              ret (answer_diagrams, processed_elements)) ;;
      match r with
      | Ok (answer_diagrams, processed_elements) =>
          diagram_loop session_id total_visual_elements rest answer_diagrams processed_elements
      | Raise e =>
          if isinstance e "DiagramGenerationError" then
            diagram_loop session_id total_visual_elements rest answer_diagrams processed_elements
          else raise e
      end
  end.

(** [for answer in answers] (lines 242-264). *)
Fixpoint diagrams_loop (session_id : string) (total_visual_elements : Z)
    (answers : list Answer) (diagrams_by_answer : gmap string (list Diagram))
    (processed_elements : Z) : M (gmap string (list Diagram)) :=
  match answers with
  | [] => ret diagrams_by_answer
  | answer :: rest =>
      rendered <-
        diagram_loop session_id total_visual_elements (visual_elements answer) []
          processed_elements ;;
      let '(answer_diagrams, processed_elements) := rendered in
      let diagrams_by_answer :=
        match answer_diagrams with
        | [] => diagrams_by_answer
        | _ => <[question_id answer := answer_diagrams]> diagrams_by_answer
        end in
      diagrams_loop session_id total_visual_elements rest diagrams_by_answer processed_elements
  end.

(** [sum(len(d) for d in diagrams_by_answer.values())]. *)
Definition count_diagrams (diagrams_by_answer : gmap string (list Diagram)) : Z :=
  map_fold (fun _ d acc => acc + Z.of_nat (length d)) 0 diagrams_by_answer.

(** What steps 1 to 6 hand to the last step. *)
Record Produced := {
  p_questions : list Question;
  p_answers : list Answer;
  p_diagrams : gmap string (list Diagram);
  p_document : PDFDocument;
  p_identifier : string
}.

(** Lines 72-88: the first progress events and step 1, parsing. *)
Definition parse_step (session_id file_path file_format : string) : M (list Question) :=
  (* Emit initial progress *)
  _emit_progress session_id "initializing" 0 "Initializing processing" ;;;
  (* Step 1: Parse input file *)
  _emit_progress session_id "parsing" 5 "Parsing input file" ;;;
  questions <- _parse_input_file file_path file_format ;;
  if bool_decide (questions = []) then
    raise (ParseError "No questions found in the input file" None)
  else
    _emit_progress session_id "parsing_complete" 15
      ("Successfully parsed " +:+ str_of_Z (Z.of_nat (length questions)) +:+ " questions") ;;;
    ret questions.

(** Lines 90-168, step 2: the services. *)
Definition services_step (session_id : string) : M AnswerGenerator :=
  _emit_progress session_id "initializing_services" 20 "Initializing services" ;;;
  initialize_services session_id.

(** Lines 170-231, step 3: an answer for every question. *)
Definition answers_step (answer_generator : AnswerGenerator)
    (session_id target_language : string) (questions : list Question) : M (list Answer) :=
  let n := Z.of_nat (length questions) in
  _emit_progress session_id "generating_answers" 25
    ("Generating answers for " +:+ str_of_Z n +:+ " questions") ;;;
  answers <- answer_loop answer_generator session_id target_language n
               (py_enumerate 1 questions) [] ;;
  _emit_progress session_id "answers_complete" 60
    ("Successfully generated " +:+ str_of_Z (Z.of_nat (length answers)) +:+ " answers") ;;;
  ret answers.

(** Lines 233-271, step 4: the diagrams. *)
Definition diagrams_step (session_id : string) (answers : list Answer)
    : M (gmap string (list Diagram)) :=
  _emit_progress session_id "generating_diagrams" 65 "Generating diagrams" ;;;
  let total_visual_elements :=
    foldr (fun answer acc => Z.of_nat (length (visual_elements answer)) + acc) 0 answers in
  diagrams_by_answer <-
    (if 0 <? total_visual_elements
     then diagrams_loop session_id total_visual_elements answers ∅ 0
     else ret ∅) ;;
  _emit_progress session_id "diagrams_complete" 75 "Diagram generation complete" ;;;
  ret diagrams_by_answer.

(** Lines 273-285, step 5: the PDF document. *)
Definition pdf_step (session_id target_language : string) (questions : list Question)
    (answers : list Answer) (diagrams_by_answer : gmap string (list Diagram))
    : M PDFDocument :=
  _emit_progress session_id "generating_pdf" 80 "Generating PDF document" ;;;
  pdf_document <- generate_pdf E questions answers diagrams_by_answer target_language ;;
  _emit_progress session_id "pdf_complete" 90 "PDF generation complete" ;;;
  ret pdf_document.

(** Lines 287-293, step 6: the PDF stored. *)
Definition storage_step (session_id : string) (pdf_document : PDFDocument) : M string :=
  _emit_progress session_id "storing_pdf" 95 "Storing PDF" ;;;
  save_pdf E pdf_document.

(** Lines 72-293: from the first progress event to the stored PDF. *)
Definition run_steps (session_id file_path file_format target_language : string) : M Produced :=
  questions <- parse_step session_id file_path file_format ;;
  answer_generator <- services_step session_id ;;
  answers <- answers_step answer_generator session_id target_language questions ;;
  diagrams_by_answer <- diagrams_step session_id answers ;;
  pdf_document <- pdf_step session_id target_language questions answers diagrams_by_answer ;;
  pdf_identifier <- storage_step session_id pdf_document ;;
  ret {| p_questions := questions; p_answers := answers;
         p_diagrams := diagrams_by_answer; p_document := pdf_document;
         p_identifier := pdf_identifier |}.

(** Lines 295-313: store the result, mark the session complete. *)
Definition finalize (session_id : string) (p : Produced) : M ResultData :=
  let result_data :=
    ResultSuccess (p_identifier p) (pdf_filename (p_document p))
      (pdf_page_count (p_document p))
      (Z.of_nat (length (p_questions p))) (Z.of_nat (length (p_answers p)))
      (count_diagrams (p_diagrams p)) in
  call_store_result session_manager session_id result_data ;;;
  call_update_session_status session_manager session_id COMPLETE ;;;
  _emit_progress session_id "complete" 100 "Processing complete" ;;;
  ret result_data.

(** The [try] block (lines 66-313). *)
Definition try_block (session_id file_path file_format target_language : string) : M ResultData :=
  (* Update session status to processing *)
  call_update_session_status session_manager session_id PROCESSING ;;;
  p <- run_steps session_id file_path file_format target_language ;;
  finalize session_id p.

(** The [except Exception] block (lines 315-339): record the error and
    re-raise. *)
Definition except_block {A} (session_id : string) (e : exn) : M A :=
  let error_message := exn_str e in
  let error_type := exn_type e in
  let error_data := ResultError error_message error_type (format_exc E e) in
  call_store_result session_manager session_id error_data ;;;
  call_update_session_status session_manager session_id ERROR ;;;
  _emit_progress session_id "error" 0 ("Processing failed: " +:+ error_message) ;;;
  raise e.

(** The [finally] block (lines 341-348): remove the uploaded file; a
    failure to do so is only logged. *)
Definition finally_block (file_path : string) : M unit :=
  try_except
    (present <- os_path_exists file_path ;;
     if present : bool then os_remove E file_path else ret tt)
    (fun _ => ret tt).

Definition process_question_paper
    (session_id file_path file_format target_language : string) : M ResultData :=
  try_finally
    (try_except (try_block session_id file_path file_format target_language)
       (except_block session_id))
    (finally_block file_path).

End Tasks.

(* ===================================================================== *)
(** ** The regeneration endpoint ([main.py]) *)
(* ===================================================================== *)

(** What the endpoint answers: the JSON body of a success, or the status
    code and detail of the [HTTPException] it raised. *)
Inductive HttpResult :=
  | Http200 (question_index : Z) (answer : string)
  | HttpError (status_code : Z) (detail : string).

Definition is_session_id_char (c : ascii) : bool :=
  let n := nat_of_ascii c in
  ((48 <=? n)%nat && (n <=? 57)%nat) || ((65 <=? n)%nat && (n <=? 90)%nat)
  || ((97 <=? n)%nat && (n <=? 122)%nat) || (n =? 45)%nat.

Fixpoint all_chars (p : ascii → bool) (s : string) : bool :=
  match s with
  | EmptyString => true
  | String c s' => p c && all_chars p s'
  end.

(** [re.match(r'^[a-zA-Z0-9-]{8,64}$', s)]; the [$] also matches just
    before a final newline. *)
Definition session_id_matches (s : string) : bool :=
  let body :=
    match String.length s with
    | O => s
    | S k => if bool_decide (String.get k s = Some "010"%char) then String.substring 0 k s else s
    end in
  let ok t := all_chars is_session_id_char t
              && (8 <=? String.length t)%nat && (String.length t <=? 64)%nat in
  ok s || ok body.

(** [SecurityValidator.validate_session_id]: the message of the
    [ValidationError] it raises, if any. *)
Definition validate_session_id (session_id : string) : option string :=
  if bool_decide (session_id = "") then
    Some (full_message "Session ID cannot be empty" []
            (Some "Please check the file format and size requirements."))
  else if negb (session_id_matches session_id) then
    Some (full_message
            "Invalid session ID format. Session IDs must be 8-64 alphanumeric characters or hyphens."
            [] (Some "Please check the file format and size requirements."))
  else None.

Section Main.
Variable E : Env.

(** Lines 419-476, after the session was found: every [HTTPException]
    raised there is an early [HttpError] result; any other exception is
    left to the caller. *)
Definition regenerate_found (session : gmap string string) (session_id : string)
    (question_index : Z) (change_request : string) : M HttpResult :=
  (* Get current answers *)
  answers <- call_get_answers session_id ;;
  if Z.of_nat (length answers) <=? question_index then
    ret (HttpError 400 "Invalid question index")
  else
    current_answer <-
      match py_index answers question_index with
      | Some a => ret a
      | None => raise IndexError
      end ;;
    (* Initialize services *)
    match regenerate_services E with Some e => raise e | None => ret tt end ;;;
    let answer_generator := AnswerGenerator_new None None in
    (* Create question object *)
    question <-
      lift (Question_new
              [("id", PStr ("q_" +:+ str_of_Z question_index));
               ("text", PStr (ad_question current_answer));
               ("marks", PInt 0);
               ("difficulty", PStr "medium")]) ;;
    (* Get language from session *)
    let target_language := default "en" (session !! "language") in
    (* Modify the question text to include the change request; the
       arguments read [question.marks], an attribute [Question] lacks *)
    modified_question <-
      (raise (A := unit)
         (Exn "AttributeError" "'Question' object has no attribute 'marks'") ;;;
       lift (Question_new
               [("id", PStr (q_id question));
                ("text", PStr (q_text question +:+ newline +:+ newline +:+
                               "[Modification request: " +:+ change_request +:+ "]"));
                ("marks", PNone);
                ("difficulty", PNone)])) ;;
    new_answer <- generate_answer E answer_generator modified_question target_language ;;
    (* Update stored answer *)
    call_update_answer session_id question_index (content new_answer) ;;;
    ret (Http200 question_index (content new_answer)).

Definition regenerate_answer (session_id : string) (question_index : Z)
    (change_request : string) : M HttpResult :=
  try_except
    ((* Validate session ID format *)
     match validate_session_id session_id with
     | Some message => ret (HttpError 400 message)
     | None =>
         (* Get session data *)
         session <- call_get_session session_id ;;
         match session with
         | None => ret (HttpError 404 "Session not found")
         | Some session =>
             regenerate_found session session_id question_index change_request
         end
     end)
    (fun e => ret (HttpError 500 ("Failed to regenerate answer: " +:+ exn_str e))).

End Main.

(* ===================================================================== *)
(** ** Concrete environments and worlds *)
(* ===================================================================== *)

Definition question_1 : Question :=
  {| q_id := "q1"; q_text := "What is a stack?"; q_context := None |}.
Definition question_2 : Question :=
  {| q_id := "q2"; q_text := "What is a queue?"; q_context := None |}.
Definition question_3 : Question :=
  {| q_id := "q3"; q_text := "What is a heap?"; q_context := None |}.

Definition timeout_error : exn := Exn "TimeoutError" "provider timed out".

(** An environment in which every collaborator succeeds: the parser finds
    [questions], the provider answers at once, no diagram is requested. *)
Definition env_ok (questions : list Question) : Env :=
  {| parse_file := fun _ _ => inr questions;
     pipeline_services := None;
     regenerate_services := None;
     kb_search := fun _ => inr [];
     provider_call := fun _ _ _ => inr "An answer.";
     detect_visual_elements := fun _ _ _ => [];
     graphviz_pipe := fun _ _ => inr "PNG";
     reportlab_build := fun _ _ _ _ => inr ("%PDF", "answers.pdf");
     generate_identifier := fun t => "pdf_" +:+ str_of_Z t;
     backend_save := fun _ _ => None;
     format_exc := fun e => "Traceback (most recent call last): " +:+ exn_str e;
     os_remove_error := fun _ => None |}.

(** As [env_ok], with a provider that fails the calls numbered in
    [failing] (counted from 0 over the whole run). *)
Definition env_flaky (questions : list Question) (failing : list nat) : Env :=
  {| parse_file := fun _ _ => inr questions;
     pipeline_services := None;
     regenerate_services := None;
     kb_search := fun _ => inr [];
     provider_call := fun k _ _ =>
       if bool_decide (k ∈ failing) then inl timeout_error else inr "An answer.";
     detect_visual_elements := fun _ _ _ => [];
     graphviz_pipe := fun _ _ => inr "PNG";
     reportlab_build := fun _ _ _ _ => inr ("%PDF", "answers.pdf");
     generate_identifier := fun t => "pdf_" +:+ str_of_Z t;
     backend_save := fun _ _ => None;
     format_exc := fun e => "Traceback (most recent call last): " +:+ exn_str e;
     os_remove_error := fun _ => None |}.

(** As [env_ok], with a storage backend that refuses to save. *)
Definition env_storage_down (questions : list Question) : Env :=
  {| parse_file := fun _ _ => inr questions;
     pipeline_services := None;
     regenerate_services := None;
     kb_search := fun _ => inr [];
     provider_call := fun _ _ _ => inr "An answer.";
     detect_visual_elements := fun _ _ _ => [];
     graphviz_pipe := fun _ _ => inr "PNG";
     reportlab_build := fun _ _ _ _ => inr ("%PDF", "answers.pdf");
     generate_identifier := fun t => "pdf_" +:+ str_of_Z t;
     backend_save := fun _ _ => Some (Exn "OSError" "disk full");
     format_exc := fun e => "Traceback (most recent call last): " +:+ exn_str e;
     os_remove_error := fun _ => None |}.

Definition demo_session : string := "0123456789abcdef".
Definition demo_upload : string := "uploads/0123456789abcdef.txt".

(** The world right after [upload_file]: the session created, the file
    written, nothing else. *)
Definition world_uploaded : World :=
  {| redis := (create_session SessionManager_new "" 0 (Some demo_session) "en" None
                 redis_empty).2;
     uploads := {[demo_upload]};
     pdfs := ∅;
     clock := 0;
     provider_calls := 0;
     render_calls := 0 |}.

(* ===================================================================== *)
(** ** Observations on the events of a run *)
(* ===================================================================== *)

(** A property of what a computation does: it relates the world before,
    the world after and the events in between. *)
Definition effect_spec := World → World → list Event → Prop.

Definition progress_of (ev : Event) : list ProgressEvent :=
  match ev with EvProgress e => [e] | _ => [] end.
Definition status_of (ev : Event) : list SessionStatus :=
  match ev with EvStatus _ s => [s] | _ => [] end.
Definition stored_answer_of (ev : Event) : list (string * AnswerData) :=
  match ev with EvStoreAnswer sid a => [(sid, a)] | _ => [] end.
Definition updated_answer_of (ev : Event) : list (string * Z) :=
  match ev with EvUpdateAnswer sid i _ => [(sid, i)] | _ => [] end.
Definition stored_result_of (ev : Event) : list (string * ResultData) :=
  match ev with EvStoreResult sid r => [(sid, r)] | _ => [] end.
Definition removed_of (ev : Event) : list string :=
  match ev with EvRemove p => [p] | _ => [] end.
Definition sleep_of (ev : Event) : list Z :=
  match ev with EvSleep s => [s] | _ => [] end.
Definition provider_call_of (ev : Event) : list Question :=
  match ev with EvProviderCall q => [q] | _ => [] end.

(** The progress events appended, in order, and their percentages. *)
Definition progress_events (events : list Event) : list ProgressEvent :=
  events ≫= progress_of.
Definition progress_values (events : list Event) : list Z :=
  pe_progress <$> progress_events events.

(** The statuses written, in order. *)
Definition status_writes (events : list Event) : list SessionStatus :=
  events ≫= status_of.

(** The answers appended to the previews, in order. *)
Definition stored_answers (events : list Event) : list (string * AnswerData) :=
  events ≫= stored_answer_of.

(** The results stored, in order. *)
Definition stored_results (events : list Event) : list (string * ResultData) :=
  events ≫= stored_result_of.

(** The paths removed, in order. *)
Definition removed_paths (events : list Event) : list string :=
  events ≫= removed_of.

(** The seconds slept, in order. *)
Definition sleeps (events : list Event) : list Z :=
  events ≫= sleep_of.

(** The questions the provider was called on, in order. *)
Definition provider_calls_of (events : list Event) : list Question :=
  events ≫= provider_call_of.

(** A progress event, as [_emit_progress] builds it at clock reading [t]. *)
Definition progress_event (sid stage : string) (progress : Z) (message : string) (t : Z)
    : ProgressEvent :=
  {| pe_session_id := sid; pe_stage := stage; pe_progress := progress;
     pe_message := message; pe_timestamp := t |}.

(** The answers appended under one Redis key, in order. *)
Definition stored_under (key : string) (events : list Event) : list AnswerData :=
  stored_answers events ≫= (fun sa =>
    if bool_decide (_get_answers_key sa.1 = key) then [sa.2] else []).

(** The percentage reported when the [i]-th of [n] questions is taken up. *)
Definition question_progress (i n : Z) : Z := 25 + py_int (py_fmul (py_truediv i n) 35).

(** The world in which the generation for the [i]-th of [n] questions
    starts: the progress event of the question has just been recorded. *)
Definition generation_start (sm : SessionManager) (sid : string) (i n : Z) (w : World) : World :=
  with_redis
    (add_progress_event sm
       (progress_event sid "generating_answer" (question_progress i n)
          ("Generating answer " +:+ str_of_Z i +:+ "/" +:+ str_of_Z n) (clock w))) w.

(** The generator the task builds. *)
Definition task_generator (sm : SessionManager) (sid : string) : AnswerGenerator :=
  AnswerGenerator_new None (Some (answer_progress_callback sm sid)).

(** The fallback answer of the task for a question whose generation
    raised [e]. *)
Definition fallback_answer (q : Question) (lang : string) (e : exn) : Answer :=
  {| question_id := q_id q; content := "Error generating answer: " +:+ exn_str e;
     language := lang; visual_elements := []; references := []; knowledge_sources := [] |}.

(** The order of the session statuses: a session only moves up. *)
Definition status_rank (s : SessionStatus) : Z :=
  match s with
  | PENDING => 0
  | PROCESSING => 1
  | COMPLETE | ERROR => 2
  end.

(** The transitions PENDING → PROCESSING → {COMPLETE, ERROR}. *)
Definition legal_transition (a b : SessionStatus) : bool :=
  match a, b with
  | PENDING, PROCESSING | PROCESSING, COMPLETE | PROCESSING, ERROR => true
  | _, _ => false
  end.

(** A history of status writes, from a given status, takes only legal
    transitions. *)
Fixpoint legal_history (from : SessionStatus) (writes : list SessionStatus) : bool :=
  match writes with
  | [] => true
  | s :: rest => legal_transition from s && legal_history s rest
  end.

Definition is_terminal (s : SessionStatus) : bool :=
  match s with COMPLETE | ERROR => true | _ => false end.

(** A list of numbers never decreases. *)
Fixpoint nondecreasing (l : list Z) : bool :=
  match l with
  | a :: (b :: _) as rest => (a <=? b) && nondecreasing rest
  | _ => true
  end.

(** The events of [k] failed attempts, each followed by its wait: the
    attempt numbered [attempt] waits [2 ^ attempt] seconds, the next one
    twice as long, and so on. *)
Fixpoint backoff_trace (q : Question) (attempt : Z) (k : nat) : list Event :=
  match k with
  | O => []
  | S k' => EvProviderCall q :: EvSleep (2 ^ attempt) :: backoff_trace q (attempt + 1) k'
  end.

(** The events of a retried call that made [c] attempts: a wait after
    every attempt but the last. *)
Definition retry_trace (q : Question) (c : nat) : list Event :=
  match c with
  | O => []
  | S c' => backoff_trace q 0 c' ++ [EvProviderCall q]
  end.

(** The provider fails the call numbered [i]. *)
Definition fails_at (E : Env) (q : Question) (l : string) (i : nat) : Prop :=
  ∃ err, provider_call E i q l = inl err.

(** The [error_data] the [except] block of the task stores for [e]. *)
Definition error_data (E : Env) (e : exn) : ResultData :=
  ResultError (exn_str e) (exn_type e) (format_exc E e).

(** [round(num / den)] in exact arithmetic, for [den > 0]: the nearest
    integer, a tie going to the even one (Python's [round]). *)
Definition round_nearest (num den : Z) : Z :=
  let q := num / den in
  let r := num mod den in
  if 2 * r <? den then q
  else if den <? 2 * r then q + 1
  else if Z.even q then q else q + 1.

(** The remapping as the specification words it:
    [global = lo + round((local/100) * (hi-lo))]. *)
Definition spec_global (lo hi local : Z) : Z :=
  lo + round_nearest (local * (hi - lo)) 100.

(** The remapping of the progress callback of the task:
    [20 + int((progress / 100) * 40)]. *)
Definition overall_progress (progress : Z) : Z :=
  20 + py_int (py_fmul (py_truediv progress 100) 40).

(** The world after the task ran, with every collaborator succeeding, on
    an upload holding one question. *)
Definition world_answered : World :=
  (process_question_paper (env_ok [question_1]) SessionManager_new demo_session demo_upload
     "text" "en" world_uploaded).1.2.

(** [a'] is [a] up to the answer text and the timestamp. *)
Definition same_but_answer (a a' : AnswerData) : Prop :=
  ad_index a' = ad_index a ∧ ad_question a' = ad_question a ∧
  ad_diagrams_count a' = ad_diagrams_count a.

(** [a] with a new answer text and timestamp, as [update_answer] rewrites it. *)
Definition with_answer (a : AnswerData) (new_answer_text : string) (now : Z) : AnswerData :=
  {| ad_index := ad_index a; ad_question := ad_question a; ad_answer := new_answer_text;
     ad_diagrams_count := ad_diagrams_count a; ad_timestamp := now |}.

(** The previews [l'] are the previews [l] except, at most, for the answer
    text and the timestamp of entries whose stored index is [k]. *)
Definition previews_frame (k : Z) (l l' : list AnswerData) : Prop :=
  length l' = length l ∧
  ∀ j a, l !! j = Some a →
    ∃ a', l' !! j = Some a' ∧ same_but_answer a a' ∧ (ad_index a ≠ k → a' = a).

(** What a regeneration for index [k] of session [sid] leaves alone: the
    session hashes (status, language, latest progress), the progress logs,
    the results, the times to live, the stored PDFs, the uploads, the
    preview lists under every other key, and the previews of the session
    up to [previews_frame]. *)
Definition regeneration_frame (sid : string) (k : Z) : effect_spec := fun w w' _ =>
  hashes (redis w') = hashes (redis w) ∧
  event_lists (redis w') = event_lists (redis w) ∧
  values (redis w') = values (redis w) ∧
  ttls (redis w') = ttls (redis w) ∧
  pdfs w' = pdfs w ∧
  uploads w' = uploads w ∧
  (∀ key, key ≠ _get_answers_key sid →
          lrange_answers (redis w') key = lrange_answers (redis w) key) ∧
  previews_frame k (get_answers (redis w) sid) (get_answers (redis w') sid).

(** The previews are as the task writes them: the entry at position [j]
    carries the index [j]. *)
Definition position_indexed (l : list AnswerData) : Prop :=
  ∀ j a, l !! j = Some a → ad_index a = Z.of_nat j.

(** The exception the task raises on an empty list of questions. *)
Definition no_questions_error : exn :=
  ParseError "No questions found in the input file" None.

(** The hash of session [sid] exists, carries its identifier and has no
    progress field. *)
Definition created_without_progress (sid : string) (r : Redis) : Prop :=
  hget r (_get_session_key sid) "progress" = None ∧
  hget r (_get_session_key sid) "session_id" = Some sid.

(** Events that produce nothing under a projection. *)
Definition silent {X} (f : Event → list X) : effect_spec := fun _ _ events =>
  events ≫= f = [].

(** A part of the world that stays as it is. *)
Definition keeps {X} (g : World → X) : effect_spec := fun w w' _ => g w' = g w.

(** The preview lists grow by exactly the answers stored. *)
Definition answers_logged : effect_spec := fun w w' events =>
  ∀ key, lrange_answers (redis w') key = lrange_answers (redis w) key ++ stored_under key events.

(* ===================================================================== *)
(** ** Observations on the session store *)
(* ===================================================================== *)

(** The session a call of the session manager is made for. *)
Definition op_session (op : StoreOp) : string :=
  match op with
  | OpCreateSession uuid _ session_id _ _ => default uuid session_id
  | OpUpdateSessionStatus session_id _ => session_id
  | OpSetLanguagePreference session_id _ => session_id
  | OpAddProgressEvent event => pe_session_id event
  | OpStoreResult session_id _ => session_id
  | OpDeleteSession session_id => session_id
  | OpStoreAnswer _ session_id _ _ _ _ => session_id
  | OpUpdateAnswer _ session_id _ _ => session_id
  end.

(** What Redis holds under a key: its value in each of the key spaces and
    its time-to-live. *)
Definition key_content (r : Redis) (key : string) :
    option (gmap string string) * option (list ProgressEvent) * option (list AnswerData)
    * option ResultData * option Z :=
  (hashes r !! key, event_lists r !! key, answer_lists r !! key, values r !! key,
   ttls r !! key).

(** The four Redis keys of a session. *)
Definition session_keys (session_id : string) : list string :=
  [_get_session_key session_id; _get_progress_key session_id;
   _get_result_key session_id; _get_answers_key session_id].

(** All that Redis holds for a session. *)
Definition session_content (r : Redis) (session_id : string) :=
  key_content r <$> session_keys session_id.

(** What [get_latest_progress] reports as stage and as status for a
    stored text. *)
Definition stage_or_pending (stage : option string) : string :=
  match stage with
  | Some s => if bool_decide (s = "") then "pending" else s
  | None => "pending"
  end.

(** A preview list in which two entries carry the index 0, as two runs of
    the task on one session leave it. *)
Definition redis_two_runs : Redis :=
  store_answer SessionManager_new 2 demo_session 0 "What is a stack?" "Second answer." 0
    (store_answer SessionManager_new 1 demo_session 0 "What is a stack?" "First answer." 0
       redis_empty).

(** A session with one progress event. *)
Definition redis_in_progress : Redis :=
  add_progress_event SessionManager_new
    {| pe_session_id := demo_session; pe_stage := "parsing"; pe_progress := 5;
       pe_message := "Parsing input file"; pe_timestamp := 1 |}
    (redis world_uploaded).

(* ===================================================================== *)
(** ** Observations on the services and on the steps of the task *)
(* ===================================================================== *)

(** [m] raises only exceptions that satisfy [P]. *)
Definition raises_only {A} (P : exn → Prop) (m : M A) : Prop :=
  ∀ w e w' ev, m w = (Raise e, w', ev) → P e.

(** The diagrams step 4 has produced for a question: not an empty list,
    and no more than the visual elements of an answer to the question. *)
Definition diagrams_of_answers (answers : list Answer)
    (diagrams : gmap string (list Diagram)) : Prop :=
  ∀ qid ds, diagrams !! qid = Some ds →
    ds ≠ [] ∧ ∃ answer, answer ∈ answers ∧ question_id answer = qid ∧
                        (length ds ≤ length (visual_elements answer))%nat.


(** Steps 4 to 6 of the task (lines 233-293 of [tasks.py]), as [run_steps]
    performs them once the answers are there. *)
Definition later_steps (E : Env) (sm : SessionManager) (session_id target_language : string)
    (questions : list Question) (answers : list Answer) : M Produced :=
  diagrams_by_answer <- diagrams_step E sm session_id answers ;;
  pdf_document <-
    pdf_step E sm session_id target_language questions answers diagrams_by_answer ;;
  pdf_identifier <- storage_step E sm session_id pdf_document ;;
  ret {| p_questions := questions; p_answers := answers;
         p_diagrams := diagrams_by_answer; p_document := pdf_document;
         p_identifier := pdf_identifier |}.

(** Previews as step 3 leaves them for [questions]: one per question, in
    order, with the indices 0, 1, ... *)
Definition previews_of (questions : list Question) (entries : list AnswerData) : Prop :=
  ad_index <$> entries = Z.of_nat <$> seq 0 (length questions) ∧
  ad_question <$> entries = q_text <$> questions.

(* ===================================================================== *)
(** ** Provider selection and the security validators *)
(* ===================================================================== *)

(** The API keys of [config/settings.py]; a key that is not configured is
    the empty string. *)
Record Settings := {
  openai_api_key : string;
  anthropic_api_key : string;
  gemini_api_key : string;
  perplexity_api_key : string
}.

(** Truth value of a [str] and of an [Optional[str]]. *)
Definition str_truthy (s : string) : bool := negb (bool_decide (s = "")).
Definition truthy (k : option string) : bool :=
  match k with
  | Some s => str_truthy s
  | None => false
  end.

(** [a or b]. *)
Definition py_or (a b : option string) : option string := if truthy a then a else b.

Section ProviderSelection.
Variable settings : Settings.
(* [auth.get_user_api_key(db, user_id, provider)] *)
Variable get_user_api_key : Z → string → exn + option string.
(* [os.getenv] *)
Variable getenv : string → option string.

(** Lines 108-113 of [tasks.py]: the keys of the user, provider by
    provider. *)
Fixpoint load_keys (user_id : Z) (providers : list string)
    (user_api_keys : gmap string string) : exn + gmap string string :=
  match providers with
  | [] => inr user_api_keys
  | prov :: rest =>
      match get_user_api_key user_id prov with
      | inl e => inl e
      | inr key =>
          load_keys user_id rest
            (if truthy key then <[prov := default "" key]> user_api_keys else user_api_keys)
      end
  end.

(** Lines 103-116: no key is looked up for a [user_id] that is [None]
    or [0]. *)
Definition load_user_api_keys (user_id : option Z) : exn + gmap string string :=
  match user_id with
  | Some uid =>
      if bool_decide (uid = 0) then inr ∅
      else load_keys uid ["openai"; "gemini"; "anthropic"; "perplexity"] ∅
  | None => inr ∅
  end.

(** Lines 118-152: the provider to use and the key to hand to the
    generator. *)
Definition select_provider (provider : string) (user_api_keys : gmap string string)
    : string * option string :=
  let '(llm_provider, api_key_override) :=
    if bool_decide (user_api_keys = ∅) then (provider, None)
    else
      (* Use user's API key if available *)
      match user_api_keys !! provider with
      | Some key => (provider, Some key)
      | None =>
          (* Fallback to any available user key *)
          match List.find (fun prov => bool_decide (is_Some (user_api_keys !! prov)))
                  ["gemini"; "perplexity"; "openai"; "anthropic"] with
          | Some prov => (prov, user_api_keys !! prov)
          | None => (provider, None)
          end
      end in
  (* If no user keys, use system keys *)
  if truthy api_key_override then (llm_provider, api_key_override)
  else if bool_decide (provider = "gemini") && str_truthy (gemini_api_key settings) then
    (llm_provider, Some (gemini_api_key settings))
  else if bool_decide (provider = "perplexity") && str_truthy (perplexity_api_key settings) then
    (llm_provider, Some (perplexity_api_key settings))
  else if bool_decide (provider = "openai") && str_truthy (openai_api_key settings) then
    (llm_provider, Some (openai_api_key settings))
  else if bool_decide (provider = "anthropic") && str_truthy (anthropic_api_key settings) then
    (llm_provider, Some (anthropic_api_key settings))
  else
    (* Fallback to any available system key *)
    if str_truthy (gemini_api_key settings) then ("gemini", Some (gemini_api_key settings))
    else if str_truthy (perplexity_api_key settings) then
      ("perplexity", Some (perplexity_api_key settings))
    else if str_truthy (openai_api_key settings) then ("openai", Some (openai_api_key settings))
    else (llm_provider, api_key_override).

(** The key [AnswerGenerator.__init__] builds its client with (lines 52-88
    of [answer_generator.py]), or the error it raises.  The constructors
    of the clients are taken not to raise. *)
Definition init_api_key (llm_provider : string) (api_key_override : option string)
    : exn + string :=
  let pick (configured : string) (variable name : string) : exn + string :=
    let api_key := py_or (py_or api_key_override (Some configured)) (getenv variable) in
    if truthy api_key then inr (default "" api_key)
    else inl (AnswerGenerationError
                (name +:+ " API key not found. Set " +:+ variable +:+
                 " environment variable.")) in
  if bool_decide (llm_provider = "openai") then
    pick (openai_api_key settings) "OPENAI_API_KEY" "OpenAI"
  else if bool_decide (llm_provider = "anthropic") then
    pick (anthropic_api_key settings) "ANTHROPIC_API_KEY" "Anthropic"
  else if bool_decide (llm_provider = "gemini") then
    pick (gemini_api_key settings) "GEMINI_API_KEY" "Gemini"
  else if bool_decide (llm_provider = "perplexity") then
    pick (perplexity_api_key settings) "PERPLEXITY_API_KEY" "Perplexity"
  else inl (AnswerGenerationError ("Unsupported LLM provider: " +:+ llm_provider)).

(** The key the settings hold for a provider. *)
Definition system_key (provider : string) : option string :=
  if bool_decide (provider = "openai") then Some (openai_api_key settings)
  else if bool_decide (provider = "anthropic") then Some (anthropic_api_key settings)
  else if bool_decide (provider = "gemini") then Some (gemini_api_key settings)
  else if bool_decide (provider = "perplexity") then Some (perplexity_api_key settings)
  else None.

End ProviderSelection.

(** Lines 431-436 of [main.py]: the provider of the regeneration
    endpoint. *)
Definition regenerate_provider (settings : Settings) : string :=
  if negb (str_truthy (gemini_api_key settings)) && str_truthy (perplexity_api_key settings)
  then "perplexity"
  else if negb (str_truthy (gemini_api_key settings))
          && negb (str_truthy (perplexity_api_key settings))
          && str_truthy (openai_api_key settings)
  then "openai"
  else "gemini".

(** The providers a user can hold a key for. *)
Definition known_providers : list string := ["openai"; "gemini"; "anthropic"; "perplexity"].

(** Keys as [load_user_api_keys] returns them: not empty, and of known
    providers. *)
Definition user_keys_ok (keys : gmap string string) : Prop :=
  ∀ prov key, keys !! prov = Some key → key ≠ "" ∧ prov ∈ known_providers.

(** Settings with a system key for Anthropic only, and a user who holds a
    key for Perplexity only. *)
Definition settings_anthropic_only : Settings :=
  {| openai_api_key := ""; anthropic_api_key := "sk-ant-system"; gemini_api_key := "";
     perplexity_api_key := "" |}.

Definition user_with_perplexity (user_id : Z) (provider : string) : exn + option string :=
  if bool_decide (provider = "perplexity") then inr (Some "pplx-user") else inr None.

(** [ValidationError(message)]. *)
Definition ValidationError (message : string) : exn :=
  Exn "ValidationError"
    (full_message message [] (Some "Please check the file format and size requirements.")).

Definition is_lower_letter (c : ascii) : bool :=
  let n := nat_of_ascii c in (97 <=? n)%nat && (n <=? 122)%nat.

(** [re.match(r'^[a-z]{2}$', s)]; the [$] also matches just before a
    final newline. *)
Definition language_code_matches (s : string) : bool :=
  match s with
  | String a (String b rest) =>
      is_lower_letter a && is_lower_letter b
      && (bool_decide (rest = "") || bool_decide (rest = newline))
  | _ => false
  end.

(** [SecurityValidator.validate_language_code]: returns [True] or raises
    a [ValidationError]. *)
Definition validate_language_code (language_code : string) : exn + bool :=
  if bool_decide (language_code = "") then
    inl (ValidationError "Language code cannot be empty")
  else if negb (language_code_matches language_code) then
    inl (ValidationError
           ("Invalid language code format: '" +:+ language_code +:+ "'. " +:+
            "Language codes must be 2 lowercase letters (ISO 639-1 format)"))
  else inr true.

(** A Python [str], as the list of its code points. *)
Definition ustr : Type := list N.

(** The [str] of an ASCII literal. *)
Definition ustr_of (s : string) : ustr := N_of_ascii <$> list_ascii_of_string s.

Definition chr_slash : N := 47.
Definition chr_dot : N := 46.
Definition chr_underscore : N := 95.

(** [s.split(sep)] for a separator of one character. *)
Fixpoint ustr_split (sep : N) (s : ustr) : list ustr :=
  match s with
  | [] => [[]]
  | c :: s' =>
      if (c =? sep)%N then [] :: ustr_split sep s'
      else match ustr_split sep s' with
           | part :: parts => (c :: part) :: parts
           | [] => [[c]]
           end
  end.

(** [PurePosixPath(s).name]: the last component of the path that is
    neither empty nor ["."]; the empty string when there is none. *)
Definition path_name (s : ustr) : ustr :=
  default []
    (last (filter (fun part => part ≠ [] ∧ part ≠ [chr_dot]) (ustr_split chr_slash s))).

(** [name.rfind('.')]: the position of the last dot. *)
Fixpoint rfind_dot (name : ustr) : option nat :=
  match name with
  | [] => None
  | c :: rest =>
      match rfind_dot rest with
      | Some i => Some (S i)
      | None => if (c =? chr_dot)%N then Some 0%nat else None
      end
  end.

(** [PurePosixPath(s).suffix] and [.stem] (Python 3.8 to 3.13): the name is
    cut at its last dot, unless that dot is its first or its last
    character. *)
Definition path_suffix (s : ustr) : ustr :=
  let name := path_name s in
  match rfind_dot name with
  | Some i => if bool_decide (0 < i < length name - 1)%nat then drop i name else []
  | None => []
  end.

Definition path_stem (s : ustr) : ustr :=
  let name := path_name s in
  match rfind_dot name with
  | Some i => if bool_decide (0 < i < length name - 1)%nat then take i name else name
  | None => name
  end.

(** [s[:k]]: a negative [k] counts from the end. *)
Definition py_slice_to {A} (s : list A) (k : Z) : list A :=
  if 0 <=? k then take (Z.to_nat k) s
  else take (Z.to_nat (Z.of_nat (length s) + k)) s.

(** The characters [[a-zA-Z0-9._-]]. *)
Definition is_safe_char (c : N) : bool :=
  ((48 <=? c) && (c <=? 57) || (65 <=? c) && (c <=? 90) || (97 <=? c) && (c <=? 122)
   || (c =? 46) || (c =? 95) || (c =? 45))%N.

(** [SecurityValidator.sanitize_filename]. *)
Definition sanitize_filename (filename : ustr) : ustr :=
  (* Remove any path components *)
  let filename := path_name filename in
  (* Allow only alphanumeric, dots, hyphens, and underscores *)
  let sanitized := (fun c => if is_safe_char c then c else chr_underscore) <$> filename in
  (* Prevent hidden files *)
  let sanitized :=
    match sanitized with
    | c :: rest => if (c =? chr_dot)%N then chr_underscore :: rest else sanitized
    | [] => sanitized
    end in
  (* Prevent empty filename *)
  let sanitized :=
    if bool_decide (sanitized = []) || bool_decide (sanitized = [chr_underscore])
    then ustr_of "unnamed_file" else sanitized in
  (* Limit length *)
  if (255 <? length sanitized)%nat then
    (* Keep extension *)
    let name := path_stem sanitized in
    let ext := path_suffix sanitized in
    let max_name_length := 255 - Z.of_nat (length ext) in
    py_slice_to name max_name_length ++ ext
  else sanitized.

(** [s.lstrip()] and [s.strip()], for the predicate [isspace] on
    characters. *)
Fixpoint ustr_lstrip (isspace : N → bool) (s : ustr) : ustr :=
  match s with
  | c :: rest => if isspace c then ustr_lstrip isspace rest else s
  | [] => []
  end.

Definition ustr_strip (isspace : N → bool) (s : ustr) : ustr :=
  reverse (ustr_lstrip isspace (reverse (ustr_lstrip isspace s))).

Section SanitizeInput.
(* [str.isprintable()] and [str.isspace()] of a character: tables of the
   Unicode database *)
Variable isprintable : N → bool.
Variable isspace : N → bool.

(** The test of the generator expression of [sanitize_input]: the
    characters it keeps. *)
Definition sanitize_input_keeps (c : N) : bool :=
  bool_decide (c ∈ [10; 13; 9]%N) || negb (isprintable c) || (32 <=? c)%N.

(** [SecurityValidator.sanitize_input(text, max_length)]. *)
Definition sanitize_input (text : ustr) (max_length : Z) : exn + ustr :=
  if bool_decide (text = []) then inr []
  else
    (* Limit length *)
    if max_length <? Z.of_nat (length text) then
      inl (ValidationError
             ("Input text exceeds maximum length of " +:+ str_of_Z max_length +:+
              " characters"))
    else
      (* Remove null bytes *)
      let text := List.filter (fun c => negb (c =? 0)%N) text in
      (* Remove control characters except newlines, tabs, and carriage returns *)
      let text := List.filter sanitize_input_keeps text in
      inr (ustr_strip isspace text).

End SanitizeInput.

(** [str.isprintable()] and [str.isspace()] on ASCII; beyond ASCII these
    two tables answer [true] and [false]. *)
Definition ascii_isprintable (c : N) : bool := (32 <=? c)%N && negb (c =? 127)%N.
Definition ascii_isspace (c : N) : bool :=
  ((9 <=? c) && (c <=? 13) || (28 <=? c) && (c <=? 32))%N.

(** The name [sanitize_filename] has built when it comes to limit its
    length: the last component of the path with the characters outside
    [[a-zA-Z0-9._-]] replaced, a leading dot replaced, and
    ["unnamed_file"] in place of an empty name. *)
Definition sanitized_before_limit (filename : ustr) : ustr :=
  let filename := path_name filename in
  let sanitized := (fun c => if is_safe_char c then c else chr_underscore) <$> filename in
  let sanitized :=
    match sanitized with
    | c :: rest => if (c =? chr_dot)%N then chr_underscore :: rest else sanitized
    | [] => sanitized
    end in
  if bool_decide (sanitized = []) || bool_decide (sanitized = [chr_underscore])
  then ustr_of "unnamed_file" else sanitized.

(** A name of characters of [[a-zA-Z0-9._-]] only. *)
Definition safe_name (s : ustr) : Prop := Forall (fun c => is_safe_char c = true) s.

(** A name that starts with a dot. *)
Definition hidden_name (s : ustr) : Prop := head s = Some chr_dot.

(* ===================================================================== *)
(** ** The status and download endpoints ([main.py]) *)
(* ===================================================================== *)

(** What the status endpoint answers: the JSON body of a success, or the
    status code and detail of the [HTTPException] it raised. *)
Record StatusContent := {
  sc_status : string;
  sc_progress : Z;
  sc_message : string;
  sc_answers : list AnswerData
}.

Inductive StatusResult :=
  | Status200 (content : StatusContent)
  | StatusError (status_code : Z) (detail : string).

(** [get_status] ([main.py], lines 327-382). *)
Definition get_status (session_id : string) : M StatusResult :=
  try_except
    ((* Validate session ID format *)
     match validate_session_id session_id with
     | Some message => ret (StatusError 400 message)
     | None =>
         (* Get session data *)
         session <- call_get_session session_id ;;
         match session with
         | None => ret (StatusError 404 "Session not found")
         | Some session =>
             (* Get latest progress *)
             progress_info <- redis_get (fun r => get_latest_progress r session_id) ;;
             let status := default "pending" (session !! "status") in
             let progress :=
               match progress_info with Some info => lp_progress info | None => 0 end in
             let stage :=
               match progress_info with Some info => lp_stage info | None => "pending" end in
             (* Generate appropriate message *)
             let message :=
               if bool_decide (status = status_value COMPLETE) then
                 "Processing complete. PDF is ready for download."
               else if bool_decide (status = status_value ERROR) then
                 "An error occurred during processing. Please try again."
               else if bool_decide (status = status_value PROCESSING) then
                 "Processing in progress: " +:+ stage
               else "Waiting to start processing" in
             (* Get generated answers for real-time preview *)
             answers <- call_get_answers session_id ;;
             ret (Status200 {| sc_status := status; sc_progress := progress;
                               sc_message := message; sc_answers := answers |})
         end
     end)
    (fun _ => ret (StatusError 500 "Internal server error")).

(** What the download endpoint answers: the [FileResponse] for the file
    at a path of the output directory, with the file name offered to the
    client and its [Content-Disposition] header, or the status code and
    detail of the [HTTPException] it raised. *)
Inductive DownloadResult :=
  | FileResponse (path filename content_disposition : string)
  | DownloadError (status_code : Z) (detail : string).

Section Download.
(* the error [backend.retrieve] fails with on an identifier, if any *)
Variable retrieve_error : string → option exn.
(* the error the creation of the output directory or the writing of a
   file of that name in it fails with, if any *)
Variable write_error : string → option exn.

(** [PDFStorage.retrieve_pdf]. *)
Definition retrieve_pdf (identifier : string) : M (option PDFDocument) := fun w =>
  match retrieve_error identifier with
  | Some e => (Raise e, w, [])
  | None => (Ok (pdfs w !! identifier), w, [])
  end.

(** [download_pdf] ([main.py], lines 497-563); [outputs] are the files of
    [settings.output_dir], by name. *)
Definition download_pdf (session_id : string) (outputs : gmap string string)
    : M (DownloadResult * gmap string string) :=
  try_except
    ((* Validate session ID format *)
     match validate_session_id session_id with
     | Some message => ret (DownloadError 400 message, outputs)
     | None =>
         (* Get session data *)
         session <- call_get_session session_id ;;
         match session with
         | None => ret (DownloadError 404 "Session not found", outputs)
         | Some session =>
             (* Check if processing is complete *)
             let status := session !! "status" in
             if negb (bool_decide (status = Some (status_value COMPLETE))) then
               ret (DownloadError 400
                      ("PDF not ready. Current status: " +:+ default "None" status),
                    outputs)
             else
               (* Get result data *)
               result <- redis_get (fun r => get_result r session_id) ;;
               match result with
               | Some (ResultSuccess pdf_identifier _ _ _ _ _) =>
                   (* Retrieve PDF from storage *)
                   pdf_document <- retrieve_pdf pdf_identifier ;;
                   match pdf_document with
                   | None => ret (DownloadError 404 "PDF file not found in storage", outputs)
                   | Some pdf_document =>
                       (* Save to temporary file for download *)
                       let temp_name := session_id +:+ "_temp.pdf" in
                       match write_error temp_name with
                       | Some e => raise e
                       | None =>
                           ret (FileResponse temp_name (pdf_filename pdf_document)
                                  ("attachment; filename=" +:+ pdf_filename pdf_document),
                                <[temp_name := pdf_content pdf_document]> outputs)
                       end
                   end
               | _ => ret (DownloadError 404 "PDF not found", outputs)
               end
         end
     end)
    (fun _ => ret (DownloadError 500 "Internal server error", outputs)).

End Download.

(** A storage and an output directory that never fail, and an empty
    output directory. *)
Definition never_fails : string → option exn := fun _ => None.
Definition empty_output_dir : gmap string string := ∅.

(* ===================================================================== *)
(** ** The local file storage ([storage.py]) *)
(* ===================================================================== *)

(** A file of the storage directory: its bytes and the time of its last
    modification.  The directory [base_path] is the map of its files, by
    name; the file system is taken to carry out what it is asked, and the
    clock is read in whole seconds. *)
Record StoredFile := { file_content : string; st_mtime : Z }.

(** A file name: a text without a path separator. *)
Definition plain_name (name : string) : Prop := "/"%char ∉ list_ascii_of_string name.

(** [fnmatch(name, '*.pdf')]. *)
Definition is_pdf_name (name : string) : bool :=
  bool_decide (list_ascii_of_string ".pdf" `suffix_of` list_ascii_of_string name).

(** The text of a [str] given by its bytes. *)
Definition string_of_ustr (s : ustr) : string := string_of_list_ascii (ascii_of_N <$> s).

(** [PurePosixPath(name).stem], on the bytes of the name: the dot that
    starts the suffix is a byte of its own. *)
Definition name_stem (name : string) : string := string_of_ustr (path_stem (ustr_of name)).

(** A text file as [open(path, 'r')] reads it: with universal newlines, a
    carriage return, alone or followed by a line feed, reads as a line
    feed. *)
Fixpoint universal_newlines (s : string) : string :=
  match s with
  | EmptyString => EmptyString
  | String c rest =>
      if Ascii.eqb c "013" then
        match rest with
        | String c' rest' =>
            if Ascii.eqb c' "010" then String "010" (universal_newlines rest')
            else String "010" (universal_newlines rest)
        | EmptyString => String "010" EmptyString
        end
      else String c (universal_newlines rest)
  end.

(** [for line in f]: the lines of the text, each with its line feed. *)
Fixpoint text_lines (s : string) : list string :=
  match s with
  | EmptyString => []
  | String c rest =>
      if Ascii.eqb c "010" then newline :: text_lines rest
      else match text_lines rest with
           | line :: lines => String c line :: lines
           | [] => [String c EmptyString]
           end
  end.

(** [s.split(sep, 1)[1]]: what follows the first [sep], if there is one. *)
Fixpoint after_first (sep : ascii) (s : string) : option string :=
  match s with
  | EmptyString => None
  | String c rest => if Ascii.eqb c sep then Some rest else after_first sep rest
  end.

Module LocalFileStorage.
Section LocalFileStorage.
(* [str(self.base_path)] *)
Variable base_path : string.
(* [s.strip()] *)
Variable str_strip : string → string.
(* [int(s)] *)
Variable int_of_text : string → exn + Z.

(** [str(self.base_path / name)]. *)
Definition file_path (name : string) : string := base_path +:+ "/" +:+ name.

(** [save], at the clock reading [now]. *)
Definition save (now : Z) (pdf_document : PDFDocument) (identifier : string)
    (dir : gmap string StoredFile) : string * gmap string StoredFile :=
  (* Write PDF content *)
  let dir :=
    <[identifier +:+ ".pdf" :=
        {| file_content := pdf_content pdf_document; st_mtime := now |}]> dir in
  (* Store metadata *)
  let dir :=
    <[identifier +:+ ".meta" :=
        {| file_content :=
             "filename=" +:+ pdf_filename pdf_document +:+ newline +:+
             "page_count=" +:+ str_of_Z (pdf_page_count pdf_document) +:+ newline +:+
             "created_at=" +:+ isoformat now +:+ newline;
           st_mtime := now |}]> dir in
  (file_path (identifier +:+ ".pdf"), dir).

(** One turn of the loop over the lines of the metadata. *)
Definition read_metadata_line (metadata : string * Z) (line : string)
    : exn + (string * Z) :=
  if String.prefix "filename=" line then
    match after_first "=" line with
    | Some value => inr (str_strip value, metadata.2)
    | None => inl IndexError
    end
  else if String.prefix "page_count=" line then
    match after_first "=" line with
    | Some value =>
        match int_of_text (str_strip value) with
        | inr page_count => inr (metadata.1, page_count)
        | inl e => inl e
        end
    | None => inl IndexError
    end
  else inr metadata.

Fixpoint read_metadata (lines : list string) (metadata : string * Z)
    : exn + (string * Z) :=
  match lines with
  | [] => inr metadata
  | line :: lines =>
      match read_metadata_line metadata line with
      | inr metadata => read_metadata lines metadata
      | inl e => inl e
      end
  end.

(** [retrieve]. *)
Definition retrieve (identifier : string) (dir : gmap string StoredFile)
    : exn + option PDFDocument :=
  match dir !! (identifier +:+ ".pdf") with
  | None => inr None
  | Some file =>
      (* Read PDF content *)
      let content := file_content file in
      (* Read metadata *)
      let metadata :=
        match dir !! (identifier +:+ ".meta") with
        | Some metadata_file =>
            read_metadata (text_lines (universal_newlines (file_content metadata_file)))
              (identifier +:+ ".pdf", 1)
        | None => inr (identifier +:+ ".pdf", 1)
        end in
      match metadata with
      | inr (filename, page_count) =>
          match PDFDocument_new content filename page_count with
          | inr pdf_document => inr (Some pdf_document)
          | inl e => inl e
          end
      | inl e => inl e
      end
  end.

(** [delete]. *)
Definition delete (identifier : string) (dir : gmap string StoredFile)
    : bool * gmap string StoredFile :=
  let file_path := identifier +:+ ".pdf" in
  let metadata_path := identifier +:+ ".meta" in
  let deleted := bool_decide (is_Some (dir !! file_path)) in
  let dir := if deleted then base.delete file_path dir else dir in
  let dir := base.delete metadata_path dir in
  (deleted, dir).

(** The loop of [cleanup_expired] over [listing], the names that
    [glob("*.pdf")] found in the directory, in the order it yields them. *)
Fixpoint cleanup_loop (cutoff_time : Z) (listing : list string) (deleted_count : Z)
    (dir : gmap string StoredFile) : exn + (Z * gmap string StoredFile) :=
  match listing with
  | [] => inr (deleted_count, dir)
  | name :: listing =>
      match dir !! name with
      | None => inl (FileNotFoundError (file_path name))
      | Some file =>
          if st_mtime file <? cutoff_time then
            let identifier := name_stem name in
            let '(deleted, dir) := delete identifier dir in
            cleanup_loop cutoff_time listing
              (if deleted : bool then deleted_count + 1 else deleted_count) dir
          else cleanup_loop cutoff_time listing deleted_count dir
      end
  end.

(** [cleanup_expired], at the clock reading [now]. *)
Definition cleanup_expired (now : Z) (retention_days : Z) (listing : list string)
    (dir : gmap string StoredFile) : exn + (Z * gmap string StoredFile) :=
  let cutoff_time := now - retention_days * 24 * 60 * 60 in
  cleanup_loop cutoff_time listing 0 dir.

End LocalFileStorage.
End LocalFileStorage.

(** What [glob("*.pdf")] may yield on a directory: its names that match,
    each once, in some order. *)
Definition glob_pdf (dir : gmap string StoredFile) (listing : list string) : Prop :=
  NoDup listing ∧
  ∀ name, name ∈ listing ↔ is_Some (dir !! name) ∧ is_pdf_name name = true.

(** The PDF of the name is older than the cutoff. *)
Definition expired (dir : gmap string StoredFile) (cutoff_time : Z) (name : string) : bool :=
  match dir !! name with
  | Some file => st_mtime file <? cutoff_time
  | None => false
  end.

(** [str.strip()] on a text of ASCII characters. *)
Fixpoint ascii_lstrip (s : string) : string :=
  match s with
  | String c rest => if is_space c then ascii_lstrip rest else s
  | EmptyString => EmptyString
  end.

Definition ascii_strip (s : string) : string :=
  String.rev (ascii_lstrip (String.rev (ascii_lstrip s))).

(** [int(s)] on a decimal numeral. *)
Definition int_of_numeral (s : string) : exn + Z :=
  match NilZero.int_of_string s with
  | Some d => inr (Z.of_int d)
  | None => inl (ValueError ("invalid literal for int() with base 10: '" +:+ s +:+ "'"))
  end.

Definition demo_document : PDFDocument :=
  {| pdf_content := "%PDF-1.4 demo"; pdf_filename := "answers_2024-01-01_120000.pdf";
     pdf_page_count := 3 |}.

(** A text of one line: no line feed and no carriage return in it. *)
Definition one_line (s : string) : Prop :=
  ("010"%char ∉ list_ascii_of_string s) ∧ ("013"%char ∉ list_ascii_of_string s).

(** A directory with two documents, stored at the times 0 and 1000000. *)
Definition demo_directory : gmap string StoredFile :=
  (LocalFileStorage.save "storage/pdfs" 1000000 demo_document "pdf_new"
     (LocalFileStorage.save "storage/pdfs" 0 demo_document "pdf_old" ∅).2).2.

Definition demo_listing : list string := ["pdf_old.pdf"; "pdf_new.pdf"].

(* ===================================================================== *)
(** * Reasoning about effects *)
(* ===================================================================== *)

(** [m] respects [R] when every run of [m] does so, whatever it returns. *)
Definition respects {A} (R : effect_spec) (m : M A) : Prop :=
  ∀ w, R w (m w).1.2 (m w).2.

(** [m] returns only values satisfying [P]. *)
Definition returns {A} (P : A → Prop) (m : M A) : Prop :=
  ∀ w a w' ev, m w = (Ok a, w', ev) → P a.

(** [m] never raises. *)
Definition total {A} (m : M A) : Prop :=
  ∀ w, ∃ a, (m w).1.1 = Ok a.

(** An invariant holds of doing nothing and of doing one thing after
    another. *)
Class Invariant (R : effect_spec) := {
  inv_refl : ∀ w, R w w [];
  inv_trans : ∀ w1 w2 w3 ev1 ev2, R w1 w2 ev1 → R w2 w3 ev2 → R w1 w3 (ev1 ++ ev2)
}.

(** The callback of a generator respects [R]. *)
Definition callback_respects (R : effect_spec) (g : AnswerGenerator) : Prop :=
  match progress_callback g with
  | Some callback => ∀ stage progress message, respects R (callback stage progress message)
  | None => True
  end.

(** The external actions of the answer generator. *)
Class GenerationLeaves (R : effect_spec) := {
  leaf_sleep : ∀ seconds, respects R (sleep seconds);
  leaf_provider : ∀ E q l, respects R (call_provider E q l)
}.

(** The external actions any step of the pipeline may take. *)
Class ExternalLeaves (R : effect_spec) := {
  external_generation :: GenerationLeaves R;
  leaf_progress : ∀ sm event, respects R (call_add_progress_event sm event);
  leaf_graphviz : ∀ E spec, respects R (call_graphviz E spec);
  leaf_save_pdf : ∀ E doc, respects R (save_pdf E doc)
}.

(** The preview store. *)
Class StoreAnswerLeaf (R : effect_spec) :=
  leaf_store_answer : ∀ sm sid i q a d, respects R (call_store_answer sm sid i q a d).

(** The result slot and the status field. *)
Class ResultLeaves (R : effect_spec) := {
  leaf_store_result : ∀ sm sid result, respects R (call_store_result sm sid result);
  leaf_status : ∀ sm sid status, respects R (call_update_session_status sm sid status)
}.

Create HintDb respects.

Section Respects.
Context (R : effect_spec) `{!Invariant R}.

Lemma respects_ret {A} (a : A) : respects R (ret a).
Proof. intros w. apply inv_refl. Qed.

Lemma respects_raise {A} (e : exn) : respects R (raise (A := A) e).
Proof. intros w. apply inv_refl. Qed.

Lemma respects_bind_returns {A B} (P : A → Prop) (m : M A) (k : A → M B) :
  respects R m → returns P m → (∀ a, P a → respects R (k a)) → respects R (bind m k).
Proof.
  intros Hm HP Hk w. unfold bind.
  specialize (Hm w). specialize (HP w).
  destruct (m w) as [[[a | e] w1] ev1]; simpl in *; [| exact Hm].
  specialize (Hk a (HP a w1 ev1 eq_refl) w1).
  destruct (k a w1) as [[r w2] ev2]; simpl in *.
  eapply inv_trans; eauto.
Qed.

Lemma respects_bind {A B} (m : M A) (k : A → M B) :
  respects R m → (∀ a, respects R (k a)) → respects R (bind m k).
Proof.
  intros Hm Hk. apply (respects_bind_returns (fun _ => True)); auto.
  intros w a w' ev _. exact I.
Qed.

Lemma respects_catch {A} (m : M A) : respects R m → respects R (catch m).
Proof.
  intros Hm w. unfold catch. specialize (Hm w).
  destruct (m w) as [[r w1] ev1]; exact Hm.
Qed.

Lemma respects_try_except {A} (m : M A) (handler : exn → M A) :
  respects R m → (∀ e, respects R (handler e)) → respects R (try_except m handler).
Proof.
  intros Hm Hh. unfold try_except. apply respects_bind.
  - by apply respects_catch.
  - intros [a | e]; [apply respects_ret | apply Hh].
Qed.

Lemma respects_try_finally {A} (m : M A) (cleanup : M unit) :
  respects R m → respects R cleanup → respects R (try_finally m cleanup).
Proof.
  intros Hm Hc w. unfold try_finally. specialize (Hm w).
  destruct (m w) as [[r w1] ev1]; simpl in *.
  specialize (Hc w1).
  destruct (cleanup w1) as [[[[] | e] w2] ev2]; simpl in *; eapply inv_trans; eauto.
Qed.

Lemma respects_lift {A} (r : exn + A) : respects R (lift r).
Proof. destruct r; [apply respects_raise | apply respects_ret]. Qed.

Lemma respects_utcnow : respects R utcnow.
Proof. intros w. apply inv_refl. Qed.

Lemma respects_redis_get {A} (f : Redis → A) : respects R (redis_get f).
Proof. intros w. apply inv_refl. Qed.

Lemma respects_os_path_exists path : respects R (os_path_exists path).
Proof. intros w. apply inv_refl. Qed.

End Respects.

#[export] Hint Resolve respects_ret respects_raise respects_lift respects_utcnow
  respects_redis_get respects_os_path_exists : respects.
#[export] Hint Resolve leaf_progress leaf_sleep leaf_provider leaf_graphviz leaf_save_pdf
  leaf_store_answer leaf_store_result leaf_status : respects.

(** One step of a proof that a computation respects an invariant: follow
    the shape of the computation. *)
Ltac respects_step :=
  lazymatch goal with
  | |- Invariant _ => tc_solve
  | |- GenerationLeaves _ => tc_solve
  | |- ExternalLeaves _ => tc_solve
  | |- StoreAnswerLeaf _ => tc_solve
  | |- ResultLeaves _ => tc_solve
  | |- ∀ _, _ => intros ?
  | |- respects _ (bind _ _) => apply respects_bind
  | |- respects _ (try_except _ _) => apply respects_try_except
  | |- respects _ (try_finally _ _) => apply respects_try_finally
  | |- respects _ (catch _) => apply respects_catch
  | |- respects _ (match ?x with _ => _ end) => destruct x
  | |- respects _ _ => solve [eauto with respects typeclass_instances]
  end.

Ltac respects_auto := repeat respects_step.

Section GenerationRespects.
Context (R : effect_spec) `{!Invariant R} `{!GenerationLeaves R}.
Variable E : Env.

Lemma respects_gen_emit_progress g stage progress message :
  callback_respects R g → respects R (gen_emit_progress g stage progress message).
Proof.
  unfold callback_respects, gen_emit_progress. intros Hcb.
  destruct (progress_callback g); [apply Hcb | respects_auto].
Qed.

Lemma respects_get_language_config code : respects R (get_language_config code).
Proof. unfold get_language_config. respects_auto. Qed.

Lemma respects_retry_loop g q l attempts last_error :
  respects R (retry_loop E g q l attempts last_error).
Proof.
  revert last_error. induction attempts as [| attempt rest IH]; intros last_error; simpl.
  - respects_auto.
  - apply respects_bind; [tc_solve | apply respects_catch; respects_auto |].
    intros [response | e]; [respects_auto |].
    destruct (attempt <? max_retries g - 1); [| respects_auto].
    apply respects_bind; [tc_solve | respects_auto | intros _; apply IH].
Qed.

Lemma respects_generate_answer_with_llm g q l :
  respects R (_generate_answer_with_llm E g q l).
Proof.
  unfold _generate_answer_with_llm.
  apply respects_bind; [tc_solve | apply respects_get_language_config | intros _].
  apply respects_bind; [tc_solve | apply respects_retry_loop | intros [? | ?]]; respects_auto.
Qed.

Lemma respects_search_knowledge_base q : respects R (_search_knowledge_base E q).
Proof. unfold _search_knowledge_base. respects_auto. Qed.

Lemma respects_generate_answer g q l :
  callback_respects R g → respects R (generate_answer E g q l).
Proof.
  intros Hcb. unfold generate_answer.
  destruct (negb (is_supported l)); [respects_auto |].
  pose proof (respects_gen_emit_progress g) as Hemit.
  pose proof respects_search_knowledge_base as Hkb.
  pose proof respects_generate_answer_with_llm as Hllm.
  respects_auto.
Qed.

End GenerationRespects.

Section PipelineRespects.
Context (R : effect_spec) `{!Invariant R} `{!ExternalLeaves R}.
Variable E : Env.
Variable sm : SessionManager.

Lemma respects_emit_progress sid stage progress message :
  respects R (_emit_progress sm sid stage progress message).
Proof. unfold _emit_progress. respects_auto. Qed.

Lemma respects_answer_progress_callback sid stage progress message :
  respects R (answer_progress_callback sm sid stage progress message).
Proof. apply respects_emit_progress. Qed.

Lemma respects_generate_diagram spec : respects R (generate_diagram E spec).
Proof.
  pose proof respects_get_language_config as Hlang.
  unfold generate_diagram. respects_auto.
Qed.

Lemma respects_generate_pdf questions answers diagrams l :
  respects R (generate_pdf E questions answers diagrams l).
Proof.
  pose proof respects_get_language_config as Hlang.
  unfold generate_pdf. respects_auto.
Qed.

Lemma respects_parse_input_file path fmt : respects R (_parse_input_file E path fmt).
Proof. unfold _parse_input_file. respects_auto. Qed.

Lemma respects_parse_step sid path fmt : respects R (parse_step E sm sid path fmt).
Proof.
  pose proof respects_emit_progress as Hemit.
  pose proof respects_parse_input_file as Hparse.
  unfold parse_step. respects_auto.
Qed.

Lemma respects_services_step sid : respects R (services_step E sm sid).
Proof.
  pose proof respects_emit_progress as Hemit.
  unfold services_step, initialize_services. respects_auto.
Qed.

Lemma services_step_returns sid :
  returns (callback_respects R) (services_step E sm sid).
Proof.
  intros w g w' ev. unfold services_step, initialize_services, bind.
  destruct (_emit_progress _ _ _ _ _ w) as [[[[] | e] w1] ev1]; [| done].
  destruct (pipeline_services E); unfold raise, ret; intros [= <- _ _].
  - unfold callback_respects; simpl. intros. apply respects_answer_progress_callback.
Qed.

Lemma respects_diagram_loop sid total specs answer_diagrams processed :
  respects R (diagram_loop E sm sid total specs answer_diagrams processed).
Proof.
  pose proof respects_emit_progress as Hemit.
  pose proof respects_generate_diagram as Hgen.
  revert answer_diagrams processed.
  induction specs as [| spec rest IH]; intros answer_diagrams processed; simpl.
  - respects_auto.
  - apply respects_bind; [tc_solve | apply respects_catch; respects_auto |].
    intros [[ad p] | e]; [apply IH |].
    destruct (isinstance e "DiagramGenerationError"); [apply IH | respects_auto].
Qed.

Lemma respects_diagrams_loop sid total answers diagrams processed :
  respects R (diagrams_loop E sm sid total answers diagrams processed).
Proof.
  revert diagrams processed.
  induction answers as [| answer rest IH]; intros diagrams processed; simpl.
  - respects_auto.
  - apply respects_bind; [tc_solve | apply respects_diagram_loop |].
    intros [ad p]. apply IH.
Qed.

Lemma respects_diagrams_step sid answers : respects R (diagrams_step E sm sid answers).
Proof.
  pose proof respects_emit_progress as Hemit.
  pose proof respects_diagrams_loop as Hloop.
  unfold diagrams_step. respects_auto.
Qed.

Lemma respects_pdf_step sid l questions answers diagrams :
  respects R (pdf_step E sm sid l questions answers diagrams).
Proof.
  pose proof respects_emit_progress as Hemit.
  pose proof respects_generate_pdf as Hpdf.
  unfold pdf_step. respects_auto.
Qed.

Lemma respects_storage_step sid doc : respects R (storage_step E sm sid doc).
Proof.
  pose proof respects_emit_progress as Hemit.
  unfold storage_step. respects_auto.
Qed.

End PipelineRespects.

Section TaskRespects.
Context (R : effect_spec) `{!Invariant R} `{!ExternalLeaves R} `{!StoreAnswerLeaf R}.
Variable E : Env.
Variable sm : SessionManager.

Lemma respects_answer_step g sid l n answers i q :
  callback_respects R g → respects R (answer_step E sm g sid l n answers i q).
Proof.
  intros Hcb.
  pose proof (respects_emit_progress R sm) as Hemit.
  pose proof (respects_generate_answer R E g q l Hcb) as Hgen.
  unfold answer_step. respects_auto.
Qed.

Lemma respects_answer_loop g sid l n items answers :
  callback_respects R g → respects R (answer_loop E sm g sid l n items answers).
Proof.
  intros Hcb. revert answers.
  induction items as [| [i q] rest IH]; intros answers; simpl.
  - respects_auto.
  - apply respects_bind; [tc_solve | by apply respects_answer_step | intros a; apply IH].
Qed.

Lemma respects_answers_step g sid l questions :
  callback_respects R g → respects R (answers_step E sm g sid l questions).
Proof.
  intros Hcb.
  pose proof (respects_emit_progress R sm) as Hemit.
  pose proof (fun n items answers => respects_answer_loop g sid l n items answers Hcb) as Hloop.
  unfold answers_step. respects_auto.
Qed.

Lemma respects_run_steps sid path fmt l : respects R (run_steps E sm sid path fmt l).
Proof.
  unfold run_steps.
  apply respects_bind; [tc_solve | by apply respects_parse_step | intros questions].
  apply (respects_bind_returns R (callback_respects R));
    [by apply respects_services_step | by apply services_step_returns | intros g Hcb].
  apply respects_bind; [tc_solve | by apply respects_answers_step | intros answers].
  apply respects_bind; [tc_solve | by apply respects_diagrams_step | intros diagrams].
  apply respects_bind; [tc_solve | by apply respects_pdf_step | intros doc].
  apply respects_bind; [tc_solve | by apply respects_storage_step | intros identifier].
  respects_auto.
Qed.

Context `{!ResultLeaves R}.

Lemma respects_finalize sid p : respects R (finalize sm sid p).
Proof.
  pose proof (respects_emit_progress R sm) as Hemit.
  unfold finalize. respects_auto.
Qed.

Lemma respects_try_block sid path fmt l : respects R (try_block E sm sid path fmt l).
Proof.
  pose proof respects_run_steps as Hsteps.
  pose proof respects_finalize as Hfin.
  unfold try_block. respects_auto.
Qed.

Lemma respects_except_block {A} sid e : respects R (except_block (A := A) E sm sid e).
Proof.
  pose proof (respects_emit_progress R sm) as Hemit.
  unfold except_block. respects_auto.
Qed.

(** Everything the task does before its [finally] block. *)
Lemma respects_try_except_blocks sid path fmt l :
  respects R (try_except (try_block E sm sid path fmt l) (except_block E sm sid)).
Proof.
  pose proof respects_try_block as Htry.
  pose proof (@respects_except_block ResultData) as Hexc.
  respects_auto.
Qed.

End TaskRespects.

(* ===================================================================== *)
(** ** The invariants in use *)
(* ===================================================================== *)

Section Silent.
Context {X : Type} (f : Event → list X).

Global Instance silent_invariant : Invariant (silent f).
Proof.
  split; unfold silent.
  - done.
  - intros w1 w2 w3 ev1 ev2 H1 H2. by rewrite bind_app, H1, H2.
Qed.

Lemma silent_external :
  (∀ e, f (EvProgress e) = []) → (∀ s, f (EvSleep s) = []) →
  (∀ q, f (EvProviderCall q) = []) → (∀ s, f (EvRender s) = []) →
  (∀ i, f (EvSavePdf i) = []) →
  ExternalLeaves (silent f).
Proof.
  intros Hp Hs Hc Hr Hv. split; [split |..]; intros; intros w; unfold silent; simpl.
  - by rewrite Hs.
  - by rewrite Hc.
  - by rewrite Hp.
  - by rewrite Hr.
  - unfold save_pdf. destruct (backend_save _ _ _); simpl; [done | by rewrite Hv].
Qed.

Lemma silent_store_answer :
  (∀ sid a, f (EvStoreAnswer sid a) = []) → StoreAnswerLeaf (silent f).
Proof. intros Ha sm sid i q a d w. unfold silent; simpl. by rewrite Ha. Qed.

Lemma silent_result :
  (∀ sid r, f (EvStoreResult sid r) = []) → (∀ sid s, f (EvStatus sid s) = []) →
  ResultLeaves (silent f).
Proof.
  intros Hr Hs. split; intros; intros w; unfold silent; simpl.
  - by rewrite Hr.
  - by rewrite Hs.
Qed.

End Silent.

Global Instance status_external : ExternalLeaves (silent status_of).
Proof. by apply silent_external. Qed.
Global Instance status_store_answer : StoreAnswerLeaf (silent status_of).
Proof. by apply silent_store_answer. Qed.

Global Instance removed_external : ExternalLeaves (silent removed_of).
Proof. by apply silent_external. Qed.
Global Instance removed_store_answer : StoreAnswerLeaf (silent removed_of).
Proof. by apply silent_store_answer. Qed.
Global Instance removed_result : ResultLeaves (silent removed_of).
Proof. by apply silent_result. Qed.

Global Instance stored_answer_external : ExternalLeaves (silent stored_answer_of).
Proof. by apply silent_external. Qed.
Global Instance stored_answer_result : ResultLeaves (silent stored_answer_of).
Proof. by apply silent_result. Qed.

Global Instance stored_result_external : ExternalLeaves (silent stored_result_of).
Proof. by apply silent_external. Qed.
Global Instance stored_result_store_answer : StoreAnswerLeaf (silent stored_result_of).
Proof. by apply silent_store_answer. Qed.

Global Instance keeps_invariant {X} (g : World → X) : Invariant (keeps g).
Proof.
  split; unfold keeps.
  - done.
  - intros w1 w2 w3 _ _ H1 H2. by rewrite H2, H1.
Qed.

Global Instance uploads_external : ExternalLeaves (keeps uploads).
Proof.
  split; [split |..]; intros; intros w; unfold keeps; simpl; try done.
  unfold save_pdf. by destruct (backend_save _ _ _).
Qed.
Global Instance uploads_store_answer : StoreAnswerLeaf (keeps uploads).
Proof. by intros sm sid i q a d w. Qed.
Global Instance uploads_result : ResultLeaves (keeps uploads).
Proof. by split; intros; intros w. Qed.

(* ===================================================================== *)
(** ** Facts about the Redis commands *)
(* ===================================================================== *)

Lemma hashes_expire key seconds r : hashes (expire key seconds r) = hashes r.
Proof. unfold expire. by destruct (key_exists r key). Qed.

Lemma answer_lists_expire key seconds r : answer_lists (expire key seconds r) = answer_lists r.
Proof. unfold expire. by destruct (key_exists r key). Qed.

Lemma event_lists_expire key seconds r : event_lists (expire key seconds r) = event_lists r.
Proof. unfold expire. by destruct (key_exists r key). Qed.

Lemma values_expire key seconds r : values (expire key seconds r) = values r.
Proof. unfold expire. by destruct (key_exists r key). Qed.

Lemma hget_expire key seconds r k f : hget (expire key seconds r) k f = hget r k f.
Proof. unfold hget. by rewrite hashes_expire. Qed.

Lemma hget_hset_eq key field value r : hget (hset key field value r) key field = Some value.
Proof. unfold hget, hset; simpl. rewrite lookup_insert_eq; simpl. apply lookup_insert_eq. Qed.

Lemma hget_hset_ne key field value r k f :
  key ≠ k ∨ field ≠ f → hget (hset key field value r) k f = hget r k f.
Proof.
  intros Hne. unfold hget, hset; simpl.
  destruct (decide (key = k)) as [-> | Hk].
  - destruct Hne as [? | Hf]; [done |].
    rewrite lookup_insert_eq; simpl. rewrite lookup_insert_ne by done.
    by destruct (hashes r !! k).
  - by rewrite lookup_insert_ne.
Qed.

Lemma hget_add_progress_event_other sm event r k f :
  f ≠ "progress" → f ≠ "current_stage" →
  hget (add_progress_event sm event r) k f = hget r k f.
Proof.
  intros H1 H2. unfold add_progress_event.
  rewrite hget_expire, !hget_hset_ne, hget_expire by (right; congruence).
  done.
Qed.

Lemma values_hset key field value r : values (hset key field value r) = values r.
Proof. reflexivity. Qed.

Lemma values_rpush_event key e r : values (rpush_event key e r) = values r.
Proof. reflexivity. Qed.

Lemma answer_lists_hset key field value r :
  answer_lists (hset key field value r) = answer_lists r.
Proof. reflexivity. Qed.

Lemma answer_lists_rpush_event key e r :
  answer_lists (rpush_event key e r) = answer_lists r.
Proof. reflexivity. Qed.

Lemma values_add_progress_event sm event r : values (add_progress_event sm event r) = values r.
Proof.
  unfold add_progress_event.
  by rewrite values_expire, !values_hset, values_expire, values_rpush_event.
Qed.

Lemma values_update_session_status sm sid status r :
  values (update_session_status sm sid status r) = values r.
Proof. unfold update_session_status. by rewrite values_expire, values_hset. Qed.

Lemma answer_lists_add_progress_event sm event r :
  answer_lists (add_progress_event sm event r) = answer_lists r.
Proof.
  unfold add_progress_event.
  by rewrite answer_lists_expire, !answer_lists_hset, answer_lists_expire,
    answer_lists_rpush_event.
Qed.

Lemma answer_lists_update_session_status sm sid status r :
  answer_lists (update_session_status sm sid status r) = answer_lists r.
Proof. unfold update_session_status. by rewrite answer_lists_expire, answer_lists_hset. Qed.

Lemma answer_lists_store_result sm sid result r :
  answer_lists (store_result sm sid result r) = answer_lists r.
Proof. reflexivity. Qed.

Lemma get_result_store_result sm sid result r :
  get_result (store_result sm sid result r) sid = Some result.
Proof. unfold get_result, store_result, set_ex. cbn [values]. apply lookup_insert_eq. Qed.

Lemma hget_update_session_status sm sid status r :
  hget (update_session_status sm sid status r) (_get_session_key sid) "status"
  = Some (status_value status).
Proof. unfold update_session_status. by rewrite hget_expire, hget_hset_eq. Qed.

Arguments add_progress_event : simpl never.
Arguments update_session_status : simpl never.
Arguments store_result : simpl never.
Arguments store_answer : simpl never.
Arguments update_answer : simpl never.
Arguments _emit_progress : simpl never.

Lemma redis_with_redis f w : redis (with_redis f w) = f (redis w).
Proof. reflexivity. Qed.

Lemma uploads_with_redis f w : uploads (with_redis f w) = uploads w.
Proof. reflexivity. Qed.

(** [_emit_progress] amounts to one [add_progress_event]. *)
Lemma emit_progress_run sm sid stage progress message w :
  _emit_progress sm sid stage progress message w =
  (Ok tt,
   with_redis
     (add_progress_event sm
        {| pe_session_id := sid; pe_stage := stage; pe_progress := progress;
           pe_message := message; pe_timestamp := clock w |}) w,
   [EvProgress {| pe_session_id := sid; pe_stage := stage; pe_progress := progress;
                  pe_message := message; pe_timestamp := clock w |}]).
Proof. reflexivity. Qed.

(** The [finally] block leaves Redis alone and writes no status. *)
Lemma finally_block_redis E path w :
  redis (finally_block E path w).1.2 = redis w.
Proof.
  unfold finally_block, try_except, bind, catch, os_path_exists, os_remove, ret; simpl.
  repeat case_bool_decide; try done; by destruct (os_remove_error E path).
Qed.

Lemma finally_block_total E path w : (finally_block E path w).1.1 = Ok tt.
Proof.
  unfold finally_block, try_except, bind, catch, os_path_exists, os_remove, ret; simpl.
  repeat case_bool_decide; try done; by destruct (os_remove_error E path).
Qed.

Lemma finally_block_events E path w :
  (finally_block E path w).2 =
  if bool_decide (path ∈ uploads w) then
    match os_remove_error E path with Some _ => [] | None => [EvRemove path] end
  else [].
Proof.
  unfold finally_block, try_except, bind, catch, os_path_exists, os_remove, ret; simpl.
  repeat case_bool_decide; try done; by destruct (os_remove_error E path).
Qed.

Lemma finally_block_uploads E path w :
  uploads (finally_block E path w).1.2 =
  if bool_decide (path ∈ uploads w) then
    match os_remove_error E path with Some _ => uploads w | None => uploads w ∖ {[path]} end
  else uploads w.
Proof.
  unfold finally_block, try_except, bind, catch, os_path_exists, os_remove, ret; simpl.
  repeat case_bool_decide; try done; by destruct (os_remove_error E path).
Qed.

(* ===================================================================== *)
(** ** The shape of a run of the task *)
(* ===================================================================== *)

Section TaskShape.
Variable E : Env.
Variable sm : SessionManager.
Variables sid path fmt lang : string.

(** What [finalize] does. *)
Lemma finalize_run p w :
  ∃ w' result event,
    finalize sm sid p w =
    (Ok result, w',
     [EvStoreResult sid result; EvStatus sid COMPLETE; EvProgress event]) ∧
    pe_progress event = 100 ∧
    hget (redis w') (_get_session_key sid) "status" = Some (status_value COMPLETE) ∧
    uploads w' = uploads w.
Proof.
  unfold finalize, bind, call_store_result, call_update_session_status, redis_do. simpl.
  eexists _, _, _. split; [reflexivity |]. split; [reflexivity |].
  rewrite !redis_with_redis, !uploads_with_redis. split; [| reflexivity].
  rewrite hget_add_progress_event_other by done.
  apply hget_update_session_status.
Qed.

(** What the [except] block does. *)
Lemma except_block_run e w :
  ∃ w' result event,
    except_block (A := ResultData) E sm sid e w =
    (Raise e, w',
     [EvStoreResult sid result; EvStatus sid ERROR; EvProgress event]) ∧
    result = ResultError (exn_str e) (exn_type e) (format_exc E e) ∧
    pe_progress event = 0 ∧ pe_stage event = "error" ∧
    hget (redis w') (_get_session_key sid) "status" = Some (status_value ERROR) ∧
    get_result (redis w') sid = Some result ∧
    uploads w' = uploads w ∧
    answer_lists (redis w') = answer_lists (redis w).
Proof.
  unfold except_block, bind, call_store_result, call_update_session_status, redis_do. simpl.
  eexists _, _, _. split; [reflexivity |].
  rewrite !redis_with_redis, !uploads_with_redis.
  split; [reflexivity |]. split; [reflexivity |]. split; [reflexivity |].
  split; [| split; [| split; [reflexivity |]]].
  - rewrite hget_add_progress_event_other by done. apply hget_update_session_status.
  - unfold get_result.
    rewrite values_add_progress_event, values_update_session_status.
    apply get_result_store_result.
  - by rewrite answer_lists_add_progress_event, answer_lists_update_session_status.
Qed.

(** The task as a whole: a [PROCESSING] write first, then the steps,
    which write no status, then one terminal write. *)
Lemma task_status_shape w :
  let '(r, w', events) := process_question_paper E sm sid path fmt lang w in
  ∃ steps closing cleanup,
    events = EvStatus sid PROCESSING :: steps ++ closing ++ cleanup ∧
    status_writes steps = [] ∧
    status_writes cleanup = [] ∧
    status_writes closing = [match r with Ok _ => COMPLETE | Raise _ => ERROR end] ∧
    hget (redis w') (_get_session_key sid) "status"
    = Some (status_value match r with Ok _ => COMPLETE | Raise _ => ERROR end).
Proof.
  unfold process_question_paper, try_finally, try_except, try_block.
  unfold bind at 1. unfold catch. unfold bind at 1.
  unfold call_update_session_status, redis_do. cbv beta iota.
  pose proof (respects_run_steps (silent status_of) E sm sid path fmt lang
                (with_redis (update_session_status sm sid PROCESSING) w)) as Hsteps.
  unfold silent in Hsteps. unfold bind at 1.
  destruct (run_steps E sm sid path fmt lang _) as [[[p | e] w1] steps];
    cbn [fst snd] in Hsteps; cbv beta iota.
  - destruct (finalize_run p w1) as (w2 & result & event & -> & _ & Hst & _).
    cbv beta iota. unfold ret at 1. cbv beta iota.
    pose proof (finally_block_redis E path w2) as Hredis.
    pose proof (finally_block_total E path w2) as Htotal.
    pose proof (finally_block_events E path w2) as Hev.
    destruct (finally_block E path w2) as [[rc w3] cleanup].
    cbn [fst snd] in Hredis, Htotal, Hev. subst rc. cbv beta iota.
    exists steps, [EvStoreResult sid result; EvStatus sid COMPLETE; EvProgress event], cleanup.
    split; [by rewrite ?app_nil_r, <- ?app_assoc |].
    split; [exact Hsteps |]. split; [| split; [reflexivity | by rewrite Hredis]].
    rewrite Hev. by repeat case_match.
  - destruct (except_block_run e w1) as (w2 & result & event & -> & _ & _ & _ & Hst & _).
    cbv beta iota.
    pose proof (finally_block_redis E path w2) as Hredis.
    pose proof (finally_block_total E path w2) as Htotal.
    pose proof (finally_block_events E path w2) as Hev.
    destruct (finally_block E path w2) as [[rc w3] cleanup].
    cbn [fst snd] in Hredis, Htotal, Hev. subst rc. cbv beta iota.
    exists steps, [EvStoreResult sid result; EvStatus sid ERROR; EvProgress event], cleanup.
    split; [by rewrite ?app_nil_r, <- ?app_assoc |].
    split; [exact Hsteps |]. split; [| split; [reflexivity | by rewrite Hredis]].
    rewrite Hev. by repeat case_match.
Qed.

End TaskShape.

(* ===================================================================== *)
(** * The claims *)
(* ===================================================================== *)

Lemma status_writes_app ev1 ev2 :
  status_writes (ev1 ++ ev2) = status_writes ev1 ++ status_writes ev2.
Proof. apply bind_app. Qed.

(** C1. For every run of the task, whatever the collaborators do: the
    first thing the run does is write PROCESSING; the statuses it writes
    are exactly PROCESSING followed by one terminal status, COMPLETE when
    the run returns and ERROR when it raises; read from PENDING, this
    history takes only the transitions PENDING → PROCESSING →
    {COMPLETE, ERROR}, so it never moves back and never leaves a terminal
    status; and the status stored at the end is that terminal status. *)
Theorem C1_status_transitions E sm sid path fmt lang w :
  let '(r, w', events) := process_question_paper E sm sid path fmt lang w in
  let terminal := match r with Ok _ => COMPLETE | Raise _ => ERROR end in
  (∃ rest, events = EvStatus sid PROCESSING :: rest) ∧
  status_writes events = [PROCESSING; terminal] ∧
  is_terminal terminal = true ∧
  legal_history PENDING (status_writes events) = true ∧
  hget (redis w') (_get_session_key sid) "status" = Some (status_value terminal).
Proof.
  pose proof (task_status_shape E sm sid path fmt lang w) as Hshape.
  destruct (process_question_paper E sm sid path fmt lang w) as [[r w'] events].
  destruct Hshape as (steps & closing & cleanup & -> & Hsteps & Hcleanup & Hclosing & Hstored).
  assert (Hwrites : status_writes (EvStatus sid PROCESSING :: steps ++ closing ++ cleanup)
                    = [PROCESSING; match r with Ok _ => COMPLETE | Raise _ => ERROR end]).
  { change (EvStatus sid PROCESSING :: steps ++ closing ++ cleanup)
      with ([EvStatus sid PROCESSING] ++ steps ++ closing ++ cleanup).
    rewrite !status_writes_app, Hsteps, Hclosing, Hcleanup. reflexivity. }
  split; [by eexists |]. split; [exact Hwrites |].
  split; [by destruct r |]. split; [| exact Hstored].
  rewrite Hwrites. by destruct r.
Qed.

(* ===================================================================== *)
(** ** The retry loop *)
(* ===================================================================== *)

Section Retry.
Variable E : Env.
Variable g : AnswerGenerator.
Variable q : Question.
Variable l : string.

(** What the loop does on the attempts [a, a+1, ..., a+k-1], the last of
    which is attempt [max_retries - 1]: it makes [c] provider calls with
    the waits [2^a, 2^(a+1), ...] in between, none after the last call; it
    returns the first response, or, every call having failed, the error of
    the last call. *)
Lemma retry_loop_run (k : nat) : ∀ (a : nat) (last : option exn) (w : World),
  (k = 0%nat ∨ Z.of_nat (a + k) = max_retries g) →
  let '(r, w', events) := retry_loop E g q l (Z.of_nat <$> seq a k) last w in
  ∃ c : nat,
    (c ≤ k)%nat ∧ (k = 0%nat → c = 0%nat) ∧
    provider_calls w' = (provider_calls w + c)%nat ∧
    events = match c with
             | O => []
             | S c' => backoff_trace q (Z.of_nat a) c' ++ [EvProviderCall q]
             end ∧
    (∀ j, (S j < c)%nat → fails_at E q l (provider_calls w + j)) ∧
    match r with
    | Ok (inl response) =>
        (1 ≤ c)%nat ∧ provider_call E (provider_calls w + c - 1) q l = inr response
    | Ok (inr last') =>
        c = k ∧
        match k with
        | O => last' = last
        | S k' => ∃ err, provider_call E (provider_calls w + k') q l = inl err ∧
                         last' = Some err
        end
    | Raise _ => False
    end.
Proof.
  induction k as [| k' IH]; intros a last w Hmax.
  - simpl. exists 0%nat. split_and!; try done; try lia.
  - destruct Hmax as [? | Hmax]; [done |].
    cbn [seq fmap list_fmap retry_loop].
    unfold bind at 1. unfold catch, call_provider.
    destruct (provider_call E (provider_calls w) q l) as [err | response] eqn:Hcall.
    + (* the attempt fails *)
      cbv beta iota.
      destruct (Z.of_nat a <? max_retries g - 1) eqn:Hlt.
      * apply Z.ltb_lt in Hlt.
        unfold bind at 1. unfold sleep at 1. cbv beta iota.
        cbn [redis uploads pdfs clock provider_calls render_calls].
        match goal with
        | |- context [retry_loop _ _ _ _ _ _ ?w'] => set (w1 := w')
        end.
        specialize (IH (S a) (Some err) w1).
        destruct (retry_loop E g q l (Z.of_nat <$> seq (S a) k') (Some err) w1)
          as [[r w2] ev2].
        destruct IH as (c & Hc & Hk0 & Hpc & Hev & Hfail & Hr); [right; lia |].
        assert (Hk' : k' ≠ 0%nat) by lia.
        assert (Hcpos : c ≠ 0%nat).
        { intros ->. destruct r as [[response | last'] |]; [| | done].
          - lia.
          - destruct Hr as [<- _]. done. }
        destruct c as [| c']; [done |].
        exists (S (S c')). subst w1. cbn [provider_calls] in *.
        split_and!; try lia.
        -- rewrite Hev. cbn [backoff_trace app].
           replace (Z.of_nat a + 1) with (Z.of_nat (S a)) by lia. reflexivity.
        -- intros [| j] Hj.
           ++ exists err. by rewrite Nat.add_0_r.
           ++ replace (provider_calls w + S j)%nat with (S (provider_calls w) + j)%nat by lia.
              apply Hfail. lia.
        -- destruct r as [[response | last'] |]; [| | done].
           ++ destruct Hr as [_ Hresp]. split; [lia |].
              replace (provider_calls w + S (S c') - 1)%nat
                with (S (provider_calls w) + S c' - 1)%nat by lia. exact Hresp.
           ++ destruct Hr as [Hck Hlast]. split; [lia |].
              destruct k' as [| k'']; [done |].
              destruct Hlast as (err' & Herr' & ->). exists err'. split; [| done].
              replace (provider_calls w + S k'')%nat
                with (S (provider_calls w) + k'')%nat by lia. exact Herr'.
      * apply Z.ltb_ge in Hlt. assert (k' = 0%nat) by lia. subst k'.
        unfold ret. cbv beta iota.
        exists 1%nat. cbn [provider_calls].
        split_and!; try done; try lia; try (intros j Hj; lia).
        exists err. split; [| done]. by rewrite Nat.add_0_r.
    + (* the attempt succeeds *)
      cbv beta iota. unfold ret. cbv beta iota.
      exists 1%nat. cbn [provider_calls].
      split_and!; try done; try lia; try (intros j Hj; lia).
      by replace (provider_calls w + 1 - 1)%nat with (provider_calls w) by lia.
Qed.

End Retry.

Lemma sleeps_backoff_trace q a k :
  sleeps (backoff_trace q a k) = (fun j => 2 ^ (a + Z.of_nat j)) <$> seq 0 k.
Proof.
  revert a. induction k as [| k IH]; intros a; [done |].
  cbn [backoff_trace]. unfold sleeps in *. cbn [mbind list_bind sleep_of app].
  rewrite IH. cbn [seq fmap list_fmap]. f_equal; [by rewrite Z.add_0_r |].
  rewrite <- seq_shift. rewrite <- list_fmap_compose. apply list_fmap_ext.
  intros _ j _. simpl. f_equal. lia.
Qed.

Lemma provider_calls_backoff_trace q a k :
  provider_calls_of (backoff_trace q a k) = replicate k q.
Proof.
  revert a. induction k as [| k IH]; intros a; [done |].
  cbn [backoff_trace]. unfold provider_calls_of in *.
  cbn [mbind list_bind provider_call_of app]. by rewrite IH.
Qed.

Lemma sleeps_retry_trace q c :
  sleeps (retry_trace q c) = (fun j => 2 ^ Z.of_nat j) <$> seq 0 (c - 1).
Proof.
  destruct c as [| c]; [done |]. unfold retry_trace.
  unfold sleeps. rewrite bind_app. fold (sleeps (backoff_trace q 0 c)).
  rewrite sleeps_backoff_trace. cbn [mbind list_bind sleep_of app]. rewrite app_nil_r.
  replace (S c - 1)%nat with c by lia. apply list_fmap_ext. intros _ j _. by rewrite Z.add_0_l.
Qed.

Lemma provider_calls_retry_trace q c :
  provider_calls_of (retry_trace q c) = replicate c q.
Proof.
  destruct c as [| c]; [done |]. unfold retry_trace.
  unfold provider_calls_of. rewrite bind_app. fold (provider_calls_of (backoff_trace q 0 c)).
  rewrite provider_calls_backoff_trace. cbn [mbind list_bind provider_call_of app].
  change [q] with (replicate 1 q). rewrite <- replicate_add. f_equal. lia.
Qed.

(** C5. The retry wrapper [_generate_answer_with_llm], for a supported
    language and any provider behaviour.  The maximum number of attempts
    defaults to 3.  The wrapper calls the provider [c] times with [c] at
    most the configured maximum; its events are exactly: call, wait 1,
    call, wait 2, call, wait 4, ..., call, so that the waits are the powers
    of two from 1 on and no wait follows the last call; every call but the
    last one made has failed.  It returns the response of its last call,
    or, when all of the configured attempts have failed, it raises one
    [AnswerGenerationError] whose message embeds the text of the error of
    the last attempt. *)
Theorem C5_retry_policy E g q l w :
  is_supported l = true →
  let n := Z.to_nat (max_retries g) in
  let '(r, w', events) := _generate_answer_with_llm E g q l w in
  max_retries (AnswerGenerator_new None (progress_callback g)) = 3 ∧
  ∃ c : nat,
    (c ≤ n)%nat ∧
    events = retry_trace q c ∧
    provider_calls_of events = replicate c q ∧
    sleeps events = (fun j => 2 ^ Z.of_nat j) <$> seq 0 (c - 1) ∧
    (∀ j, (S j < c)%nat → fails_at E q l (provider_calls w + j)) ∧
    match r with
    | Ok response =>
        (1 ≤ c)%nat ∧ provider_call E (provider_calls w + c - 1) q l = inr response
    | Raise e =>
        c = n ∧
        ∃ last,
          e = AnswerGenerationError
                ("Failed to generate answer after " +:+ str_of_Z (max_retries g) +:+
                 " attempts. Last error: " +:+ last) ∧
          match n with
          | O => last = "None"
          | S n' => ∃ err, provider_call E (provider_calls w + n') q l = inl err ∧
                           last = exn_str err
          end
    end.
Proof.
  intros Hsupported n.
  unfold _generate_answer_with_llm, get_language_config. rewrite Hsupported.
  unfold bind at 1. unfold ret at 1. cbv beta iota. unfold bind at 1.
  pose proof (retry_loop_run E g q l n 0 None w) as Hloop.
  unfold py_range. fold n.
  destruct (retry_loop E g q l (Z.of_nat <$> seq 0 n) None w) as [[r w1] events].
  destruct Hloop as (c & Hc & Hk0 & Hpc & Hev & Hfail & Hr).
  { destruct n eqn:Hn; [by left | right]. subst n. lia. }
  assert (Htrace : events = retry_trace q c) by (rewrite Hev; by destruct c).
  destruct r as [[response | last'] | e]; [| | done].
  - unfold ret. cbv beta iota. rewrite app_nil_l, app_nil_r.
    split; [reflexivity |]. exists c.
    split_and!; try done.
    + rewrite Htrace. apply provider_calls_retry_trace.
    + rewrite Htrace. apply sleeps_retry_trace.
    + apply Hr.
    + apply Hr.
  - unfold raise. cbv beta iota. rewrite app_nil_l, app_nil_r.
    split; [reflexivity |]. exists c.
    destruct Hr as [-> Hlast].
    split_and!; try done.
    + rewrite Htrace. apply provider_calls_retry_trace.
    + rewrite Htrace. apply sleeps_retry_trace.
    + exists (str_of_last_error last'). split; [done |].
      destruct n as [| n']; [by subst last' |].
      destruct Hlast as (err & Herr & ->). by exists err.
Qed.

(** The retry wrapper at work: three failing calls under the default
    maximum of three attempts. *)
Example retry_three_failures :
  let '(r, _, events) :=
    _generate_answer_with_llm (env_flaky [question_1] [0; 1; 2]%nat)
      (AnswerGenerator_new None None) question_1 "en" world_uploaded in
  events = [EvProviderCall question_1; EvSleep 1; EvProviderCall question_1; EvSleep 2;
            EvProviderCall question_1] ∧
  r = Raise (AnswerGenerationError
               "Failed to generate answer after 3 attempts. Last error: provider timed out").
Proof. vm_compute. split; reflexivity. Qed.

(** The retry wrapper at work: the second call succeeds. *)
Example retry_second_call_succeeds :
  let '(r, _, events) :=
    _generate_answer_with_llm (env_flaky [question_1] [0]%nat)
      (AnswerGenerator_new None None) question_1 "en" world_uploaded in
  events = [EvProviderCall question_1; EvSleep 1; EvProviderCall question_1] ∧
  r = Ok "An answer.".
Proof. vm_compute. split; reflexivity. Qed.

Lemma C5_retry_policy_witness :
  is_supported "en" = true ∧
  ltac:(let t := type of (C5_retry_policy (env_flaky [question_1] [0; 1; 2]%nat)
                            (AnswerGenerator_new None None) question_1 "en"
                            world_uploaded eq_refl) in exact t).
Proof.
  split; [reflexivity |].
  exact (C5_retry_policy (env_flaky [question_1] [0; 1; 2]%nat)
           (AnswerGenerator_new None None) question_1 "en" world_uploaded eq_refl).
Defined.

(* ===================================================================== *)
(** ** Cleanup of the uploaded file *)
(* ===================================================================== *)

(** C7. On every exit path of the task (it returns, with or without
    fallback answers, or it raises), when the uploaded file exists as the
    run starts and [os.remove] does not fail on it: the file is removed
    exactly once, by the [finally] block, and is gone afterwards. *)
Theorem C7_upload_removed_once E sm sid path fmt lang w :
  path ∈ uploads w →
  os_remove_error E path = None →
  let '(r, w', events) := process_question_paper E sm sid path fmt lang w in
  removed_paths events = [path] ∧
  (path ∉ uploads w') ∧
  uploads w' = uploads w ∖ {[path]}.
Proof.
  intros Hexists Hremove.
  unfold process_question_paper, try_finally.
  pose proof (respects_try_except_blocks (keeps uploads) E sm sid path fmt lang w) as Hkeep.
  pose proof (respects_try_except_blocks (silent removed_of) E sm sid path fmt lang w)
    as Hsilent.
  unfold keeps, silent in *.
  destruct (try_except (try_block E sm sid path fmt lang) (except_block E sm sid) w)
    as [[r w1] ev1].
  cbn [fst snd] in Hkeep, Hsilent.
  pose proof (finally_block_total E path w1) as Htotal.
  pose proof (finally_block_events E path w1) as Hev.
  pose proof (finally_block_uploads E path w1) as Hup.
  destruct (finally_block E path w1) as [[rc w2] ev2].
  cbn [fst snd] in Htotal, Hev, Hup. subst rc.
  rewrite Hkeep, Hremove, bool_decide_eq_true_2 in Hev, Hup by done.
  subst ev2. unfold removed_paths. rewrite bind_app, Hsilent, Hup.
  split; [done |]. split; [| done].
  apply not_elem_of_difference. right. by apply elem_of_singleton.
Qed.

(* ===================================================================== *)
(** ** Running a computation step by step *)
(* ===================================================================== *)

Lemma bind_run_ok {A B} (m : M A) (k : A → M B) w a w1 ev1 :
  m w = (Ok a, w1, ev1) →
  bind m k w = (let '(r, w2, ev2) := k a w1 in (r, w2, ev1 ++ ev2)).
Proof. intros H. unfold bind. by rewrite H. Qed.

Lemma bind_run_raise {A B} (m : M A) (k : A → M B) w e w1 ev1 :
  m w = (Raise e, w1, ev1) → bind m k w = (Raise e, w1, ev1).
Proof. intros H. unfold bind. by rewrite H. Qed.

Lemma try_except_run_ok {A} (m : M A) handler w a w1 ev1 :
  m w = (Ok a, w1, ev1) → try_except m handler w = (Ok a, w1, ev1).
Proof.
  intros H. unfold try_except, bind, catch, ret. rewrite H. by rewrite app_nil_r.
Qed.

Lemma try_except_run_raise {A} (m : M A) handler w e w1 ev1 :
  m w = (Raise e, w1, ev1) →
  try_except m handler w = (let '(r, w2, ev2) := handler e w1 in (r, w2, ev1 ++ ev2)).
Proof. intros H. unfold try_except, bind, catch. by rewrite H. Qed.

Lemma emit_progress_eq sm sid stage progress message w :
  _emit_progress sm sid stage progress message w =
  (Ok tt,
   with_redis (add_progress_event sm (progress_event sid stage progress message (clock w))) w,
   [EvProgress (progress_event sid stage progress message (clock w))]).
Proof. reflexivity. Qed.

Lemma answer_lists_with_redis_progress sm event w :
  answer_lists (redis (with_redis (add_progress_event sm event) w)) = answer_lists (redis w).
Proof. rewrite redis_with_redis. apply answer_lists_add_progress_event. Qed.

Section ZeroQuestions.
Variable E : Env.
Variable sm : SessionManager.
Variables sid path fmt lang : string.

Lemma parse_input_file_run questions w :
  path ∈ uploads w → parse_file E path fmt = inr questions →
  _parse_input_file E path fmt w = (Ok questions, w, []).
Proof.
  intros Hexists Hparse.
  unfold _parse_input_file, try_except, bind, catch, os_path_exists, lift, ret.
  rewrite bool_decide_eq_true_2 by done. by rewrite Hparse.
Qed.

Lemma parse_step_zero w :
  path ∈ uploads w → parse_file E path fmt = inr [] →
  parse_step E sm sid path fmt w =
  (Raise no_questions_error,
   with_redis (add_progress_event sm
                 (progress_event sid "parsing" 5 "Parsing input file" (clock w)))
     (with_redis (add_progress_event sm
                    (progress_event sid "initializing" 0 "Initializing processing" (clock w)))
        w),
   [EvProgress (progress_event sid "initializing" 0 "Initializing processing" (clock w));
    EvProgress (progress_event sid "parsing" 5 "Parsing input file" (clock w))]).
Proof.
  intros Hexists Hparse. unfold parse_step.
  rewrite (bind_run_ok _ _ _ _ _ _ (emit_progress_eq _ _ _ _ _ _)).
  rewrite (bind_run_ok _ _ _ _ _ _ (emit_progress_eq _ _ _ _ _ _)).
  erewrite bind_run_ok; [| apply parse_input_file_run; [exact Hexists | exact Hparse]].
  rewrite bool_decide_eq_true_2 by done. reflexivity.
Qed.

End ZeroQuestions.

Lemma except_block_eq {A} E sm sid e w :
  except_block (A := A) E sm sid e w =
  (Raise e,
   with_redis (add_progress_event sm
                 (progress_event sid "error" 0 ("Processing failed: " +:+ exn_str e) (clock w)))
     (with_redis (update_session_status sm sid ERROR)
        (with_redis (store_result sm sid (error_data E e)) w)),
   [EvStoreResult sid (error_data E e); EvStatus sid ERROR;
    EvProgress (progress_event sid "error" 0 ("Processing failed: " +:+ exn_str e) (clock w))]).
Proof. reflexivity. Qed.

Lemma finally_block_eq E path w :
  path ∈ uploads w → os_remove_error E path = None →
  finally_block E path w =
  (Ok tt,
   {| redis := redis w; uploads := uploads w ∖ {[path]}; pdfs := pdfs w; clock := clock w;
      provider_calls := provider_calls w; render_calls := render_calls w |},
   [EvRemove path]).
Proof.
  intros Hexists Hremove.
  unfold finally_block, try_except, bind, catch, os_path_exists, os_remove, ret.
  rewrite !bool_decide_eq_true_2 by done. by rewrite Hremove.
Qed.

Lemma try_block_zero E sm sid path fmt lang w :
  path ∈ uploads w → parse_file E path fmt = inr [] →
  ∃ w1,
    try_block E sm sid path fmt lang w =
    (Raise no_questions_error, w1,
     [EvStatus sid PROCESSING;
      EvProgress (progress_event sid "initializing" 0 "Initializing processing" (clock w));
      EvProgress (progress_event sid "parsing" 5 "Parsing input file" (clock w))]) ∧
    uploads w1 = uploads w ∧ clock w1 = clock w ∧
    answer_lists (redis w1) = answer_lists (redis w).
Proof.
  intros Hexists Hparse. unfold try_block, call_update_session_status.
  erewrite bind_run_ok; [| reflexivity].
  erewrite bind_run_raise;
    [| unfold run_steps; erewrite bind_run_raise; [reflexivity |];
       apply parse_step_zero; [exact Hexists | exact Hparse]].
  eexists. split; [reflexivity |]. split; [reflexivity |]. split; [reflexivity |].
  rewrite !answer_lists_with_redis_progress, redis_with_redis.
  apply answer_lists_update_session_status.
Qed.

(** C6. When the parser returns no question (the uploaded file exists and
    its removal does not fail): the task raises; the run consists of
    exactly the PROCESSING write, the two first progress events, the error
    result, the ERROR write, a last progress event of stage [error] with
    percentage 0, and the removal of the file.  Afterwards the result slot
    holds the error result, with the message, the class name and the
    traceback of the exception, the stored status is [error], no answer was
    appended (the preview list is as it was, so empty for a fresh
    session), and the file is gone. *)
Theorem C6_zero_questions E sm sid path fmt lang w :
  path ∈ uploads w →
  parse_file E path fmt = inr [] →
  os_remove_error E path = None →
  let '(r, w', events) := process_question_paper E sm sid path fmt lang w in
  let e := no_questions_error in
  r = Raise e ∧
  events =
    [EvStatus sid PROCESSING;
     EvProgress (progress_event sid "initializing" 0 "Initializing processing" (clock w));
     EvProgress (progress_event sid "parsing" 5 "Parsing input file" (clock w));
     EvStoreResult sid (ResultError (exn_str e) (exn_type e) (format_exc E e));
     EvStatus sid ERROR;
     EvProgress (progress_event sid "error" 0 ("Processing failed: " +:+ exn_str e) (clock w));
     EvRemove path] ∧
  get_result (redis w') sid = Some (ResultError (exn_str e) (exn_type e) (format_exc E e)) ∧
  hget (redis w') (_get_session_key sid) "status" = Some (status_value ERROR) ∧
  stored_answers events = [] ∧
  get_answers (redis w') sid = get_answers (redis w) sid ∧
  (get_answers (redis w) sid = [] → get_answers (redis w') sid = []) ∧
  (path ∉ uploads w').
Proof.
  intros Hexists Hparse Hremove.
  destruct (try_block_zero E sm sid path fmt lang w Hexists Hparse)
    as (w1 & Htry & Hup1 & Hclock1 & Hans1).
  unfold process_question_paper, try_finally.
  rewrite (try_except_run_raise _ _ _ _ _ _ Htry), except_block_eq.
  rewrite finally_block_eq by (rewrite ?uploads_with_redis; by rewrite ?Hup1).
  cbn [redis uploads]. rewrite Hclock1.
  assert (Hans : get_answers
                   (redis (with_redis
                      (add_progress_event sm
                         (progress_event sid "error" 0
                            ("Processing failed: " +:+ exn_str no_questions_error) (clock w)))
                      (with_redis (update_session_status sm sid ERROR)
                         (with_redis (store_result sm sid (error_data E no_questions_error))
                            w1)))) sid
                 = get_answers (redis w) sid).
  { unfold get_answers, lrange_answers.
    rewrite answer_lists_with_redis_progress, redis_with_redis,
      answer_lists_update_session_status, redis_with_redis, answer_lists_store_result.
    by rewrite Hans1. }
  split; [reflexivity |]. split; [reflexivity |].
  split.
  { unfold get_result. rewrite redis_with_redis, values_add_progress_event,
      redis_with_redis, values_update_session_status, redis_with_redis.
    apply get_result_store_result. }
  split.
  { rewrite redis_with_redis, hget_add_progress_event_other by done.
    rewrite redis_with_redis. apply hget_update_session_status. }
  split; [reflexivity |]. split; [exact Hans |]. split; [by rewrite Hans |].
  rewrite !uploads_with_redis.
  apply not_elem_of_difference. right. by apply elem_of_singleton.
Qed.

(* ===================================================================== *)
(** ** The preview list and the answers stored *)
(* ===================================================================== *)

Lemma stored_answers_app ev1 ev2 :
  stored_answers (ev1 ++ ev2) = stored_answers ev1 ++ stored_answers ev2.
Proof. apply bind_app. Qed.

Lemma stored_under_app key ev1 ev2 :
  stored_under key (ev1 ++ ev2) = stored_under key ev1 ++ stored_under key ev2.
Proof. unfold stored_under. by rewrite stored_answers_app, bind_app. Qed.

Lemma stored_under_silent key events : stored_answers events = [] → stored_under key events = [].
Proof. unfold stored_under. by intros ->. Qed.

Lemma stored_under_session sid entries events :
  stored_answers events = pair sid <$> entries →
  stored_under (_get_answers_key sid) events = entries.
Proof.
  unfold stored_under. intros ->.
  induction entries as [| a entries IH]; [done |].
  cbn [fmap list_fmap mbind list_bind fst snd].
  rewrite bool_decide_eq_true_2 by done. cbn [app]. f_equal. exact IH.
Qed.

Lemma lrange_answers_store_answer sm now sid i q a d r key :
  lrange_answers (store_answer sm now sid i q a d r) key =
  lrange_answers r key ++
  (if bool_decide (_get_answers_key sid = key)
   then [{| ad_index := i; ad_question := q; ad_answer := a; ad_diagrams_count := d;
            ad_timestamp := now |}]
   else []).
Proof.
  unfold store_answer, lrange_answers. rewrite answer_lists_expire.
  unfold rpush_answer. cbn [answer_lists].
  case_bool_decide as Hkey.
  - subst key. by rewrite lookup_insert_eq.
  - rewrite lookup_insert_ne by done. by rewrite app_nil_r.
Qed.

Global Instance answers_logged_invariant : Invariant answers_logged.
Proof.
  split; unfold answers_logged.
  - intros w key. by rewrite app_nil_r.
  - intros w1 w2 w3 ev1 ev2 H1 H2 key.
    by rewrite H2, H1, stored_under_app, app_assoc.
Qed.

Global Instance answers_logged_external : ExternalLeaves answers_logged.
Proof.
  split; [split |..]; intros; intros w key; cbn [fst snd].
  - by rewrite app_nil_r.
  - by rewrite app_nil_r.
  - unfold call_add_progress_event, redis_do. cbn [fst snd].
    unfold lrange_answers. rewrite answer_lists_with_redis_progress. by rewrite app_nil_r.
  - by rewrite app_nil_r.
  - unfold save_pdf. destruct (backend_save _ _ _); by rewrite app_nil_r.
Qed.

Global Instance answers_logged_store_answer : StoreAnswerLeaf answers_logged.
Proof.
  intros sm sid i q a d w key.
  unfold call_store_answer, bind, utcnow, redis_do. cbn [fst snd].
  rewrite redis_with_redis, lrange_answers_store_answer.
  unfold stored_under. cbn [app stored_answers mbind list_bind stored_answer_of fst snd].
  by rewrite app_nil_r.
Qed.

Global Instance answers_logged_result : ResultLeaves answers_logged.
Proof.
  split; intros; intros w key; cbn [fst snd].
  - unfold call_store_result, redis_do. cbn [fst snd]. by rewrite app_nil_r.
  - unfold call_update_session_status, redis_do. cbn [fst snd].
    unfold lrange_answers.
    rewrite redis_with_redis, answer_lists_update_session_status. by rewrite app_nil_r.
Qed.

Lemma finally_block_answers_logged E path : respects answers_logged (finally_block E path).
Proof.
  intros w key.
  rewrite finally_block_redis, finally_block_events.
  repeat case_match; by rewrite app_nil_r.
Qed.

Lemma finally_block_stored_answers E path w :
  stored_answers (finally_block E path w).2 = [].
Proof. rewrite finally_block_events. by repeat case_match. Qed.

(** The whole task keeps the preview lists in step with the answers it
    stores. *)
Lemma process_answers_logged E sm sid path fmt lang :
  respects answers_logged (process_question_paper E sm sid path fmt lang).
Proof.
  unfold process_question_paper. apply respects_try_finally; [tc_solve | |].
  - apply respects_try_except_blocks; tc_solve.
  - apply finally_block_answers_logged.
Qed.

(* ===================================================================== *)
(** ** Step 3, question by question *)
(* ===================================================================== *)

Lemma is_blank_fallback s : is_blank ("Error generating answer: " +:+ s) = false.
Proof. reflexivity. Qed.

Lemma task_generator_callback sm sid R `{!Invariant R} `{!ExternalLeaves R} :
  callback_respects R (task_generator sm sid).
Proof.
  unfold callback_respects, task_generator; simpl. intros.
  by apply respects_answer_progress_callback.
Qed.

Section AnswerStep.
Variable E : Env.
Variable sm : SessionManager.
Variables sid lang : string.
Variable g : AnswerGenerator.
Hypothesis Hlang : lang ≠ "".
Hypothesis Hcallback : callback_respects (silent stored_answer_of) g.

(** One iteration of the loop of step 3 never raises.  It extends
    [answers] by one answer and appends exactly one preview, with the index
    [i - 1], the text of the question and the content of that answer; when
    the generation raised, the answer is the fallback answer, whose content
    carries the text of the exception, and the preview counts no diagram. *)
Lemma answer_step_run n answers i q w :
  let '(r, w', events) := answer_step E sm g sid lang n answers i q w in
  ∃ answer a,
    r = Ok (answers ++ [answer]) ∧
    stored_answers events = [(sid, a)] ∧
    ad_index a = i - 1 ∧ ad_question a = q_text q ∧ ad_answer a = content answer ∧
    match (generate_answer E g q lang (generation_start sm sid i n w)).1.1 with
    | Ok generated =>
        answer = generated ∧
        ad_diagrams_count a = Z.of_nat (length (visual_elements generated))
    | Raise e => answer = fallback_answer q lang e ∧ ad_diagrams_count a = 0
    end.
Proof.
  unfold answer_step.
  pose proof (respects_generate_answer (silent stored_answer_of) E g q lang Hcallback
                (generation_start sm sid i n w)) as Hsilent.
  unfold silent in Hsilent.
  destruct (generate_answer E g q lang (generation_start sm sid i n w))
    as [[[generated | e] w1] ev1] eqn:Hgen; cbn [fst snd] in Hsilent |- *;
    fold (stored_answers ev1) in Hsilent.
  - erewrite try_except_run_ok;
      [| erewrite bind_run_ok; [| apply emit_progress_eq];
         erewrite bind_run_ok; [| exact Hgen];
         unfold call_store_answer, utcnow;
         erewrite bind_run_ok; [| erewrite bind_run_ok; reflexivity];
         reflexivity].
    eexists _, _. split; [reflexivity |].
    split.
    { rewrite app_nil_r. change (?x :: ?l) with ([x] ++ l). rewrite !stored_answers_app.
      rewrite Hsilent. reflexivity. }
    by split_and!.
  - erewrite try_except_run_raise;
      [| erewrite bind_run_ok; [| apply emit_progress_eq];
         erewrite bind_run_raise; [| exact Hgen]; reflexivity].
    unfold Answer_new. rewrite is_blank_fallback, bool_decide_eq_false_2 by done.
    unfold lift, call_store_answer, utcnow.
    erewrite bind_run_ok; [| reflexivity].
    erewrite bind_run_ok; [| erewrite bind_run_ok; reflexivity].
    eexists _, _. split; [reflexivity |].
    split.
    { change (?x :: ?l) with ([x] ++ l). rewrite !stored_answers_app.
      rewrite Hsilent. reflexivity. }
    by split_and!.
Qed.

(** The loop of step 3 over the questions numbered from [start]: it never
    raises, it yields one answer per question, and it appends one preview per
    question, in order, with the indices [start - 1], [start], ... *)
Lemma answer_loop_run n questions : ∀ start answers w,
  let '(r, w', events) :=
    answer_loop E sm g sid lang n (py_enumerate start questions) answers w in
  ∃ new_answers entries,
    r = Ok (answers ++ new_answers) ∧
    length new_answers = length questions ∧
    stored_answers events = pair sid <$> entries ∧
    ad_index <$> entries = (fun k => start - 1 + Z.of_nat k) <$> seq 0 (length questions) ∧
    ad_question <$> entries = q_text <$> questions ∧
    ad_answer <$> entries = content <$> new_answers.
Proof.
  induction questions as [| q rest IH]; intros start answers w.
  - cbn. exists [], []. by rewrite app_nil_r.
  - cbn [py_enumerate answer_loop].
    pose proof (answer_step_run n answers start q w) as Hstep.
    unfold bind at 1.
    destruct (answer_step E sm g sid lang n answers start q w) as [[r w1] ev1].
    destruct Hstep as (answer & a & -> & Hstored & Hindex & Hquestion & Hanswer & _).
    specialize (IH (start + 1) (answers ++ [answer]) w1).
    destruct (answer_loop E sm g sid lang n (py_enumerate (start + 1) rest)
                (answers ++ [answer]) w1) as [[r w2] ev2].
    destruct IH as (new_answers & entries & -> & Hlen & Hstored2 & Hindex2 & Hq2 & Ha2).
    exists (answer :: new_answers), (a :: entries).
    split; [by rewrite <- app_assoc |]. split; [cbn [length]; by rewrite Hlen |].
    split; [by rewrite stored_answers_app, Hstored, Hstored2 |].
    cbn [length seq fmap list_fmap]. split_and!.
    + f_equal; [lia |]. change (list_fmap _ _ ad_index entries) with (ad_index <$> entries).
      rewrite Hindex2, <- seq_shift, <- list_fmap_compose.
      apply list_fmap_ext. intros _ k _. simpl. lia.
    + f_equal; [done | exact Hq2].
    + f_equal; [done | exact Ha2].
Qed.

(** Step 3 as a whole. *)
Lemma answers_step_run questions w :
  let '(r, w', events) := answers_step E sm g sid lang questions w in
  ∃ answers entries,
    r = Ok answers ∧
    length answers = length questions ∧
    stored_answers events = pair sid <$> entries ∧
    ad_index <$> entries = Z.of_nat <$> seq 0 (length questions) ∧
    ad_question <$> entries = q_text <$> questions ∧
    ad_answer <$> entries = content <$> answers.
Proof.
  unfold answers_step.
  erewrite bind_run_ok; [| apply emit_progress_eq].
  pose proof (answer_loop_run (Z.of_nat (length questions)) questions 1 []
                (with_redis
                   (add_progress_event sm
                      (progress_event sid "generating_answers" 25
                         ("Generating answers for " +:+
                          str_of_Z (Z.of_nat (length questions)) +:+ " questions")
                         (clock w))) w)) as Hloop.
  unfold bind at 1.
  destruct (answer_loop E sm g sid lang _ _ _ _) as [[r w1] ev1].
  destruct Hloop as (answers & entries & -> & Hlen & Hstored & Hindex & Hq & Ha).
  erewrite bind_run_ok; [| apply emit_progress_eq].
  exists answers, entries. split; [reflexivity |]. split; [exact Hlen |].
  split.
  { rewrite app_nil_r. change (?x :: ?l) with ([x] ++ l).
    rewrite !stored_answers_app, Hstored. cbn. by rewrite app_nil_r. }
  split; [| done].
  rewrite Hindex. apply list_fmap_ext. intros _ k _. lia.
Qed.

End AnswerStep.

(* ===================================================================== *)
(** ** Taking a successful run apart *)
(* ===================================================================== *)

Lemma bind_ok_inv {A B} (m : M A) (k : A → M B) w b w' ev :
  bind m k w = (Ok b, w', ev) →
  ∃ a w1 ev1 ev2, m w = (Ok a, w1, ev1) ∧ k a w1 = (Ok b, w', ev2) ∧ ev = ev1 ++ ev2.
Proof.
  unfold bind. destruct (m w) as [[[a | e] w1] ev1]; [| done].
  destruct (k a w1) as [[r w2] ev2] eqn:Hk. intros [= -> -> <-].
  by exists a, w1, ev1, ev2.
Qed.

Lemma try_except_ok_inv {A} (m : M A) handler w a w' ev :
  (∀ e w1, ∃ w2 ev2, handler e w1 = (Raise e, w2, ev2)) →
  try_except m handler w = (Ok a, w', ev) → m w = (Ok a, w', ev).
Proof.
  intros Hraise. unfold try_except, bind, catch, ret.
  destruct (m w) as [[[a' | e] w1] ev1].
  - rewrite app_nil_r. by intros [= -> -> ->].
  - destruct (Hraise e w1) as (w2 & ev2 & ->). done.
Qed.

Section SuccessfulRun.
Variable E : Env.
Variable sm : SessionManager.
Variables sid path fmt lang : string.

Lemma parse_input_file_ok_inv w questions w' ev :
  _parse_input_file E path fmt w = (Ok questions, w', ev) →
  parse_file E path fmt = inr questions.
Proof.
  unfold _parse_input_file, try_except, bind, catch, os_path_exists, lift, raise, ret.
  case_bool_decide; cbv beta iota.
  - destruct (parse_file E path fmt) as [e | qs]; cbv beta iota.
    + by destruct (isinstance e "ParseError").
    + by intros [= -> _ _].
  - by destruct (isinstance _ _).
Qed.

Lemma parse_step_ok_inv w questions w' ev :
  parse_step E sm sid path fmt w = (Ok questions, w', ev) →
  parse_file E path fmt = inr questions ∧ questions ≠ [].
Proof.
  unfold parse_step. intros H.
  apply bind_ok_inv in H as (? & w1 & ev1 & ev2 & _ & H & _).
  apply bind_ok_inv in H as (? & w2 & ev3 & ev4 & _ & H & _).
  apply bind_ok_inv in H as (qs & w3 & ev5 & ev6 & Hparse & H & _).
  apply parse_input_file_ok_inv in Hparse.
  case_bool_decide as Hempty; [done |].
  apply bind_ok_inv in H as (? & w4 & ev7 & ev8 & _ & H & _).
  unfold ret in H. injection H as -> _ _. done.
Qed.

Lemma services_step_ok_inv w g w' ev :
  services_step E sm sid w = (Ok g, w', ev) → g = task_generator sm sid.
Proof.
  unfold services_step, initialize_services. intros H.
  apply bind_ok_inv in H as (? & w1 & ev1 & ev2 & _ & H & _).
  destruct (pipeline_services E); [done |]. by injection H as <- _ _.
Qed.

(** A run of the steps that returns went through the six steps, and only
    step 3 appended previews: one per parsed question, in order. *)
Lemma run_steps_ok_inv w p w' ev :
  lang ≠ "" →
  run_steps E sm sid path fmt lang w = (Ok p, w', ev) →
  ∃ entries,
    parse_file E path fmt = inr (p_questions p) ∧ p_questions p ≠ [] ∧
    length (p_answers p) = length (p_questions p) ∧
    stored_answers ev = pair sid <$> entries ∧
    ad_index <$> entries = Z.of_nat <$> seq 0 (length (p_questions p)) ∧
    ad_question <$> entries = q_text <$> p_questions p ∧
    ad_answer <$> entries = content <$> p_answers p.
Proof.
  intros Hlang H. unfold run_steps in H.
  apply bind_ok_inv in H as (questions & w1 & ev1 & ev1' & Hparse & H & ->).
  apply bind_ok_inv in H as (g & w2 & ev2 & ev2' & Hserv & H & ->).
  apply bind_ok_inv in H as (answers & w3 & ev3 & ev3' & Hans & H & ->).
  apply bind_ok_inv in H as (diagrams & w4 & ev4 & ev4' & Hdia & H & ->).
  apply bind_ok_inv in H as (doc & w5 & ev5 & ev5' & Hpdf & H & ->).
  apply bind_ok_inv in H as (identifier & w6 & ev6 & ev6' & Hsto & H & ->).
  unfold ret in H. injection H as <- <- <-. cbn [p_questions p_answers].
  pose proof (respects_parse_step (silent stored_answer_of) E sm sid path fmt w) as S1.
  pose proof (respects_services_step (silent stored_answer_of) E sm sid w1) as S2.
  pose proof (respects_diagrams_step (silent stored_answer_of) E sm sid answers w3) as S4.
  pose proof (respects_pdf_step (silent stored_answer_of) E sm sid lang questions answers
                diagrams w4) as S5.
  pose proof (respects_storage_step (silent stored_answer_of) E sm sid doc w5) as S6.
  unfold silent in S1, S2, S4, S5, S6.
  rewrite Hparse in S1. rewrite Hserv in S2. rewrite Hdia in S4. rewrite Hpdf in S5.
  rewrite Hsto in S6. cbn [fst snd] in S1, S2, S4, S5, S6.
  apply services_step_ok_inv in Hserv as ->.
  pose proof (answers_step_run E sm sid lang (task_generator sm sid) Hlang
                (task_generator_callback sm sid (silent stored_answer_of)) questions w2)
    as Hstep.
  rewrite Hans in Hstep.
  destruct Hstep as (answers' & entries & [= <-] & Hlen & Hstored & Hindex & Hq & Ha).
  apply parse_step_ok_inv in Hparse as [Hparse Hne].
  exists entries. split_and!; try done.
  rewrite !stored_answers_app, Hstored.
  unfold stored_answers. rewrite S1, S2, S4, S5, S6. cbn. by rewrite app_nil_r.
Qed.

Lemma except_block_raises {A} e w :
  ∃ w2 ev2, except_block (A := A) E sm sid e w = (Raise e, w2, ev2).
Proof. rewrite except_block_eq. by eexists _, _. Qed.

(** A run of the task that returns. *)
Lemma process_ok_inv w result w' events :
  lang ≠ "" →
  process_question_paper E sm sid path fmt lang w = (Ok result, w', events) →
  ∃ questions entries identifier file pages diagrams,
    parse_file E path fmt = inr questions ∧ questions ≠ [] ∧
    result = ResultSuccess identifier file pages (Z.of_nat (length questions))
               (Z.of_nat (length questions)) diagrams ∧
    stored_answers events = pair sid <$> entries ∧
    ad_index <$> entries = Z.of_nat <$> seq 0 (length questions) ∧
    ad_question <$> entries = q_text <$> questions.
Proof.
  intros Hlang. unfold process_question_paper, try_finally.
  destruct (try_except _ _ w) as [[r w1] ev1] eqn:Htry.
  pose proof (finally_block_total E path w1) as Htotal.
  pose proof (finally_block_stored_answers E path w1) as Hclean.
  destruct (finally_block E path w1) as [[rc w2] ev2]. cbn [fst snd] in Htotal, Hclean.
  subst rc. intros [= -> <- <-].
  apply try_except_ok_inv in Htry; [| apply except_block_raises].
  unfold try_block in Htry.
  apply bind_ok_inv in Htry as ([] & w3 & ev3 & ev3' & Hstatus & H & ->).
  apply bind_ok_inv in H as (p & w4 & ev4 & ev4' & Hsteps & Hfin & ->).
  injection Hstatus as <- <-.
  apply (run_steps_ok_inv _ _ _ _ Hlang) in Hsteps
    as (entries & Hparse & Hne & Hlen & Hstored & Hindex & Hq & _).
  destruct (finalize_run sm sid p w4) as (w5 & result' & event & Hfin' & _).
  rewrite Hfin' in Hfin. injection Hfin as <- <- <-.
  unfold finalize, bind, call_store_result, call_update_session_status, redis_do in Hfin'.
  cbv beta iota in Hfin'. rewrite emit_progress_eq in Hfin'. unfold ret in Hfin'.
  injection Hfin' as <- _ _ _.
  eexists (p_questions p), entries, _, _, _, _.
  split; [exact Hparse |]. split; [exact Hne |].
  split; [rewrite Hlen; reflexivity |].
  split; [| done].
  rewrite !stored_answers_app, Hstored, Hclean. cbn. by rewrite !app_nil_r.
Qed.

End SuccessfulRun.

(** C2. With a non-empty target language (the upload endpoint admits none
    other) and for any behaviour of the collaborators.

    (1) An iteration of step 3 never raises: whether the generation
    returned or raised, exactly one preview is appended for the question,
    with index [i - 1], its text and the content of the answer kept for it.
    When the generation raised [e], for instance after the retries were
    exhausted, that answer is the fallback answer, whose content is
    ["Error generating answer: "] followed by the text of [e].

    (2) Step 3 as a whole never raises, so the task goes on to the later
    steps: it yields one answer per question and appends one preview per
    question, with the indices 0, 1, ..., n-1 in order.

    (3) For every run of the task that returns: the previews appended by
    the run are exactly as many as the parser found questions, their
    indices are 0, 1, ..., n-1, and the preview list of the session is the
    list it was before followed by them. *)
Theorem C2_fallback_and_previews E sm sid path fmt lang w :
  lang ≠ "" →
  (∀ n answers i q w0,
     let '(r, _, events) :=
       answer_step E sm (task_generator sm sid) sid lang n answers i q w0 in
     ∃ answer a,
       r = Ok (answers ++ [answer]) ∧
       stored_answers events = [(sid, a)] ∧
       ad_index a = i - 1 ∧ ad_question a = q_text q ∧ ad_answer a = content answer ∧
       match (generate_answer E (task_generator sm sid) q lang
                (generation_start sm sid i n w0)).1.1 with
       | Ok generated =>
           answer = generated ∧
           ad_diagrams_count a = Z.of_nat (length (visual_elements generated))
       | Raise e =>
           answer = fallback_answer q lang e ∧
           content answer = "Error generating answer: " +:+ exn_str e ∧
           ad_diagrams_count a = 0
       end) ∧
  (∀ questions w0,
     let '(r, _, events) :=
       answers_step E sm (task_generator sm sid) sid lang questions w0 in
     ∃ answers entries,
       r = Ok answers ∧
       length answers = length questions ∧
       stored_answers events = pair sid <$> entries ∧
       ad_index <$> entries = Z.of_nat <$> seq 0 (length questions) ∧
       ad_question <$> entries = q_text <$> questions ∧
       ad_answer <$> entries = content <$> answers) ∧
  let '(r, w', events) := process_question_paper E sm sid path fmt lang w in
  ∀ result, r = Ok result →
    ∃ questions entries,
      parse_file E path fmt = inr questions ∧
      stored_answers events = pair sid <$> entries ∧
      length entries = length questions ∧
      ad_index <$> entries = Z.of_nat <$> seq 0 (length questions) ∧
      get_answers (redis w') sid = get_answers (redis w) sid ++ entries.
Proof.
  intros Hlang.
  pose proof (task_generator_callback sm sid (silent stored_answer_of)) as Hcb.
  split; [| split].
  - intros n answers i q w0.
    pose proof (answer_step_run E sm sid lang _ Hlang Hcb n answers i q w0) as Hstep.
    destruct (answer_step _ _ _ _ _ _ _ _ _ _) as [[r w1] events].
    destruct Hstep as (answer & a & Hr & Hst & Hi & Hq & Ha & Hgen).
    exists answer, a. split_and!; try done.
    destruct (generate_answer _ _ _ _ _).1.1; [done |].
    destruct Hgen as [-> Hd]. by split_and!.
  - intros questions w0.
    apply (answers_step_run E sm sid lang _ Hlang Hcb questions w0).
  - pose proof (process_answers_logged E sm sid path fmt lang w) as Hlogged.
    destruct (process_question_paper E sm sid path fmt lang w) as [[r w'] events] eqn:Hrun.
    cbn [fst snd] in Hlogged. intros result ->.
    apply (process_ok_inv _ _ _ _ _ _ _ _ _ _ Hlang) in Hrun
      as (questions & entries & _ & _ & _ & _ & Hparse & _ & _ & Hstored & Hindex & _).
    exists questions, entries. split_and!; try done.
    + apply (f_equal length) in Hindex. by rewrite !length_fmap, length_seq in Hindex.
    + unfold get_answers. rewrite (Hlogged (_get_answers_key sid)).
      by rewrite (stored_under_session sid entries).
Qed.

Lemma demo_upload_exists : demo_upload ∈ uploads world_uploaded.
Proof. change (demo_upload ∈ ({[demo_upload]} : gset string)). by apply elem_of_singleton. Qed.

Lemma en_not_empty : "en" ≠ "".
Proof. done. Qed.

Lemma C2_fallback_and_previews_witness :
  "en" ≠ "" ∧
  ltac:(let t := type of (C2_fallback_and_previews
                            (env_flaky [question_1; question_2] [0; 1; 2]%nat)
                            SessionManager_new demo_session demo_upload "text" "en"
                            world_uploaded en_not_empty) in exact t).
Proof.
  split; [exact en_not_empty |].
  exact (C2_fallback_and_previews (env_flaky [question_1; question_2] [0; 1; 2]%nat)
           SessionManager_new demo_session demo_upload "text" "en" world_uploaded
           en_not_empty).
Defined.

(** Two questions, the first of which exhausts its three attempts: the run
    completes, with a fallback preview at index 0 and a real one at
    index 1. *)
Example fallback_run :
  let '(r, w', events) :=
    process_question_paper (env_flaky [question_1; question_2] [0; 1; 2]%nat)
      SessionManager_new demo_session demo_upload "text" "en" world_uploaded in
  r = Ok (ResultSuccess "pdf_3" "answers.pdf" 4 2 2 0) ∧
  (fun a => (ad_index a, ad_answer a)) <$> get_answers (redis w') demo_session =
  [(0, "Error generating answer: Failed to generate answer for question 'q1': Failed to generate answer after 3 attempts. Last error: provider timed out [Guidance: Please try again or contact support if the issue persists.] [Guidance: Please try again or contact support if the issue persists.]");
   (1, "An answer.")] ∧
  status_writes events = [PROCESSING; COMPLETE] ∧
  removed_paths events = [demo_upload].
Proof. vm_compute. by split_and!. Qed.

Lemma C6_zero_questions_witness :
  demo_upload ∈ uploads world_uploaded ∧
  parse_file (env_ok []) demo_upload "text" = inr [] ∧
  os_remove_error (env_ok []) demo_upload = None ∧
  ltac:(let t := type of (C6_zero_questions (env_ok []) SessionManager_new demo_session
                            demo_upload "text" "en" world_uploaded
                            demo_upload_exists eq_refl eq_refl) in exact t).
Proof.
  split; [exact demo_upload_exists |]. split; [reflexivity |]. split; [reflexivity |].
  exact (C6_zero_questions (env_ok []) SessionManager_new demo_session demo_upload "text"
           "en" world_uploaded demo_upload_exists eq_refl eq_refl).
Defined.

Lemma C7_upload_removed_once_witness :
  demo_upload ∈ uploads world_uploaded ∧
  os_remove_error (env_storage_down [question_1]) demo_upload = None ∧
  ltac:(let t := type of (C7_upload_removed_once (env_storage_down [question_1])
                            SessionManager_new demo_session demo_upload "text" "en"
                            world_uploaded demo_upload_exists eq_refl) in exact t).
Proof.
  split; [exact demo_upload_exists |]. split; [reflexivity |].
  exact (C7_upload_removed_once (env_storage_down [question_1]) SessionManager_new
           demo_session demo_upload "text" "en" world_uploaded demo_upload_exists eq_refl).
Defined.

(** The three exit paths at work: a run that returns, a run that returns
    with a fallback answer, a run that raises. *)
Example cleanup_on_every_path :
  removed_paths
    (process_question_paper (env_ok [question_1]) SessionManager_new demo_session
       demo_upload "text" "en" world_uploaded).2 = [demo_upload] ∧
  removed_paths
    (process_question_paper (env_flaky [question_1] [0; 1; 2]%nat) SessionManager_new
       demo_session demo_upload "text" "en" world_uploaded).2 = [demo_upload] ∧
  removed_paths
    (process_question_paper (env_storage_down [question_1]) SessionManager_new
       demo_session demo_upload "text" "en" world_uploaded).2 = [demo_upload].
Proof. vm_compute. by split_and!. Qed.

(* ===================================================================== *)
(** ** The progress percentages *)
(* ===================================================================== *)

(** The run on an upload holding one question, with every collaborator
    succeeding, returns and ends with the percentage 100, but its
    percentages fall from 60 back to 24: the callback of the answer
    generator maps each question's own progress onto the whole band from 20
    up, after the loop has already reported the share of the question
    between 25 and 60. *)
Example progress_of_one_question_run :
  let '(r, _, events) :=
    process_question_paper (env_ok [question_1]) SessionManager_new demo_session
      demo_upload "text" "en" world_uploaded in
  r = Ok (ResultSuccess "pdf_0" "answers.pdf" 3 1 1 0) ∧
  progress_values events =
    [0; 5; 15; 20; 25; 60; 24; 28; 36; 48; 56; 60; 60; 65; 75; 80; 90; 95; 100] ∧
  nondecreasing (progress_values events) = false ∧
  last (progress_values events) = Some 100.
Proof. vm_compute. by split_and!. Qed.

(** The callback records exactly one event, whose percentage is
    [overall_progress] of the local percentage. *)
Lemma answer_progress_callback_run sm sid stage progress message w :
  answer_progress_callback sm sid stage progress message w =
  (Ok tt,
   with_redis (add_progress_event sm
                 (progress_event sid stage (overall_progress progress) message (clock w))) w,
   [EvProgress (progress_event sid stage (overall_progress progress) message (clock w))]).
Proof. reflexivity. Qed.

Lemma overall_progress_table :
  forallb (fun k => overall_progress (Z.of_nat k) =? 20 + Z.of_nat k * 40 / 100)
    (seq 0 101) = true.
Proof. vm_compute. reflexivity. Qed.

(** On 0..100 the floating-point computation of the callback is the
    integer division that drops the fraction. *)
Lemma overall_progress_floor local :
  0 ≤ local ≤ 100 → overall_progress local = 20 + local * 40 / 100.
Proof.
  intros Hrange.
  pose proof overall_progress_table as Htable.
  rewrite forallb_forall in Htable.
  specialize (Htable (Z.to_nat local)).
  rewrite Z2Nat.id in Htable by lia.
  apply Z.eqb_eq, Htable, in_seq. lia.
Qed.

(** C4, as amended.  For every local percentage from 0 to 100, the event
    the progress callback appends carries the percentage
    [20 + floor(local * 40 / 100)]: the fraction is dropped, not rounded.
    The percentage lies between 20 and 60 and is never above the rounded
    value of the specification, from which it differs by at most one. *)
Theorem C4_remap_truncates sm sid stage local message w :
  0 ≤ local ≤ 100 →
  let '(r, w', events) := answer_progress_callback sm sid stage local message w in
  r = Ok tt ∧
  events = [EvProgress (progress_event sid stage (20 + local * (60 - 20) / 100) message
                          (clock w))] ∧
  get_progress_events (redis w') sid =
    get_progress_events (redis w) sid ++
    [progress_event sid stage (20 + local * (60 - 20) / 100) message (clock w)] ∧
  20 ≤ 20 + local * (60 - 20) / 100 ≤ 60 ∧
  20 + local * (60 - 20) / 100 ≤ spec_global 20 60 local ≤ 20 + local * (60 - 20) / 100 + 1.
Proof.
  intros Hrange. rewrite answer_progress_callback_run.
  rewrite (overall_progress_floor local Hrange).
  change (60 - 20) with 40.
  split; [reflexivity |]. split; [reflexivity |]. split.
  { rewrite redis_with_redis. unfold get_progress_events, lrange_events, add_progress_event.
    rewrite event_lists_expire.
    change (event_lists (hset ?k ?f ?v ?r)) with (event_lists r).
    change (event_lists (hset ?k ?f ?v ?r)) with (event_lists r).
    rewrite event_lists_expire. unfold rpush_event. cbn [event_lists pe_session_id progress_event].
    by rewrite lookup_insert_eq. }
  split.
  { split; [| apply Z.le_add_le_sub_l; apply Z.div_le_upper_bound; lia].
    assert (0 ≤ local * 40 / 100) by (apply Z.div_pos; lia). lia. }
  unfold spec_global, round_nearest.
  replace (local * (60 - 20)) with (local * 40) by lia.
  repeat case_match; lia.
Qed.

Lemma C4_remap_truncates_witness :
  0 ≤ 2 ≤ 100 ∧
  ltac:(let t := type of (C4_remap_truncates SessionManager_new demo_session
                            "knowledge_search" 2 "Searching" world_uploaded
                            (conj (Zle_bool_imp_le 0 2 eq_refl) (Zle_bool_imp_le 2 100 eq_refl)))
        in exact t).
Proof.
  split; [lia |].
  exact (C4_remap_truncates SessionManager_new demo_session "knowledge_search" 2 "Searching"
           world_uploaded
           (conj (Zle_bool_imp_le 0 2 eq_refl) (Zle_bool_imp_le 2 100 eq_refl))).
Defined.

(** C4 as stated fails at the local percentage 2: the callback records 20,
    where the formula with [round] gives 21. *)
Lemma C4_counterexample :
  progress_values
    (answer_progress_callback SessionManager_new demo_session "knowledge_search" 2
       "Searching" world_uploaded).2 = [20] ∧
  spec_global 20 60 2 = 21 ∧
  20 + py_int (py_fmul (py_truediv 2 100) (60 - 20)) ≠ spec_global 20 60 2.
Proof. vm_compute. split_and!; try reflexivity. discriminate. Qed.

(* ===================================================================== *)
(** ** The latest-progress projection *)
(* ===================================================================== *)

Lemma session_key_inj a b : _get_session_key a = _get_session_key b → a = b.
Proof. unfold _get_session_key. intros H. by simplify_eq/=. Qed.

Lemma progress_key_not_session_key a b : _get_progress_key a ≠ _get_session_key b.
Proof. unfold _get_progress_key, _get_session_key. cbn. discriminate. Qed.

Lemma result_key_not_session_key a b : _get_result_key a ≠ _get_session_key b.
Proof. unfold _get_result_key, _get_session_key. cbn. discriminate. Qed.

Lemma hget_del_ne key r k f : key ≠ k → hget (del key r) k f = hget r k f.
Proof. intros Hne. unfold hget, del. cbn [hashes]. by rewrite lookup_delete_ne. Qed.

Lemma hget_rpush_event key e r k f : hget (rpush_event key e r) k f = hget r k f.
Proof. reflexivity. Qed.

Lemma hget_rpush_answer key a r k f : hget (rpush_answer key a r) k f = hget r k f.
Proof. reflexivity. Qed.

Lemma hget_set_ex key v seconds r k f : hget (set_ex key v seconds r) k f = hget r k f.
Proof. reflexivity. Qed.

Lemma hashes_lset_answer key i a r : hashes (lset_answer key i a r) = hashes r.
Proof. reflexivity. Qed.

Lemma hashes_update_answer_scan now key k text entries r :
  hashes (update_answer_scan now key k text entries r) = hashes r.
Proof.
  induction entries as [| [i a] rest IH]; [done |].
  cbn [update_answer_scan]. by case_bool_decide.
Qed.

Lemma hashes_update_answer now sid k text r : hashes (update_answer now sid k text r) = hashes r.
Proof. unfold update_answer. apply hashes_update_answer_scan. Qed.

Lemma hget_update_answer now sid k text r key f :
  hget (update_answer now sid k text r) key f = hget r key f.
Proof. unfold hget. by rewrite hashes_update_answer. Qed.

(** What [create_session] leaves in a field of a session hash. *)
Lemma hget_create_session sm uuid now session_id language metadata r k f :
  hget (create_session sm uuid now session_id language metadata r).2 k f =
  if bool_decide (k = _get_session_key (default uuid session_id)) then
    if bool_decide (f = "session_id") then Some (default uuid session_id)
    else if bool_decide (f = "status") then Some (status_value PENDING)
    else if bool_decide (f = "language") then Some language
    else if bool_decide (f = "created_at") then Some (isoformat now)
    else if bool_decide (f = "metadata") then Some (default "{}" metadata)
    else hget r k f
  else hget r k f.
Proof.
  unfold create_session. cbn [snd]. rewrite hget_expire.
  unfold hset_mapping. cbn [foldl fst snd].
  case_bool_decide as Hk.
  - subst k.
    repeat (case_bool_decide;
            [subst f; rewrite ?hget_hset_ne by (right; done); by rewrite hget_hset_eq |]).
    by rewrite !hget_hset_ne by (right; congruence).
  - by rewrite !hget_hset_ne by (left; done).
Qed.

Section LatestProgress.
Variable sm : SessionManager.
Variable sid : string.

Lemma created_without_progress_step op r :
  appends_progress_or_deletes sid op = false →
  created_without_progress sid r → created_without_progress sid (run_op sm op r).
Proof.
  unfold created_without_progress. intros Hop [Hprogress Hid].
  destruct op as [uuid now session_id language metadata | s status | s language | event
                  | s result | s | now s i q a d | now s i text];
    cbn [run_op appends_progress_or_deletes] in *.
  - rewrite !hget_create_session. case_bool_decide as Hk; [| done].
    apply session_key_inj in Hk. rewrite <- Hk.
    rewrite bool_decide_eq_false_2, bool_decide_eq_false_2, bool_decide_eq_false_2,
      bool_decide_eq_false_2, bool_decide_eq_false_2 by done.
    by rewrite bool_decide_eq_true_2.
  - unfold update_session_status.
    by rewrite !hget_expire, !hget_hset_ne by (right; done).
  - unfold set_language_preference.
    by rewrite !hget_expire, !hget_hset_ne by (right; done).
  - apply bool_decide_eq_false in Hop.
    assert (_get_session_key (pe_session_id event) ≠ _get_session_key sid)
      by (intros Heq; by apply session_key_inj in Heq).
    unfold add_progress_event.
    by rewrite !hget_expire, !hget_hset_ne, !hget_expire, !hget_rpush_event by (left; done).
  - unfold store_result. by rewrite !hget_set_ex.
  - apply bool_decide_eq_false in Hop.
    assert (_get_session_key s ≠ _get_session_key sid)
      by (intros Heq; by apply session_key_inj in Heq).
    unfold delete_session.
    by rewrite !hget_del_ne
      by first [done | apply result_key_not_session_key | apply progress_key_not_session_key].
  - unfold store_answer. by rewrite !hget_expire, !hget_rpush_answer.
  - by rewrite !hget_update_answer.
Qed.

Lemma created_without_progress_run ops : ∀ r,
  forallb (fun op => negb (appends_progress_or_deletes sid op)) ops = true →
  created_without_progress sid r → created_without_progress sid (run_ops sm ops r).
Proof.
  induction ops as [| op ops IH]; intros r Hops Hr; [done |].
  cbn [forallb] in Hops. apply andb_prop in Hops as [Hop Hops].
  apply negb_true_iff in Hop.
  cbn [run_ops foldl]. apply IH; [done |]. by apply created_without_progress_step.
Qed.

Lemma get_latest_progress_none r :
  hget r (_get_session_key sid) "progress" = None → get_latest_progress r sid = None.
Proof. unfold get_latest_progress. by intros ->. Qed.

Lemma get_session_some r f v :
  hget r (_get_session_key sid) f = Some v →
  ∃ session, get_session r sid = Some session ∧ session !! f = Some v.
Proof.
  unfold hget, get_session, hgetall.
  destruct (hashes r !! _get_session_key sid) as [h |]; [| done].
  cbn. intros Hf. exists h. split; [| done].
  rewrite bool_decide_eq_false_2; [done |]. intros ->. by rewrite lookup_empty in Hf.
Qed.

Lemma get_session_none_latest r :
  get_session r sid = None → get_latest_progress r sid = None.
Proof.
  unfold get_session, hgetall. case_bool_decide as Hempty; [| done]. intros _.
  apply get_latest_progress_none. unfold hget.
  destruct (hashes r !! _get_session_key sid) as [h |]; [| done].
  cbn in *. subst h. apply lookup_empty.
Qed.

End LatestProgress.

(** C9. A session is created, under an identifier no progress event was
    ever appended to, and any calls of the session manager follow, none of
    which appends a progress event to the session or deletes it.  Then
    [get_latest_progress] returns [None] although [get_session] returns
    the record of the session, with its identifier (and, right after the
    creation, with the status [pending]).  [get_latest_progress] returns
    [None] for every session [get_session] does not find either, so its
    answer does not tell the two apart. *)
Theorem C9_latest_progress_absent sm uuid now session_id language metadata ops r :
  let sid := default uuid session_id in
  hget r (_get_session_key sid) "progress" = None →
  forallb (fun op => negb (appends_progress_or_deletes sid op)) ops = true →
  let created := (create_session sm uuid now session_id language metadata r).2 in
  let r' := run_ops sm ops created in
  (create_session sm uuid now session_id language metadata r).1 = sid ∧
  get_latest_progress r' sid = None ∧
  (∃ session, get_session r' sid = Some session ∧ session !! "session_id" = Some sid) ∧
  (∃ session, get_session created sid = Some session ∧
              session !! "status" = Some (status_value PENDING)) ∧
  get_latest_progress created sid = None ∧
  (∀ r0 other, get_session r0 other = None →
               get_latest_progress r0 other = None ∧
               get_latest_progress r0 other = get_latest_progress r' sid).
Proof.
  intros sid Hfresh Hops created r'.
  assert (Hcreated : created_without_progress sid created).
  { unfold created_without_progress, created. rewrite !hget_create_session.
    fold sid. rewrite !bool_decide_eq_true_2 by done.
    rewrite bool_decide_eq_false_2, bool_decide_eq_false_2, bool_decide_eq_false_2,
      bool_decide_eq_false_2, bool_decide_eq_false_2 by done. done. }
  pose proof (created_without_progress_run sm sid ops created Hops Hcreated) as [Hp Hid].
  fold r' in Hp, Hid.
  split; [reflexivity |].
  split; [by apply get_latest_progress_none |].
  split; [by apply get_session_some |].
  split.
  { apply get_session_some. unfold created. rewrite hget_create_session. fold sid.
    rewrite bool_decide_eq_true_2 by done.
    by rewrite bool_decide_eq_false_2, bool_decide_eq_true_2 by done. }
  split; [apply get_latest_progress_none; apply Hcreated |].
  intros r0 other Hnone.
  rewrite (get_latest_progress_none sid r' Hp).
  split; by apply get_session_none_latest.
Qed.

(* ===================================================================== *)
(** ** [update_answer] and the regeneration endpoint *)
(* ===================================================================== *)

Lemma previews_frame_refl k l : previews_frame k l l.
Proof. split; [done |]. intros j a Hj. exists a. by repeat split. Qed.

Lemma previews_frame_trans k l1 l2 l3 :
  previews_frame k l1 l2 → previews_frame k l2 l3 → previews_frame k l1 l3.
Proof.
  intros [Hlen1 H1] [Hlen2 H2]. split; [congruence |].
  intros j a Hj.
  destruct (H1 j a Hj) as (a' & Hj' & (Hi & Hq & Hd) & Hsame).
  destruct (H2 j a' Hj') as (a'' & Hj'' & (Hi' & Hq' & Hd') & Hsame').
  exists a''. split; [done |]. split; [repeat split; congruence |].
  intros Hk. rewrite Hsame' by congruence. by apply Hsame.
Qed.

Lemma previews_frame_insert k l i a text now :
  l !! i = Some a → ad_index a = k →
  previews_frame k l (<[i := with_answer a text now]> l).
Proof.
  intros Hi Hk. split; [apply length_insert |].
  intros j b Hj. destruct (decide (j = i)) as [-> | Hne].
  - rewrite Hi in Hj. injection Hj as <-.
    exists (with_answer a text now). split.
    + apply list_lookup_insert_eq. by eapply lookup_lt_Some.
    + by repeat split.
  - exists b. rewrite list_lookup_insert_ne by done. by repeat split.
Qed.


Global Instance regeneration_frame_invariant sid k : Invariant (regeneration_frame sid k).
Proof.
  split; unfold regeneration_frame.
  - intros w. split_and!; try done. apply previews_frame_refl.
  - intros w1 w2 w3 _ _ (H1 & H2 & H3 & H4 & H5 & H6 & H7 & H8)
      (K1 & K2 & K3 & K4 & K5 & K6 & K7 & K8).
    split_and!; try congruence.
    + intros key Hkey. by rewrite K7, H7.
    + by eapply previews_frame_trans.
Qed.

Global Instance regeneration_frame_generation sid k : GenerationLeaves (regeneration_frame sid k).
Proof.
  split; intros; intros w; unfold regeneration_frame; cbn [fst snd];
    split_and!; try done; apply previews_frame_refl.
Qed.

(** The scan of [update_answer] either finds no entry with the index and
    changes nothing, or rewrites one entry that carries the index. *)
Lemma update_answer_scan_cases now key k text entries r :
  (Forall (fun ia => ad_index ia.2 ≠ k) entries ∧
   update_answer_scan now key k text entries r = r) ∨
  (∃ i a, (i, a) ∈ entries ∧ ad_index a = k ∧
          update_answer_scan now key k text entries r =
          lset_answer key i (with_answer a text now) r).
Proof.
  induction entries as [| [i a] rest IH]; [by left |].
  cbn [update_answer_scan]. case_bool_decide as Hk.
  - right. exists i, a. split; [apply list_elem_of_here | done].
  - destruct IH as [[Hrest ->] | (j & b & Hin & Hb & ->)].
    + left. split; [| done]. by constructor.
    + right. exists j, b. split; [by apply list_elem_of_further | done].
Qed.

Lemma elem_of_imap_pair (l : list AnswerData) i a :
  (i, a) ∈ imap (fun i a => (i, a)) l → l !! i = Some a.
Proof.
  intros Hin. apply elem_of_lookup_imap_1 in Hin as (j & b & [= -> ->] & Hj). exact Hj.
Qed.

(** [update_answer], in full: nothing happens when no preview of the
    session carries the index; otherwise one preview that carries it has
    its answer text and timestamp replaced. *)
Lemma update_answer_cases now sid k text r :
  (Forall (fun a => ad_index a ≠ k) (get_answers r sid) ∧
   update_answer now sid k text r = r) ∨
  (∃ i a, get_answers r sid !! i = Some a ∧ ad_index a = k ∧
          update_answer now sid k text r =
          lset_answer (_get_answers_key sid) i (with_answer a text now) r).
Proof.
  unfold update_answer, get_answers.
  destruct (update_answer_scan_cases now (_get_answers_key sid) k text
              (imap (fun i a => (i, a)) (lrange_answers r (_get_answers_key sid))) r)
    as [[Hnone Heq] | (i & a & Hin & Hk & Heq)].
  - left. split; [| done]. apply Forall_forall.
    intros a Ha. apply list_elem_of_lookup in Ha as [i Hi].
    apply (proj1 (Forall_forall _ _) Hnone (i, a)).
    apply elem_of_lookup_imap. by exists i, a.
  - right. exists i, a. split; [by apply elem_of_imap_pair | done].
Qed.

Lemma lrange_answers_lset_answer key i a r key' :
  lrange_answers (lset_answer key i a r) key' =
  if bool_decide (key = key') then <[i := a]> (lrange_answers r key)
  else lrange_answers r key'.
Proof.
  unfold lrange_answers, lset_answer. cbn [answer_lists].
  case_bool_decide as Hkey.
  - subst key'. by rewrite lookup_insert_eq.
  - by rewrite lookup_insert_ne.
Qed.

(** The frame of [update_answer] on the Redis database. *)
Lemma update_answer_frame now sid k text r :
  hashes (update_answer now sid k text r) = hashes r ∧
  event_lists (update_answer now sid k text r) = event_lists r ∧
  values (update_answer now sid k text r) = values r ∧
  ttls (update_answer now sid k text r) = ttls r ∧
  (∀ key, key ≠ _get_answers_key sid →
          lrange_answers (update_answer now sid k text r) key = lrange_answers r key) ∧
  previews_frame k (get_answers r sid) (get_answers (update_answer now sid k text r) sid).
Proof.
  destruct (update_answer_cases now sid k text r)
    as [[_ ->] | (i & a & Hi & Hk & ->)].
  - split_and!; try done. apply previews_frame_refl.
  - split_and!; try done.
    + intros key Hkey. rewrite lrange_answers_lset_answer.
      by rewrite bool_decide_eq_false_2 by done.
    + unfold get_answers. rewrite lrange_answers_lset_answer, bool_decide_eq_true_2 by done.
      by apply previews_frame_insert.
Qed.

Lemma regeneration_frame_update_answer sid k text :
  respects (regeneration_frame sid k) (call_update_answer sid k text).
Proof.
  intros w. unfold call_update_answer, bind, utcnow, redis_do. cbn [fst snd].
  unfold regeneration_frame. rewrite redis_with_redis.
  destruct (update_answer_frame (clock w) sid k text (redis w))
    as (H1 & H2 & H3 & H4 & H5 & H6).
  by split_and!.
Qed.

(** The endpoint as a whole respects the frame, along every path through
    it. *)
Lemma regenerate_answer_frame E sid k change :
  respects (regeneration_frame sid k) (regenerate_answer E sid k change).
Proof.
  pose proof (regeneration_frame_update_answer sid k) as Hupdate.
  assert (Hgen : ∀ q l, respects (regeneration_frame sid k)
                          (generate_answer E (AnswerGenerator_new None None) q l)).
  { intros q l. apply respects_generate_answer; [tc_solve | tc_solve | done]. }
  unfold regenerate_answer, regenerate_found, call_get_session, call_get_answers.
  respects_auto.
Qed.

Lemma answers_key_inj a b : _get_answers_key a = _get_answers_key b → a = b.
Proof. unfold _get_answers_key. intros H. by simplify_eq/=. Qed.

(** On previews as the task writes them, [update_answer] for a position
    within the list rewrites the entry at that position. *)
Lemma update_answer_position_indexed now sid k text r :
  position_indexed (get_answers r sid) →
  0 ≤ k < Z.of_nat (length (get_answers r sid)) →
  ∃ a, get_answers r sid !! Z.to_nat k = Some a ∧
       get_answers (update_answer now sid k text r) sid =
       <[Z.to_nat k := with_answer a text now]> (get_answers r sid).
Proof.
  intros Hpos Hk.
  destruct (lookup_lt_is_Some_2 (get_answers r sid) (Z.to_nat k)) as [a Ha]; [lia |].
  destruct (update_answer_cases now sid k text r)
    as [[Hnone _] | (i & b & Hi & Hb & ->)].
  - rewrite Forall_forall in Hnone. destruct (Hnone a); [by eapply list_elem_of_lookup_2 |].
    rewrite (Hpos _ _ Ha). lia.
  - assert (i = Z.to_nat k) as -> by (rewrite <- Hb, (Hpos _ _ Hi); lia).
    exists b. split; [done |].
    unfold get_answers. by rewrite lrange_answers_lset_answer, bool_decide_eq_true_2.
Qed.

(** C8, as amended.  For every session, every index [k] (valid or not)
    and every behaviour of the collaborators, the regeneration endpoint
    leaves alone the session hash (the status among its fields), the
    progress log, the result, the stored PDFs, the uploads and the
    previews of every other session; in the previews of the session itself
    the list keeps its length, every entry keeps its index, question and
    diagram count, and every entry whose index is not [k] is unchanged in
    all its fields.  The same frame holds of [update_answer] called on its
    own, the one write of the sub-flow: each entry is left as it was or,
    if it carries the index [k], has its answer text replaced by the new
    text and its timestamp by the time of the update, and nothing else;
    on previews as the task writes them it rewrites, for a valid [k],
    exactly these two fields of the entry at position [k]. *)
Theorem C8_regeneration_frame E sid k change w :
  let '(r, w', events) := regenerate_answer E sid k change w in
  regeneration_frame sid k w w' events ∧
  hget (redis w') (_get_session_key sid) "status"
  = hget (redis w) (_get_session_key sid) "status" ∧
  get_progress_events (redis w') sid = get_progress_events (redis w) sid ∧
  get_result (redis w') sid = get_result (redis w) sid ∧
  pdfs w' = pdfs w ∧
  (∀ other, other ≠ sid → get_answers (redis w') other = get_answers (redis w) other) ∧
  length (get_answers (redis w') sid) = length (get_answers (redis w) sid) ∧
  (∀ j a, get_answers (redis w) sid !! j = Some a → ad_index a ≠ k →
          get_answers (redis w') sid !! j = Some a) ∧
  (∀ j a, get_answers (redis w) sid !! j = Some a →
          ∃ a', get_answers (redis w') sid !! j = Some a' ∧
                a' = with_answer a (ad_answer a') (ad_timestamp a')) ∧
  (∀ now text r0,
     let r1 := update_answer now sid k text r0 in
     hashes r1 = hashes r0 ∧ event_lists r1 = event_lists r0 ∧ values r1 = values r0 ∧
     ttls r1 = ttls r0 ∧
     (∀ other, other ≠ sid → get_answers r1 other = get_answers r0 other) ∧
     previews_frame k (get_answers r0 sid) (get_answers r1 sid) ∧
     (∀ j a, get_answers r0 sid !! j = Some a →
             get_answers r1 sid !! j = Some a ∨
             (ad_index a = k ∧ get_answers r1 sid !! j = Some (with_answer a text now))) ∧
     (position_indexed (get_answers r0 sid) →
      0 ≤ k < Z.of_nat (length (get_answers r0 sid)) →
      ∃ a, get_answers r0 sid !! Z.to_nat k = Some a ∧
           get_answers r1 sid = <[Z.to_nat k := with_answer a text now]> (get_answers r0 sid))).
Proof.
  pose proof (regenerate_answer_frame E sid k change w) as Hframe.
  destruct (regenerate_answer E sid k change w) as [[r w'] events]. cbn [fst snd] in Hframe.
  split; [exact Hframe |].
  destruct Hframe as (H1 & H2 & H3 & H4 & H5 & H6 & H7 & Hlen & H8).
  split; [unfold hget; by rewrite H1 |].
  split; [unfold get_progress_events, lrange_events; by rewrite H2 |].
  split; [unfold get_result; by rewrite H3 |].
  split; [exact H5 |].
  split.
  { intros other Hother. apply H7. intros Heq. by apply answers_key_inj in Heq. }
  split; [exact Hlen |].
  split.
  { intros j a Hj Hk. destruct (H8 j a Hj) as (a' & Hj' & _ & Hsame).
    by rewrite Hj', Hsame. }
  split.
  { intros j a Hj. destruct (H8 j a Hj) as (a' & Hj' & (Hi & Hq & Hd) & _).
    exists a'. split; [exact Hj' |]. unfold with_answer. rewrite <- Hi, <- Hq, <- Hd.
    by destruct a'. }
  intros now text r0 r1.
  destruct (update_answer_frame now sid k text r0) as (K1 & K2 & K3 & K4 & K5 & K6).
  split; [exact K1 |]. split; [exact K2 |]. split; [exact K3 |]. split; [exact K4 |].
  split.
  { intros other Hother. apply K5. intros Heq. by apply answers_key_inj in Heq. }
  split; [exact K6 |].
  split; [| apply update_answer_position_indexed].
  intros j a Hj. subst r1.
  destruct (update_answer_cases now sid k text r0) as [[_ ->] | (i & b & Hi & Hb & ->)];
    [by left |].
  unfold get_answers in *. rewrite lrange_answers_lset_answer, bool_decide_eq_true_2 by done.
  destruct (decide (i = j)) as [-> | Hij].
  - right. rewrite Hi in Hj. injection Hj as ->. split; [exact Hb |].
    apply list_lookup_insert_eq. by eapply lookup_lt_Some.
  - left. by rewrite list_lookup_insert_ne.
Qed.

(** C8 as stated fails on the previews of a finished run, at the valid
    index 0: [update_answer] replaces the answer text of the entry and its
    timestamp as well, here 0 by 7. *)
Lemma C8_counterexample :
  let r0 := redis world_answered in
  let r1 := update_answer 7 demo_session 0 "A simpler answer." r0 in
  (fun a => (ad_index a, ad_question a, ad_answer a, ad_timestamp a))
    <$> get_answers r0 demo_session
  = [(0, "What is a stack?", "An answer.", 0)] ∧
  (fun a => (ad_index a, ad_question a, ad_answer a, ad_timestamp a))
    <$> get_answers r1 demo_session
  = [(0, "What is a stack?", "A simpler answer.", 7)] ∧
  ad_timestamp <$> get_answers r1 demo_session ≠ ad_timestamp <$> get_answers r0 demo_session.
Proof. vm_compute. split_and!; try reflexivity. discriminate. Qed.

(* --------------------------------------------------------------------- *)

Lemma returns_ret {A} (P : A → Prop) a : P a → returns P (ret a).
Proof. intros HP w a' w' ev [= <- _ _]. exact HP. Qed.

Lemma returns_raise {A} (P : A → Prop) e : returns P (raise e).
Proof. intros w a w' ev. discriminate. Qed.

Lemma returns_bind {A B} (P : B → Prop) (m : M A) (k : A → M B) :
  (∀ a, returns P (k a)) → returns P (bind m k).
Proof.
  intros Hk w b w' ev Hrun.
  apply bind_ok_inv in Hrun as (a & w1 & ev1 & ev2 & _ & Hrun & _).
  by eapply Hk.
Qed.

Lemma returns_try_except {A} (P : A → Prop) (m : M A) handler :
  returns P m → (∀ e, returns P (handler e)) → returns P (try_except m handler).
Proof.
  intros Hm Hh w a w' ev. unfold try_except, bind, catch.
  destruct (m w) as [[[a' | e] w1] ev1] eqn:Hrun.
  - unfold ret. intros [= <- _ _]. by eapply Hm.
  - destruct (handler e w1) as [[r w2] ev2] eqn:Hhandler. intros [= -> _ _].
    by eapply Hh.
Qed.

Lemma try_except_total {A} (m : M A) handler :
  (∀ e w, ∃ a, (handler e w).1.1 = Ok a) → total (try_except m handler).
Proof.
  intros Hh w. unfold try_except, bind, catch.
  destruct (m w) as [[[a | e] w1] ev1]; cbn [fst snd].
  - by exists a.
  - destruct (Hh e w1) as [a Ha]. exists a.
    destruct (handler e w1) as [[r w2] ev2]. exact Ha.
Qed.


Section NegativeIndex.
Variable E : Env.
Variable sid : string.
Variable idx : Z.
Variable change : string.
Hypothesis Hneg : idx < 0.


Lemma regenerate_answer_total w : ∃ response, (regenerate_answer E sid idx change w).1.1 = Ok response.
Proof. unfold regenerate_answer. apply try_except_total. intros e w1. by eexists. Qed.


End NegativeIndex.




(** [update_answer] at work on the previews of a finished run. *)
Example update_answer_rewrites_entry :
  (fun a => (ad_index a, ad_question a, ad_answer a, ad_timestamp a)) <$>
    get_answers (update_answer 7 demo_session 0 "A simpler answer." (redis world_answered))
      demo_session
  = [(0, "What is a stack?", "A simpler answer.", 7)] ∧
  (fun a => (ad_index a, ad_question a, ad_answer a, ad_timestamp a)) <$>
    get_answers (redis world_answered) demo_session
  = [(0, "What is a stack?", "An answer.", 0)].
Proof. vm_compute. by split. Qed.

Lemma C9_latest_progress_absent_witness :
  hget redis_empty (_get_session_key demo_session) "progress" = None ∧
  forallb (fun op => negb (appends_progress_or_deletes demo_session op))
    [OpUpdateSessionStatus demo_session PROCESSING;
     OpStoreAnswer 0 demo_session 0 "What is a stack?" "An answer." 0] = true ∧
  ltac:(let t := type of (C9_latest_progress_absent SessionManager_new "" 0
                            (Some demo_session) "en" None
                            [OpUpdateSessionStatus demo_session PROCESSING;
                             OpStoreAnswer 0 demo_session 0 "What is a stack?" "An answer." 0]
                            redis_empty eq_refl eq_refl) in exact t).
Proof.
  split; [reflexivity |]. split; [reflexivity |].
  exact (C9_latest_progress_absent SessionManager_new "" 0 (Some demo_session) "en" None
           [OpUpdateSessionStatus demo_session PROCESSING;
            OpStoreAnswer 0 demo_session 0 "What is a stack?" "An answer." 0]
           redis_empty eq_refl eq_refl).
Defined.




(** The constructor call of the endpoint passes keywords that [Question]
    does not declare. *)
Lemma Question_new_rejects_marks i t m d :
  Question_new [("id", i); ("text", t); ("marks", m); ("difficulty", d)] =
  inl (Exn "TypeError" "Question.__init__() got an unexpected keyword argument 'marks'").
Proof. reflexivity. Qed.

Lemma returns_bind_raises {A B} (P : B → Prop) (m : M A) (k : A → M B) :
  returns (fun _ => False) m → returns P (bind m k).
Proof.
  intros Hm w b w' ev Hrun.
  apply bind_ok_inv in Hrun as (a & w1 & ev1 & ev2 & Hrun & _ & _).
  destruct (Hm _ _ _ _ Hrun).
Qed.

(** As the code stands, the endpoint never answers with a regenerated
    answer: on every path that passes the checks, constructing the
    [Question] raises, and the handler reports a 500. *)
Lemma regenerate_answer_never_succeeds E sid k change :
  returns (fun response => ∃ status_code detail, response = HttpError status_code detail)
    (regenerate_answer E sid k change).
Proof.
  unfold regenerate_answer. apply returns_try_except; [| intros e; apply returns_ret; eauto].
  destruct (validate_session_id sid); [apply returns_ret; eauto |].
  apply returns_bind. intros [session |]; [| apply returns_ret; eauto].
  unfold regenerate_found. apply returns_bind. intros answers.
  destruct (Z.of_nat (length answers) <=? k); [apply returns_ret; eauto |].
  apply returns_bind. intros current_answer. apply returns_bind. intros _.
  apply returns_bind_raises. rewrite Question_new_rejects_marks. apply returns_raise.
Qed.

(** The regeneration of an existing preview, as the code stands. *)
Example regenerate_existing_preview :
  let '(r, w', events) :=
    regenerate_answer (env_ok [question_1]) demo_session 0 "make it simpler" world_answered in
  r = Ok (HttpError 500
            "Failed to regenerate answer: Question.__init__() got an unexpected keyword argument 'marks'") ∧
  events = [] ∧
  get_answers (redis w') demo_session = get_answers (redis world_answered) demo_session.
Proof. vm_compute. by split_and!. Qed.

(** In other words: whatever the session, the index and the change
    request, the endpoint answers with an error. *)
Theorem regenerate_answer_always_http_error E sid k change w :
  ∃ status_code detail,
    (regenerate_answer E sid k change w).1.1 = Ok (HttpError status_code detail).
Proof.
  destruct (regenerate_answer_total E sid k change w) as [response Hresponse].
  destruct (regenerate_answer E sid k change w) as [[r w'] events] eqn:Hrun.
  cbn [fst] in *. subst r.
  destruct (regenerate_answer_never_succeeds E sid k change _ _ _ _ Hrun)
    as (status_code & detail & ->).
  by exists status_code, detail.
Qed.

(* ===================================================================== *)
(** ** The percentages of a run that returns *)
(* ===================================================================== *)

Lemma progress_values_app ev1 ev2 :
  progress_values (ev1 ++ ev2) = progress_values ev1 ++ progress_values ev2.
Proof. unfold progress_values, progress_events. by rewrite bind_app, fmap_app. Qed.

Lemma bind_events_ok {A B} (m : M A) (k : A → M B) w a w1 ev1 :
  m w = (Ok a, w1, ev1) → (bind m k w).2 = ev1 ++ (k a w1).2.
Proof. intros Hrun. unfold bind. rewrite Hrun. by destruct (k a w1) as [[r w2] ev2]. Qed.

Lemma bind_events_prefix {A B} (m : M A) (k : A → M B) w :
  ∃ rest, (bind m k w).2 = (m w).2 ++ rest.
Proof.
  unfold bind. destruct (m w) as [[[a | e] w1] ev1]; cbn [snd].
  - destruct (k a w1) as [[r w2] ev2]. by eexists.
  - exists []. by rewrite app_nil_r.
Qed.

Lemma try_except_events_prefix {A} (m : M A) (handler : exn → M A) w :
  ∃ rest, (try_except m handler w).2 = (m w).2 ++ rest.
Proof.
  unfold try_except, bind, catch. destruct (m w) as [[[a | e] w1] ev1]; cbn [snd].
  - by eexists.
  - destruct (handler e w1) as [[r w2] ev2]. by eexists.
Qed.

Lemma nondecreasing_cons a b l :
  nondecreasing (a :: b :: l) = (a <=? b) && nondecreasing (b :: l).
Proof. reflexivity. Qed.

Lemma nondecreasing_dip a b c l : c < a → nondecreasing (a :: b :: c :: l) = false.
Proof.
  intros Hdip. rewrite !nondecreasing_cons.
  destruct (a <=? b) eqn:Hab; [| done].
  destruct (b <=? c) eqn:Hbc; [| done].
  apply Z.leb_le in Hab, Hbc. lia.
Qed.

Lemma nondecreasing_app_false l1 l2 : nondecreasing l2 = false → nondecreasing (l1 ++ l2) = false.
Proof.
  intros Hl2. induction l1 as [| a l1 IH]; [done |].
  destruct l1 as [| b l1].
  - cbn [app] in *. destruct l2 as [| c l2]; [done |].
    rewrite nondecreasing_cons, IH. apply andb_false_r.
  - cbn [app] in *. rewrite nondecreasing_cons, IH. apply andb_false_r.
Qed.

Section ProgressOfRun.
Variable E : Env.
Variable sm : SessionManager.
Variables sid path fmt lang : string.
Hypothesis Hsupported : is_supported lang = true.

(** The first thing a generation for a supported language does is to
    report 24 percent. *)
Lemma generate_answer_first_event q w :
  ∃ e rest,
    (generate_answer E (task_generator sm sid) q lang w).2 = EvProgress e :: rest ∧
    pe_progress e = 24.
Proof.
  unfold generate_answer. rewrite Hsupported. cbn [negb].
  match goal with
  | |- context [try_except ?m ?handler w] =>
      destruct (try_except_events_prefix m handler w) as [rest Hrest]
  end.
  rewrite Hrest.
  erewrite bind_events_ok
    by exact (answer_progress_callback_run sm sid "knowledge_search" 10
                ("Searching knowledge base for question " +:+ q_id q) w).
  cbn [app]. eexists _, _. split; [reflexivity |]. vm_compute. reflexivity.
Qed.

(** An iteration of step 3 reports the share of its question, then 24. *)
Lemma answer_step_first_events n answers i q w :
  ∃ e24 rest,
    (answer_step E sm (task_generator sm sid) sid lang n answers i q w).2 =
    EvProgress (progress_event sid "generating_answer" (question_progress i n)
                  ("Generating answer " +:+ str_of_Z i +:+ "/" +:+ str_of_Z n) (clock w))
    :: EvProgress e24 :: rest ∧
    pe_progress e24 = 24.
Proof.
  destruct (generate_answer_first_event q (generation_start sm sid i n w))
    as (e24 & rest & Hgen & H24).
  unfold answer_step.
  match goal with
  | |- context [try_except ?m ?handler w] =>
      destruct (try_except_events_prefix m handler w) as [rest1 Hrest1]
  end.
  rewrite Hrest1. cbv zeta.
  erewrite bind_events_ok by apply emit_progress_eq.
  fold (question_progress i n). fold (generation_start sm sid i n w).
  match goal with
  | |- context [bind ?m ?k (generation_start sm sid i n w)] =>
      destruct (bind_events_prefix m k (generation_start sm sid i n w)) as [rest2 Hrest2]
  end.
  rewrite Hrest2, Hgen. cbn [app]. by eexists _, _.
Qed.

(** Step 3 on a non-empty list of questions reports 25, the share of the
    first question, then 24. *)
Lemma answers_step_first_events q questions w :
  ∃ rest,
    progress_values (answers_step E sm (task_generator sm sid) sid lang (q :: questions) w).2
    = 25 :: question_progress 1 (Z.of_nat (length (q :: questions))) :: 24 :: rest.
Proof.
  unfold answers_step. erewrite bind_events_ok by apply emit_progress_eq.
  match goal with
  | |- context [bind ?m ?k ?w1] =>
      destruct (bind_events_prefix m k w1) as [rest1 Hrest1]
  end.
  rewrite Hrest1. cbn [py_enumerate answer_loop].
  match goal with
  | |- context [bind ?m ?k ?w1] =>
      destruct (bind_events_prefix m k w1) as [rest2 Hrest2]
  end.
  rewrite Hrest2.
  match goal with
  | |- context [answer_step E sm ?g sid lang ?n ?a ?i q ?w1] =>
      destruct (answer_step_first_events n a i q w1) as (e24 & rest & Hstep & H24)
  end.
  rewrite Hstep, !progress_values_app.
  cbn [progress_values progress_events mbind list_bind progress_of fmap list_fmap app
         pe_progress progress_event].
  rewrite H24. by eexists.
Qed.

End ProgressOfRun.

Lemma try_except_reraising_ok_inv {A} (m : M A) handler w a w' ev :
  (∀ e w1, ∃ e' w2 ev2, handler e w1 = (Raise e', w2, ev2)) →
  try_except m handler w = (Ok a, w', ev) → m w = (Ok a, w', ev).
Proof.
  intros Hraise. unfold try_except, bind, catch, ret.
  destruct (m w) as [[[a' | e] w1] ev1].
  - rewrite app_nil_r. by intros [= -> -> ->].
  - destruct (Hraise e w1) as (e' & w2 & ev2 & ->). done.
Qed.

Section ProgressOfReturningRun.
Variable E : Env.
Variable sm : SessionManager.
Variables sid path fmt lang : string.

Lemma parse_input_file_events w : (_parse_input_file E path fmt w).2 = [].
Proof.
  unfold _parse_input_file, try_except, bind, catch, os_path_exists, lift, raise, ret.
  case_bool_decide; cbv beta iota.
  - destruct (parse_file E path fmt) as [e | qs]; cbv beta iota; [| done].
    by destruct (isinstance e "ParseError").
  - by destruct (isinstance _ _).
Qed.

Lemma parse_step_ok_progress w questions w' ev :
  parse_step E sm sid path fmt w = (Ok questions, w', ev) →
  progress_values ev = [0; 5; 15].
Proof.
  unfold parse_step. intros H.
  apply bind_ok_inv in H as ([] & w1 & ev1 & ev1' & H1 & H & ->).
  rewrite emit_progress_eq in H1. injection H1 as <- <-.
  apply bind_ok_inv in H as ([] & w2 & ev2 & ev2' & H2 & H & ->).
  rewrite emit_progress_eq in H2. injection H2 as <- <-.
  apply bind_ok_inv in H as (qs & w3 & ev3 & ev3' & Hparse & H & ->).
  apply (f_equal snd) in Hparse. rewrite parse_input_file_events in Hparse.
  cbn [snd] in Hparse. subst ev3.
  case_bool_decide; [done |].
  apply bind_ok_inv in H as ([] & w4 & ev4 & ev4' & H4 & H & ->).
  rewrite emit_progress_eq in H4. injection H4 as <- <-.
  unfold ret in H. injection H as _ _ <-.
  reflexivity.
Qed.

Lemma services_step_ok_progress w g w' ev :
  services_step E sm sid w = (Ok g, w', ev) → progress_values ev = [20].
Proof.
  unfold services_step, initialize_services. intros H.
  apply bind_ok_inv in H as ([] & w1 & ev1 & ev1' & H1 & H & ->).
  rewrite emit_progress_eq in H1. injection H1 as <- <-.
  destruct (pipeline_services E); [done |].
  unfold ret in H. injection H as _ _ <-. reflexivity.
Qed.

(** Step 5 returns for a supported language only. *)
Lemma pdf_step_ok_supported questions answers diagrams w doc w' ev :
  pdf_step E sm sid lang questions answers diagrams w = (Ok doc, w', ev) →
  is_supported lang = true.
Proof.
  unfold pdf_step. intros H.
  apply bind_ok_inv in H as ([] & w1 & ev1 & ev1' & _ & H & _).
  apply bind_ok_inv in H as (doc' & w2 & ev2 & ev2' & Hpdf & _ & _).
  unfold generate_pdf in Hpdf.
  apply try_except_reraising_ok_inv in Hpdf.
  - repeat (case_bool_decide; cbn [negb] in Hpdf; try done).
    by destruct (is_supported lang).
  - intros e w0. destruct (isinstance e "PDFGenerationError"); by eexists _, _, _.
Qed.

Lemma finally_block_progress w : progress_values (finally_block E path w).2 = [].
Proof. rewrite finally_block_events. by repeat case_match. Qed.

(** Every run of the task that returns has reported 25, the share of the
    first question (at least 25), and then 24. *)
Lemma process_ok_progress w result w' events :
  process_question_paper E sm sid path fmt lang w = (Ok result, w', events) →
  ∃ questions middle,
    parse_file E path fmt = inr questions ∧ questions ≠ [] ∧
    progress_values events =
      [0; 5; 15; 20; 25; question_progress 1 (Z.of_nat (length questions)); 24]
      ++ middle ++ [100].
Proof.
  unfold process_question_paper, try_finally.
  destruct (try_except _ _ w) as [[r w1] ev1] eqn:Htry.
  pose proof (finally_block_total E path w1) as Htotal.
  pose proof (finally_block_progress w1) as Hclean.
  destruct (finally_block E path w1) as [[rc w2] ev2]. cbn [fst snd] in Htotal, Hclean.
  subst rc. intros [= -> <- <-].
  apply try_except_ok_inv in Htry; [| apply except_block_raises].
  unfold try_block in Htry.
  apply bind_ok_inv in Htry as ([] & w3 & ev3 & ev3' & Hstatus & H & ->).
  apply bind_ok_inv in H as (p & w4 & ev4 & ev4' & Hsteps & Hfin & ->).
  injection Hstatus as <- <-.
  destruct (finalize_run sm sid p w4) as (w5 & result' & event & Hfin' & H100 & _).
  rewrite Hfin' in Hfin. injection Hfin as <- _ <-.
  unfold run_steps in Hsteps.
  apply bind_ok_inv in Hsteps as (questions & w6 & ev6 & ev6' & Hparse & H & ->).
  apply bind_ok_inv in H as (g & w7 & ev7 & ev7' & Hserv & H & ->).
  apply bind_ok_inv in H as (answers & w8 & ev8 & ev8' & Hans & H & ->).
  apply bind_ok_inv in H as (diagrams & w9 & ev9 & ev9' & Hdia & H & ->).
  apply bind_ok_inv in H as (doc & w10 & ev10 & ev10' & Hpdf & H & ->).
  apply pdf_step_ok_supported in Hpdf as Hsupported.
  pose proof (parse_step_ok_progress _ _ _ _ Hparse) as P1.
  pose proof (services_step_ok_progress _ _ _ _ Hserv) as P2.
  apply services_step_ok_inv in Hserv as ->.
  apply parse_step_ok_inv in Hparse as [Hparse Hne].
  destruct questions as [| q questions]; [done |].
  destruct (answers_step_first_events E sm sid lang Hsupported q questions w7)
    as [rest Hfirst].
  rewrite Hans in Hfirst. cbn [snd] in Hfirst.
  exists (q :: questions). eexists. split; [exact Hparse |]. split; [done |].
  rewrite !progress_values_app, P1, P2, Hfirst, Hclean, app_nil_r.
  change (progress_values [EvStatus sid PROCESSING]) with (@nil Z).
  change (progress_values [EvStoreResult sid result'; EvStatus sid COMPLETE; EvProgress event])
    with [pe_progress event].
  rewrite H100. cbn [app]. reflexivity.
Qed.

End ProgressOfReturningRun.

(** C3 fails on the code.  The last percentage of a run that returns is
    100, but the percentages are not non-decreasing.

    (1) Every run of the task that returns, whatever the collaborators
    do, has reported 0, 5, 15, 20, 25, then the share of the first question
    (25 + int(1 / n * 35), with n the number of parsed questions), and then
    24: the callback of the answer generator maps the generator's own 10
    percent to 20 + int(10 / 100 * 40) = 24, below the 25 already reported.
    So the sequence of percentages of the run decreases, and it ends with
    100.

    (2) Such runs exist: the run on an upload holding one question, with
    every collaborator succeeding, returns, and its percentages fall from
    60 back to 24. *)
Theorem C3_progress_regresses :
  (∀ E sm sid path fmt lang w,
     let '(r, _, events) := process_question_paper E sm sid path fmt lang w in
     ∀ result, r = Ok result →
       ∃ questions middle,
         parse_file E path fmt = inr questions ∧
         progress_values events =
           [0; 5; 15; 20; 25; question_progress 1 (Z.of_nat (length questions)); 24]
           ++ middle ++ [100] ∧
         nondecreasing (progress_values events) = false ∧
         last (progress_values events) = Some 100) ∧
  (let '(r, _, events) :=
     process_question_paper (env_ok [question_1]) SessionManager_new demo_session
       demo_upload "text" "en" world_uploaded in
   r = Ok (ResultSuccess "pdf_0" "answers.pdf" 3 1 1 0) ∧
   progress_values events =
     [0; 5; 15; 20; 25; 60; 24; 28; 36; 48; 56; 60; 60; 65; 75; 80; 90; 95; 100]).
Proof.
  split.
  - intros E sm sid path fmt lang w.
    destruct (process_question_paper E sm sid path fmt lang w) as [[r w'] events] eqn:Hrun.
    intros result ->.
    apply process_ok_progress in Hrun as (questions & middle & Hparse & _ & Hvalues).
    exists questions, middle. split; [exact Hparse |]. split; [exact Hvalues |].
    rewrite Hvalues. split.
    + apply (nondecreasing_app_false [0; 5; 15; 20]). by apply nondecreasing_dip.
    + rewrite app_assoc. apply last_snoc.
  - vm_compute. by split_and!.
Qed.

(* ===================================================================== *)
(** ** The session manager as a store *)
(* ===================================================================== *)

Lemma key_content_hset k f v r key :
  key ≠ k → key_content (hset k f v r) key = key_content r key.
Proof.
  intros Hne. unfold key_content, hset. cbn [hashes event_lists answer_lists values ttls].
  by rewrite lookup_insert_ne by congruence.
Qed.

Lemma key_content_hset_mapping k mapping r key :
  key ≠ k → key_content (hset_mapping k mapping r) key = key_content r key.
Proof.
  intros Hne. unfold hset_mapping. revert r.
  induction mapping as [| [f v] mapping IH]; intros r; [done |].
  cbn [foldl]. rewrite IH. cbn [fst snd]. by apply key_content_hset.
Qed.

Lemma key_content_expire k seconds r key :
  key ≠ k → key_content (expire k seconds r) key = key_content r key.
Proof.
  intros Hne. unfold expire. destruct (key_exists r k); [| done].
  unfold key_content. cbn [hashes event_lists answer_lists values ttls].
  by rewrite lookup_insert_ne by congruence.
Qed.

Lemma key_content_rpush_event k e r key :
  key ≠ k → key_content (rpush_event k e r) key = key_content r key.
Proof.
  intros Hne. unfold key_content, rpush_event.
  cbn [hashes event_lists answer_lists values ttls].
  by rewrite lookup_insert_ne by congruence.
Qed.

Lemma key_content_rpush_answer k a r key :
  key ≠ k → key_content (rpush_answer k a r) key = key_content r key.
Proof.
  intros Hne. unfold key_content, rpush_answer.
  cbn [hashes event_lists answer_lists values ttls].
  by rewrite lookup_insert_ne by congruence.
Qed.

Lemma key_content_lset_answer k i a r key :
  key ≠ k → key_content (lset_answer k i a r) key = key_content r key.
Proof.
  intros Hne. unfold key_content, lset_answer.
  cbn [hashes event_lists answer_lists values ttls].
  by rewrite lookup_insert_ne by congruence.
Qed.

Lemma key_content_set_ex k v seconds r key :
  key ≠ k → key_content (set_ex k v seconds r) key = key_content r key.
Proof.
  intros Hne. unfold key_content, set_ex.
  cbn [hashes event_lists answer_lists values ttls].
  by rewrite !lookup_insert_ne by congruence.
Qed.

Lemma key_content_del k r key :
  key ≠ k → key_content (del k r) key = key_content r key.
Proof.
  intros Hne. unfold key_content, del.
  cbn [hashes event_lists answer_lists values ttls].
  by rewrite !lookup_delete_ne by congruence.
Qed.

Lemma key_content_update_answer_scan now k idx text entries r key :
  key ≠ k → key_content (update_answer_scan now k idx text entries r) key = key_content r key.
Proof.
  intros Hne. induction entries as [| [i a] entries IH]; [done |].
  cbn [update_answer_scan]. case_bool_decide; [| exact IH].
  by apply key_content_lset_answer.
Qed.

(** The keys of two sessions are apart. *)
Lemma session_keys_apart a b k1 k2 :
  a ≠ b → k1 ∈ session_keys a → k2 ∈ session_keys b → k1 ≠ k2.
Proof.
  intros Hab H1 H2 ->. unfold session_keys in *.
  unfold _get_session_key, _get_progress_key, _get_result_key, _get_answers_key in *.
  set_unfold.
  destruct H1 as [H1 | [H1 | [H1 | [H1 | []]]]], H2 as [H2 | [H2 | [H2 | [H2 | []]]]];
    rewrite H1 in H2; by simplify_eq/=.
Qed.

(** A call for a session writes to keys of that session only. *)
Lemma run_op_key_content sm op r key :
  (∀ k, k ∈ session_keys (op_session op) → key ≠ k) →
  key_content (run_op sm op r) key = key_content r key.
Proof.
  intros Hkey.
  assert (Hs : key ≠ _get_session_key (op_session op))
    by (apply Hkey; unfold session_keys; set_solver).
  assert (Hp : key ≠ _get_progress_key (op_session op))
    by (apply Hkey; unfold session_keys; set_solver).
  assert (Hr : key ≠ _get_result_key (op_session op))
    by (apply Hkey; unfold session_keys; set_solver).
  assert (Ha : key ≠ _get_answers_key (op_session op))
    by (apply Hkey; unfold session_keys; set_solver).
  clear Hkey.
  destruct op; cbn [run_op op_session] in *.
  - unfold create_session. cbn [snd].
    by rewrite key_content_expire, key_content_hset_mapping.
  - unfold update_session_status. by rewrite key_content_expire, key_content_hset.
  - unfold set_language_preference. by rewrite key_content_expire, key_content_hset.
  - unfold add_progress_event.
    by rewrite key_content_expire, !key_content_hset, key_content_expire,
      key_content_rpush_event.
  - unfold store_result. by rewrite key_content_set_ex.
  - unfold delete_session. by rewrite !key_content_del.
  - unfold store_answer. by rewrite key_content_expire, key_content_rpush_answer.
  - unfold update_answer. by rewrite key_content_update_answer_scan.
Qed.

Lemma run_ops_cons sm op ops r : run_ops sm (op :: ops) r = run_ops sm ops (run_op sm op r).
Proof. reflexivity. Qed.

Lemma run_ops_session_content sm ops sid r :
  Forall (fun op => op_session op ≠ sid) ops →
  session_content (run_ops sm ops r) sid = session_content r sid.
Proof.
  intros Hops. revert r. induction Hops as [| op ops Hop _ IH]; intros r; [done |].
  rewrite run_ops_cons, IH. unfold session_content.
  apply list_fmap_ext. intros _ key Hkey%list_elem_of_lookup_2.
  apply run_op_key_content. intros k Hk.
  by apply (session_keys_apart sid (op_session op)).
Qed.

(** What the session manager reads about a session is a function of the
    content of its keys. *)
Lemma session_content_readers r r' sid :
  session_content r' sid = session_content r sid →
  get_session r' sid = get_session r sid ∧
  get_language_preference r' sid = get_language_preference r sid ∧
  get_progress_events r' sid = get_progress_events r sid ∧
  get_latest_progress r' sid = get_latest_progress r sid ∧
  get_result r' sid = get_result r sid ∧
  get_answers r' sid = get_answers r sid.
Proof.
  intros H.
  assert (Hkey : ∀ key, key ∈ session_keys sid → key_content r' key = key_content r key).
  { intros key [i Hi]%list_elem_of_lookup. apply (f_equal (.!! i)) in H.
    unfold session_content in H. rewrite !list_lookup_fmap, Hi in H.
    cbn [fmap option_fmap option_map] in H. exact (inj Some _ _ H). }
  pose proof (f_equal (fun t => t.1.1.1.1) (Hkey (_get_session_key sid) ltac:(set_solver)))
    as Hs.
  pose proof (f_equal (fun t => t.1.1.1.2) (Hkey (_get_progress_key sid) ltac:(set_solver)))
    as Hp.
  pose proof (f_equal (fun t => t.1.2) (Hkey (_get_result_key sid) ltac:(set_solver))) as Hr.
  pose proof (f_equal (fun t => t.1.1.2) (Hkey (_get_answers_key sid) ltac:(set_solver)))
    as Ha.
  unfold key_content in Hs, Hp, Hr, Ha. cbn [fst snd] in Hs, Hp, Hr, Ha.
  unfold get_session, get_language_preference, get_progress_events, get_latest_progress,
    get_result, get_answers, hgetall, hget, lrange_events, lrange_answers.
  by rewrite Hs, Hp, Hr, Ha.
Qed.

(** X1. Sessions are isolated from one another.  Whatever calls of the
    session manager are made for other sessions (creation, status and
    language updates, progress events, results, previews, updates of
    previews, deletion), everything Redis holds under the four keys of
    session [sid], the times-to-live included, stays as it is, and so does
    every answer of the readers of the session manager about [sid]. *)
Theorem session_isolation sm ops sid r :
  Forall (fun op => op_session op ≠ sid) ops →
  let r' := run_ops sm ops r in
  session_content r' sid = session_content r sid ∧
  get_session r' sid = get_session r sid ∧
  get_language_preference r' sid = get_language_preference r sid ∧
  get_progress_events r' sid = get_progress_events r sid ∧
  get_latest_progress r' sid = get_latest_progress r sid ∧
  get_result r' sid = get_result r sid ∧
  get_answers r' sid = get_answers r sid.
Proof.
  intros Hops r'.
  pose proof (run_ops_session_content sm ops sid r Hops) as Hcontent.
  split; [exact Hcontent |]. by apply session_content_readers.
Qed.

Lemma key_content_del_eq k r : key_content (del k r) k = (None, None, None, None, None).
Proof.
  unfold key_content, del. cbn [hashes event_lists answer_lists values ttls].
  by rewrite !lookup_delete_eq.
Qed.

Lemma session_key_not_progress_key a b : _get_session_key a ≠ _get_progress_key b.
Proof. unfold _get_progress_key, _get_session_key. cbn. discriminate. Qed.
Lemma session_key_not_result_key a b : _get_session_key a ≠ _get_result_key b.
Proof. unfold _get_result_key, _get_session_key. cbn. discriminate. Qed.
Lemma session_key_not_answers_key a b : _get_session_key a ≠ _get_answers_key b.
Proof. unfold _get_answers_key, _get_session_key. cbn. discriminate. Qed.
Lemma progress_key_not_result_key a b : _get_progress_key a ≠ _get_result_key b.
Proof. unfold _get_result_key, _get_progress_key. cbn. discriminate. Qed.
Lemma progress_key_not_answers_key a b : _get_progress_key a ≠ _get_answers_key b.
Proof. unfold _get_answers_key, _get_progress_key. cbn. discriminate. Qed.
Lemma result_key_not_answers_key a b : _get_result_key a ≠ _get_answers_key b.
Proof. unfold _get_answers_key, _get_result_key. cbn. discriminate. Qed.

Lemma get_session_absent r sid :
  hashes r !! _get_session_key sid = None → get_session r sid = None.
Proof. unfold get_session, hgetall. intros ->. cbn [default]. by rewrite bool_decide_eq_true_2. Qed.

Lemma get_result_delete_session sid r : get_result (delete_session sid r) sid = None.
Proof.
  pose proof (f_equal (fun t => t.1.2) (key_content_del_eq (_get_result_key sid)
    (del (_get_progress_key sid) (del (_get_session_key sid) r)))) as H.
  exact H.
Qed.

(** X2. [delete_session] deletes the session hash, the progress log and
    the result, and leaves the previews: afterwards the session, its
    language, its latest progress and its result are not found and its
    progress log is empty, while [get_answers] returns the previews as
    before, still under their time-to-live. *)
Theorem delete_session_keeps_answers sid r :
  let r' := delete_session sid r in
  get_session r' sid = None ∧
  get_language_preference r' sid = None ∧
  get_latest_progress r' sid = None ∧
  get_progress_events r' sid = [] ∧
  get_result r' sid = None ∧
  get_answers r' sid = get_answers r sid ∧
  ttls r' !! _get_answers_key sid = ttls r !! _get_answers_key sid.
Proof.
  intros r'.
  assert (Hs : key_content r' (_get_session_key sid) = (None, None, None, None, None)).
  { unfold r', delete_session.
    rewrite !key_content_del
      by (first [apply session_key_not_result_key | apply session_key_not_progress_key]).
    apply key_content_del_eq. }
  assert (Hp : key_content r' (_get_progress_key sid) = (None, None, None, None, None)).
  { unfold r', delete_session.
    rewrite key_content_del by apply progress_key_not_result_key.
    apply key_content_del_eq. }
  assert (Hr : key_content r' (_get_result_key sid) = (None, None, None, None, None)).
  { unfold r', delete_session. apply key_content_del_eq. }
  assert (Ha : key_content r' (_get_answers_key sid) = key_content r (_get_answers_key sid)).
  { unfold r', delete_session.
    rewrite !key_content_del; [done |..]; apply not_eq_sym;
      first [apply session_key_not_answers_key | apply progress_key_not_answers_key
            | apply result_key_not_answers_key]. }
  clearbody r'.
  apply (f_equal (fun t => t.1.1.1.1)) in Hs. apply (f_equal (fun t => t.1.1.1.2)) in Hp.
  apply (f_equal (fun t => t.1.2)) in Hr.
  pose proof (f_equal (fun t => t.2) Ha) as Httl. apply (f_equal (fun t => t.1.1.2)) in Ha.
  unfold key_content in Hs, Hp, Hr, Ha, Httl. cbn [fst snd] in Hs, Hp, Hr, Ha, Httl.
  split; [by apply get_session_absent |].
  unfold get_language_preference, get_latest_progress, get_progress_events, get_result,
    get_answers, hget, lrange_events, lrange_answers.
  by rewrite Hs, Hp, Hr, Ha.
Qed.

Lemma hashes_hset_eq key field value r :
  hashes (hset key field value r) !! key = Some (<[field := value]> (default ∅ (hashes r !! key))).
Proof. unfold hset. cbn [hashes]. apply lookup_insert_eq. Qed.

Lemma key_exists_hset key field value r : key_exists (hset key field value r) key = true.
Proof.
  unfold key_exists. rewrite hashes_hset_eq.
  rewrite (bool_decide_eq_true_2 (is_Some (Some _))) by (by eexists). reflexivity.
Qed.

Lemma ttls_expire_exists key seconds r :
  key_exists r key = true → ttls (expire key seconds r) !! key = Some seconds.
Proof. intros H. unfold expire. rewrite H. cbn [ttls]. apply lookup_insert_eq. Qed.

Lemma get_session_of_hash r sid h :
  hashes r !! _get_session_key sid = Some h → h ≠ ∅ → get_session r sid = Some h.
Proof.
  intros Hh Hne. unfold get_session, hgetall. rewrite Hh. cbn [default].
  by rewrite bool_decide_eq_false_2.
Qed.

Lemma get_session_none_hashes r sid :
  get_session r sid = None → default ∅ (hashes r !! _get_session_key sid) = ∅.
Proof. unfold get_session, hgetall. by case_bool_decide. Qed.

(** X3. [get_language_preference] returns the language last set with
    [set_language_preference].  Setting it changes no other field of the
    session and renews the time-to-live of the session.  It does not check
    that the session exists: on a session that is not found (whose
    language preference is [None]) it creates a record that holds the
    language and nothing else. *)
Theorem language_preference_round_trip sm sid lang r :
  let r' := set_language_preference sm sid lang r in
  get_language_preference r' sid = Some lang ∧
  (∀ field, field ≠ "language" →
            hget r' (_get_session_key sid) field = hget r (_get_session_key sid) field) ∧
  ttls r' !! _get_session_key sid = Some (session_ttl sm) ∧
  (get_session r sid = None →
   get_language_preference r sid = None ∧
   get_session r' sid = Some {["language" := lang]}).
Proof.
  intros r'. unfold r', set_language_preference, get_language_preference.
  split; [by rewrite hget_expire, hget_hset_eq |].
  split.
  { intros field Hfield. rewrite hget_expire. apply hget_hset_ne. right. congruence. }
  split; [apply ttls_expire_exists, key_exists_hset |].
  intros Hnone. pose proof (get_session_none_hashes _ _ Hnone) as Hempty. split.
  - unfold hget. destruct (hashes r !! _get_session_key sid) as [h |]; [| done].
    cbn in *. subst h. apply lookup_empty.
  - apply get_session_of_hash; [| apply insert_non_empty].
    by rewrite hashes_expire, hashes_hset_eq, Hempty.
Qed.

Lemma key_content_frame_readers r r' sid :
  key_content r' (_get_session_key sid) = key_content r (_get_session_key sid) →
  get_session r' sid = get_session r sid ∧
  get_language_preference r' sid = get_language_preference r sid ∧
  get_latest_progress r' sid = get_latest_progress r sid.
Proof.
  intros H. apply (f_equal (fun t => t.1.1.1.1)) in H.
  unfold key_content in H. cbn [fst snd] in H.
  unfold get_session, get_language_preference, get_latest_progress, hgetall, hget.
  by rewrite H.
Qed.

(** X4. [get_result] returns the result last stored with [store_result],
    which is kept under the time-to-live of the session manager; storing a
    result leaves the session record, the latest progress, the progress log
    and the previews as they are, and [delete_session] removes the
    result. *)
Theorem result_round_trip sm sid result r :
  let r' := store_result sm sid result r in
  get_result r' sid = Some result ∧
  ttls r' !! _get_result_key sid = Some (session_ttl sm) ∧
  get_session r' sid = get_session r sid ∧
  get_latest_progress r' sid = get_latest_progress r sid ∧
  get_progress_events r' sid = get_progress_events r sid ∧
  get_answers r' sid = get_answers r sid ∧
  get_result (delete_session sid r') sid = None.
Proof.
  intros r'. split; [apply get_result_store_result |].
  split.
  { unfold r', store_result, set_ex. cbn [ttls]. apply lookup_insert_eq. }
  split; [| split]; [reflexivity | reflexivity |].
  split; [reflexivity |]. split; [reflexivity |].
  apply get_result_delete_session.
Qed.

Lemma str_of_Z_not_empty n : str_of_Z n ≠ "".
Proof.
  unfold str_of_Z. destruct n as [| p | p]; cbn; [discriminate | |].
  - pose proof (Unsigned.to_uint_nonnil p) as Hnil.
    destruct (Pos.to_uint p); [done | ..]; cbn; discriminate.
  - discriminate.
Qed.

Lemma int_of_str_of_Z n : int_of_str (str_of_Z n) = n.
Proof.
  unfold int_of_str, str_of_Z. rewrite NilZero.isi.
  - apply DecimalZ.of_to.
  - destruct n as [| p | p]; cbn; try discriminate.
    intros [= H]. by apply (Unsigned.to_uint_nonnil p).
  - destruct n as [| p | p]; cbn; try discriminate.
    intros [= H]. by apply (Unsigned.to_uint_nonnil p).
Qed.

Lemma lrange_events_rpush_event key e r :
  lrange_events (rpush_event key e r) key = lrange_events r key ++ [e].
Proof. unfold lrange_events, rpush_event. cbn [event_lists]. by rewrite lookup_insert_eq. Qed.


Lemma get_latest_progress_add_progress_event sm event r :
  get_latest_progress (add_progress_event sm event r) (pe_session_id event) =
  Some {| lp_progress := pe_progress event;
          lp_stage := stage_or_pending (Some (pe_stage event));
          lp_status :=
            stage_or_pending (hget r (_get_session_key (pe_session_id event)) "status") |}.
Proof.
  unfold get_latest_progress.
  rewrite (hget_add_progress_event_other sm event r _ "status") by done.
  unfold add_progress_event.
  rewrite !hget_expire.
  rewrite (hget_hset_ne _ "current_stage" _ _ _ "progress") by (right; congruence).
  rewrite !hget_hset_eq.
  rewrite bool_decide_eq_false_2 by apply str_of_Z_not_empty.
  rewrite int_of_str_of_Z. reflexivity.
Qed.

(** X5. [add_progress_event] appends the event to the progress log of
    its session, and [get_latest_progress] then reports the percentage of
    that event (the decimal text kept in the hash reads back as the same
    integer), its stage, or ["pending"] for an empty stage, and the status
    the session has, or ["pending"] when it has none.  The status, the
    result and the previews are not touched. *)
Theorem latest_progress_follows_events sm event r :
  let sid := pe_session_id event in
  let r' := add_progress_event sm event r in
  get_progress_events r' sid = get_progress_events r sid ++ [event] ∧
  get_latest_progress r' sid =
    Some {| lp_progress := pe_progress event;
            lp_stage := stage_or_pending (Some (pe_stage event));
            lp_status := stage_or_pending (hget r (_get_session_key sid) "status") |} ∧
  hget r' (_get_session_key sid) "status" = hget r (_get_session_key sid) "status" ∧
  get_result r' sid = get_result r sid ∧
  get_answers r' sid = get_answers r sid.
Proof.
  intros sid r'. split.
  { unfold r', add_progress_event, get_progress_events, lrange_events. fold sid.
    rewrite event_lists_expire.
    change (event_lists (hset ?k ?f ?v ?r)) with (event_lists r).
    change (event_lists (hset ?k ?f ?v ?r)) with (event_lists r).
    rewrite event_lists_expire. unfold rpush_event. cbn [event_lists].
    by rewrite lookup_insert_eq. }
  split; [apply get_latest_progress_add_progress_event |].
  split; [by apply hget_add_progress_event_other |].
  split.
  - unfold get_result, r'. by rewrite values_add_progress_event.
  - unfold get_answers, lrange_answers, r'. by rewrite answer_lists_add_progress_event.
Qed.

Lemma update_answer_scan_first now key k text (l : list AnswerData) (offset i : nat) a r :
  l !! i = Some a → ad_index a = k →
  (∀ j b, (j < i)%nat → l !! j = Some b → ad_index b ≠ k) →
  update_answer_scan now key k text (imap (fun j b => ((offset + j)%nat, b)) l) r =
  lset_answer key (offset + i) (with_answer a text now) r.
Proof.
  revert offset i. induction l as [| b l IH]; intros offset i Hi Hk Hfirst; [done |].
  cbn [imap update_answer_scan]. destruct i as [| i].
  - injection Hi as ->. rewrite bool_decide_eq_true_2 by done. reflexivity.
  - rewrite bool_decide_eq_false_2 by exact (Hfirst 0%nat b (Nat.lt_0_succ i) eq_refl).
    rewrite (imap_ext _ (fun j b => ((S offset + j)%nat, b))) by (intros; cbn; f_equal; lia).
    rewrite (IH (S offset) i Hi Hk).
    + f_equal. lia.
    + intros j c Hj Hc. apply (Hfirst (S j) c); [lia | done].
Qed.

(** X6. [update_answer] rewrites the first preview that carries the
    index, and only that one: when the preview at position [i] carries the
    index and none before it does, the preview list afterwards is the list
    before with the answer text and the timestamp of position [i] replaced;
    a later preview with the same index is left alone.  The times-to-live
    are not renewed. *)
Theorem update_answer_first_match now sid k text r i a :
  get_answers r sid !! i = Some a →
  ad_index a = k →
  (∀ j b, (j < i)%nat → get_answers r sid !! j = Some b → ad_index b ≠ k) →
  let r' := update_answer now sid k text r in
  get_answers r' sid =
    <[i := {| ad_index := ad_index a; ad_question := ad_question a; ad_answer := text;
              ad_diagrams_count := ad_diagrams_count a; ad_timestamp := now |}]>
      (get_answers r sid) ∧
  (∀ j, j ≠ i → get_answers r' sid !! j = get_answers r sid !! j) ∧
  ttls r' = ttls r.
Proof.
  intros Hi Hk Hfirst r'.
  assert (Hrun : r' = lset_answer (_get_answers_key sid) i (with_answer a text now) r).
  { unfold r', update_answer.
    rewrite (imap_ext _ (fun j b => ((0 + j)%nat, b))) by done.
    by rewrite (update_answer_scan_first now _ k text _ 0 i a r Hi Hk Hfirst). }
  assert (Hlist : get_answers r' sid = <[i := with_answer a text now]> (get_answers r sid)).
  { rewrite Hrun. unfold get_answers.
    by rewrite lrange_answers_lset_answer, bool_decide_eq_true_2. }
  split; [exact Hlist |]. split.
  - intros j Hj. rewrite Hlist. by apply list_lookup_insert_ne.
  - by rewrite Hrun.
Qed.

Lemma hget_hset_mapping_other key mapping r k f :
  key ≠ k ∨ f ∉ mapping.*1 → hget (hset_mapping key mapping r) k f = hget r k f.
Proof.
  unfold hset_mapping. revert r.
  induction mapping as [| [f' v] mapping IH]; intros r Hne; [done |].
  cbn [foldl fst snd]. rewrite IH.
  - apply hget_hset_ne. destruct Hne as [? | Hf]; [by left |]. right.
    intros ->. apply Hf. cbn. apply list_elem_of_here.
  - destruct Hne as [? | Hf]; [by left |]. right. intros Hin. apply Hf. cbn.
    by apply list_elem_of_further.
Qed.

(** X7. Creating a session under an identifier that is in use resets the
    status to [pending] and keeps what the session has accumulated: the
    latest progress still shows the old percentage and stage, and the
    progress log, the previews and the result are as before. *)
Theorem create_session_keeps_progress sm uuid now sid lang metadata r lp :
  get_latest_progress r sid = Some lp →
  let r' := (create_session sm uuid now (Some sid) lang metadata r).2 in
  get_latest_progress r' sid =
    Some {| lp_progress := lp_progress lp; lp_stage := lp_stage lp;
            lp_status := status_value PENDING |} ∧
  hget r' (_get_session_key sid) "status" = Some (status_value PENDING) ∧
  get_progress_events r' sid = get_progress_events r sid ∧
  get_answers r' sid = get_answers r sid ∧
  get_result r' sid = get_result r sid.
Proof.
  intros Hlp r'.
  assert (Hother : ∀ f, f ∉ ["session_id"; "status"; "language"; "created_at"; "metadata"] →
            hget r' (_get_session_key sid) f = hget r (_get_session_key sid) f).
  { intros f Hf. unfold r', create_session. cbn [snd default].
    rewrite hget_expire. apply hget_hset_mapping_other. by right. }
  assert (Hstatus : hget r' (_get_session_key sid) "status" = Some (status_value PENDING)).
  { unfold r', create_session, hset_mapping. cbn [snd default foldl fst].
    rewrite hget_expire. rewrite !hget_hset_ne by (right; congruence).
    apply hget_hset_eq. }
  split; [| split; [exact Hstatus |]].
  - unfold get_latest_progress in *. rewrite Hstatus.
    rewrite !Hother
      by (rewrite !elem_of_cons, elem_of_nil; intros H; by simplify_eq/=; intuition congruence).
    destruct (hget r (_get_session_key sid) "progress") as [p |]; [| done].
    injection Hlp as <-. reflexivity.
  - assert (Hkey : ∀ key, key ≠ _get_session_key sid → key_content r' key = key_content r key).
    { intros key Hkey. unfold r', create_session. cbn [snd default].
      by rewrite key_content_expire, key_content_hset_mapping. }
    pose proof (f_equal (fun t => t.1.1.1.2)
                  (Hkey (_get_progress_key sid)
                     (not_eq_sym (session_key_not_progress_key sid sid)))) as Hp.
    pose proof (f_equal (fun t => t.1.1.2)
                  (Hkey (_get_answers_key sid)
                     (not_eq_sym (session_key_not_answers_key sid sid)))) as Ha.
    pose proof (f_equal (fun t => t.1.2)
                  (Hkey (_get_result_key sid)
                     (not_eq_sym (session_key_not_result_key sid sid)))) as Hr.
    clearbody r'. unfold key_content in Hp, Ha, Hr. cbn [fst snd] in Hp, Ha, Hr.
    unfold get_progress_events, get_answers, get_result, lrange_events, lrange_answers.
    by rewrite Hp, Ha, Hr.
Qed.

(** X8. The writes of the session manager do not check that the session
    exists.  On a session that [get_session] does not find (never created,
    deleted or expired), a status update creates a record that holds the
    status and nothing else, and a progress event creates one that holds
    the percentage and the stage only, for which [get_latest_progress]
    reports the status [pending]. *)
Theorem writes_to_missing_session sm sid status event r :
  get_session r sid = None →
  pe_session_id event = sid →
  get_session (update_session_status sm sid status r) sid
  = Some {["status" := status_value status]} ∧
  get_session (add_progress_event sm event r) sid
  = Some (<["current_stage" := pe_stage event]>
            {["progress" := str_of_Z (pe_progress event)]}) ∧
  get_latest_progress (add_progress_event sm event r) sid
  = Some {| lp_progress := pe_progress event;
            lp_stage := stage_or_pending (Some (pe_stage event));
            lp_status := status_value PENDING |}.
Proof.
  intros Hnone <-. pose proof (get_session_none_hashes _ _ Hnone) as Hempty.
  split; [| split].
  - apply get_session_of_hash; [| apply insert_non_empty].
    unfold update_session_status. by rewrite hashes_expire, hashes_hset_eq, Hempty.
  - apply get_session_of_hash; [| apply insert_non_empty].
    unfold add_progress_event.
    rewrite hashes_expire, hashes_hset_eq, hashes_hset_eq. cbn [default].
    rewrite hashes_expire. change (hashes (rpush_event ?k ?e ?r)) with (hashes r).
    by rewrite Hempty.
  - rewrite get_latest_progress_add_progress_event.
    f_equal. f_equal. unfold hget.
    destruct (hashes r !! _get_session_key (pe_session_id event)) as [h |]; [| done].
    cbn in *. subst h. by rewrite lookup_empty.
Qed.

Lemma session_isolation_witness :
  Forall (fun op => op_session op ≠ demo_session)
    [OpDeleteSession "another-session";
     OpUpdateSessionStatus "another-session" ERROR] ∧
  ltac:(let t := type of (session_isolation SessionManager_new
                            [OpDeleteSession "another-session";
                             OpUpdateSessionStatus "another-session" ERROR]
                            demo_session (redis world_uploaded)) in
        match t with _ → ?concl => exact concl end).
Proof.
  assert (H : Forall (fun op => op_session op ≠ demo_session)
                [OpDeleteSession "another-session";
                 OpUpdateSessionStatus "another-session" ERROR])
    by (repeat constructor; discriminate).
  split; [exact H |].
  exact (session_isolation SessionManager_new _ demo_session (redis world_uploaded) H).
Defined.

Lemma redis_two_runs_first :
  get_answers redis_two_runs demo_session !! 0%nat =
  Some {| ad_index := 0; ad_question := "What is a stack?"; ad_answer := "First answer.";
          ad_diagrams_count := 0; ad_timestamp := 1 |}.
Proof. vm_compute. reflexivity. Qed.

Lemma update_answer_first_match_witness :
  get_answers (update_answer 9 demo_session 0 "A simpler answer." redis_two_runs) demo_session
  = [{| ad_index := 0; ad_question := "What is a stack?"; ad_answer := "A simpler answer.";
        ad_diagrams_count := 0; ad_timestamp := 9 |};
     {| ad_index := 0; ad_question := "What is a stack?"; ad_answer := "Second answer.";
        ad_diagrams_count := 0; ad_timestamp := 2 |}].
Proof.
  destruct (update_answer_first_match 9 demo_session 0 "A simpler answer." redis_two_runs
              0%nat _ redis_two_runs_first eq_refl) as [Hlist _].
  - intros j b Hj. lia.
  - rewrite Hlist. vm_compute. reflexivity.
Defined.

Lemma redis_in_progress_latest :
  get_latest_progress redis_in_progress demo_session =
  Some {| lp_progress := 5; lp_stage := "parsing"; lp_status := "pending" |}.
Proof. vm_compute. reflexivity. Qed.

Lemma create_session_keeps_progress_witness :
  get_latest_progress
    (create_session SessionManager_new "" 2 (Some demo_session) "fr" None redis_in_progress).2
    demo_session
  = Some {| lp_progress := 5; lp_stage := "parsing"; lp_status := "pending" |}.
Proof.
  exact (proj1 (create_session_keeps_progress SessionManager_new "" 2 demo_session "fr" None
                  redis_in_progress _ redis_in_progress_latest)).
Defined.

Lemma deleted_session_absent :
  get_session (delete_session demo_session (redis world_uploaded)) demo_session = None.
Proof. vm_compute. reflexivity. Qed.

Lemma writes_to_missing_session_witness :
  get_session
    (update_session_status SessionManager_new demo_session PROCESSING
       (delete_session demo_session (redis world_uploaded))) demo_session
  = Some {["status" := "processing"]}.
Proof.
  exact (proj1 (writes_to_missing_session SessionManager_new demo_session PROCESSING
                  {| pe_session_id := demo_session; pe_stage := "parsing"; pe_progress := 5;
                     pe_message := "Parsing input file"; pe_timestamp := 1 |}
                  (delete_session demo_session (redis world_uploaded))
                  deleted_session_absent eq_refl)).
Defined.

(* ===================================================================== *)
(** ** The endpoints, the services and the task as a whole *)
(* ===================================================================== *)

Lemma regenerate_found_run E session sid k change w :
  regenerate_found E session sid k change w =
  (let answers := get_answers (redis w) sid in
   if Z.of_nat (length answers) <=? k then Ok (HttpError 400 "Invalid question index")
   else
     match py_index answers k with
     | None => Raise IndexError
     | Some _ =>
         match regenerate_services E with
         | Some e => Raise e
         | None =>
             Raise (Exn "TypeError"
                      "Question.__init__() got an unexpected keyword argument 'marks'")
         end
     end,
   w, []).
Proof.
  unfold regenerate_found, call_get_answers, redis_get.
  erewrite bind_run_ok by reflexivity. cbv zeta.
  destruct (Z.of_nat (length (get_answers (redis w) sid)) <=? k); [reflexivity |].
  destruct (py_index (get_answers (redis w) sid) k) as [a |]; [| reflexivity].
  erewrite bind_run_ok by reflexivity.
  destruct (regenerate_services E) as [e |]; [reflexivity |].
  erewrite bind_run_ok by reflexivity.
  rewrite Question_new_rejects_marks. reflexivity.
Qed.

(** X9. The answers of the regeneration endpoint, in full.  A malformed
    session identifier is refused with 400 and the message of the
    validation; an unknown session with 404; an index at or above the
    number of previews with 400; every other request ends in a 500: an
    index below minus the number of previews because the lookup raises
    [IndexError], a failure to set up the services with its message, and
    every remaining request because [Question] is called with the keywords
    [marks] and [difficulty], which it does not declare.  The endpoint
    never answers 200, performs no write and leaves the world as it is. *)
Theorem regenerate_answer_responses E sid k change w :
  regenerate_answer E sid k change w =
  (Ok match validate_session_id sid with
      | Some message => HttpError 400 message
      | None =>
          match get_session (redis w) sid with
          | None => HttpError 404 "Session not found"
          | Some _ =>
              let answers := get_answers (redis w) sid in
              if Z.of_nat (length answers) <=? k then HttpError 400 "Invalid question index"
              else
                match py_index answers k with
                | None => HttpError 500 "Failed to regenerate answer: list index out of range"
                | Some _ =>
                    match regenerate_services E with
                    | Some e => HttpError 500 ("Failed to regenerate answer: " +:+ exn_str e)
                    | None =>
                        HttpError 500
                          "Failed to regenerate answer: Question.__init__() got an unexpected keyword argument 'marks'"
                    end
                end
          end
      end,
   w, []).
Proof.
  unfold regenerate_answer.
  destruct (validate_session_id sid) as [message |]; [reflexivity |].
  unfold call_get_session, redis_get.
  destruct (get_session (redis w) sid) as [session |] eqn:Hsession.
  - pose proof (regenerate_found_run E session sid k change w) as Hrun. cbv zeta in Hrun.
    cbv zeta.
    assert (Hbody : ∀ r, regenerate_found E session sid k change w = (r, w, []) →
              bind (fun w0 => (Ok (get_session (redis w0) sid), w0, []))
                (fun session0 =>
                   match session0 with
                   | Some session1 => regenerate_found E session1 sid k change
                   | None => ret (HttpError 404 "Session not found")
                   end) w = (r, w, [])).
    { intros r Hr. unfold bind. rewrite Hsession, Hr. by destruct r. }
    destruct (Z.of_nat (length (get_answers (redis w) sid)) <=? k).
    { by rewrite (try_except_run_ok _ _ w _ w [] (Hbody _ Hrun)). }
    destruct (py_index (get_answers (redis w) sid) k) as [a |].
    + destruct (regenerate_services E) as [e |];
        by rewrite (try_except_run_raise _ _ w _ w [] (Hbody _ Hrun)).
    + by rewrite (try_except_run_raise _ _ w _ w [] (Hbody _ Hrun)).
  - rewrite (try_except_run_ok _ _ w (HttpError 404 "Session not found") w []); [done |].
    unfold bind. by rewrite Hsession.
Qed.

Section TaskOutcome.
Variable E : Env.
Variable sm : SessionManager.
Variables sid path fmt lang : string.

Lemma get_latest_progress_emit stage progress message r now :
  stage ≠ "" →
  get_latest_progress
    (add_progress_event sm (progress_event sid stage progress message now) r) sid =
  Some {| lp_progress := progress; lp_stage := stage;
          lp_status := stage_or_pending (hget r (_get_session_key sid) "status") |}.
Proof.
  intros Hstage.
  pose proof (get_latest_progress_add_progress_event sm
                (progress_event sid stage progress message now) r) as H.
  cbn [pe_session_id pe_progress pe_stage progress_event stage_or_pending] in H.
  by rewrite bool_decide_eq_false_2 in H.
Qed.

(** The state [finalize] leaves. *)
Lemma finalize_state p w :
  ∃ w' result events,
    finalize sm sid p w = (Ok result, w', events) ∧
    get_result (redis w') sid = Some result ∧
    get_latest_progress (redis w') sid =
      Some {| lp_progress := 100; lp_stage := "complete"; lp_status := "complete" |}.
Proof.
  unfold finalize, bind, call_store_result, call_update_session_status, redis_do.
  cbv beta iota zeta. rewrite emit_progress_eq. cbv beta iota. unfold ret. cbv beta iota.
  eexists _, _, _. split; [reflexivity |].
  rewrite !redis_with_redis. split.
  - unfold get_result.
    rewrite values_add_progress_event, values_update_session_status.
    apply get_result_store_result.
  - rewrite get_latest_progress_emit by done.
    by rewrite hget_update_session_status.
Qed.

(** The state the [except] block leaves. *)
Lemma except_block_state e w :
  ∃ w' events,
    except_block (A := ResultData) E sm sid e w = (Raise e, w', events) ∧
    get_result (redis w') sid = Some (ResultError (exn_str e) (exn_type e) (format_exc E e)) ∧
    get_latest_progress (redis w') sid =
      Some {| lp_progress := 0; lp_stage := "error"; lp_status := "error" |}.
Proof.
  unfold except_block, bind, call_store_result, call_update_session_status, redis_do.
  cbv beta iota zeta. rewrite emit_progress_eq. cbv beta iota. unfold raise. cbv beta iota.
  eexists _, _. split; [reflexivity |].
  rewrite !redis_with_redis. split.
  - unfold get_result.
    rewrite values_add_progress_event, values_update_session_status.
    apply get_result_store_result.
  - rewrite get_latest_progress_emit by done.
    by rewrite hget_update_session_status.
Qed.

(** A run of the task returns for a supported language only. *)
Lemma process_ok_supported w result w' events :
  process_question_paper E sm sid path fmt lang w = (Ok result, w', events) →
  is_supported lang = true.
Proof.
  unfold process_question_paper, try_finally.
  destruct (try_except _ _ w) as [[r w1] ev1] eqn:Htry.
  pose proof (finally_block_total E path w1) as Htotal.
  destruct (finally_block E path w1) as [[rc w2] ev2]. cbn [fst snd] in Htotal.
  subst rc. intros [= -> <- <-].
  apply try_except_ok_inv in Htry; [| apply except_block_raises].
  unfold try_block in Htry.
  apply bind_ok_inv in Htry as ([] & w3 & ev3 & ev3' & _ & H & _).
  apply bind_ok_inv in H as (p & w4 & ev4 & ev4' & Hsteps & _ & _).
  unfold run_steps in Hsteps.
  apply bind_ok_inv in Hsteps as (questions & w6 & ev6 & ev6' & _ & H & _).
  apply bind_ok_inv in H as (g & w7 & ev7 & ev7' & _ & H & _).
  apply bind_ok_inv in H as (answers & w8 & ev8 & ev8' & _ & H & _).
  apply bind_ok_inv in H as (diagrams & w9 & ev9 & ev9' & _ & H & _).
  apply bind_ok_inv in H as (doc & w10 & ev10 & ev10' & Hpdf & _ & _).
  by apply pdf_step_ok_supported in Hpdf.
Qed.

Lemma task_outcome w :
  let '(r, w', events) := process_question_paper E sm sid path fmt lang w in
  match r with
  | Ok result =>
      get_result (redis w') sid = Some result ∧
      get_latest_progress (redis w') sid =
        Some {| lp_progress := 100; lp_stage := "complete"; lp_status := "complete" |}
  | Raise e =>
      get_result (redis w') sid
      = Some (ResultError (exn_str e) (exn_type e) (format_exc E e)) ∧
      get_latest_progress (redis w') sid =
        Some {| lp_progress := 0; lp_stage := "error"; lp_status := "error" |}
  end.
Proof.
  unfold process_question_paper, try_finally, try_except.
  unfold bind at 1. unfold catch.
  destruct (try_block E sm sid path fmt lang w) as [[[result | e] w1] ev1] eqn:Htry;
    cbv beta iota.
  - unfold ret at 1. cbv beta iota.
    pose proof (finally_block_redis E path w1) as Hredis.
    pose proof (finally_block_total E path w1) as Htotal.
    destruct (finally_block E path w1) as [[rc w2] ev2].
    cbn [fst snd] in Hredis, Htotal. subst rc. cbv beta iota. rewrite Hredis.
    unfold try_block in Htry.
    apply bind_ok_inv in Htry as ([] & w3 & ev3 & ev3' & _ & H & _).
    apply bind_ok_inv in H as (p & w4 & ev4 & ev4' & _ & Hfin & _).
    destruct (finalize_state p w4) as (w5 & result' & events & Hrun & Hres & Hlatest).
    rewrite Hrun in Hfin. by injection Hfin as <- <- _.
  - destruct (except_block_state e w1) as (w2 & ev2 & -> & Hres & Hlatest).
    cbv beta iota.
    pose proof (finally_block_redis E path w2) as Hredis.
    pose proof (finally_block_total E path w2) as Htotal.
    destruct (finally_block E path w2) as [[rc w3] ev3].
    cbn [fst snd] in Hredis, Htotal. subst rc. cbv beta iota. by rewrite Hredis.
Qed.

End TaskOutcome.

(** X10. What a client reads once the task has ended, for every run and
    whatever the collaborators did.  If the task returned, the stored
    result is the value returned, a success record whose question and
    answer counts both equal the number of questions the parser found, and
    the latest progress is 100 at stage [complete] with status [complete].
    If the task raised [e], the stored result is the error record with
    [str(e)], the class name of [e] and the traceback, and the latest
    progress is 0 at stage [error] with status [error]. *)
Theorem task_outcome_recorded E sm sid path fmt lang w :
  let '(r, w', events) := process_question_paper E sm sid path fmt lang w in
  match r with
  | Ok result =>
      get_result (redis w') sid = Some result ∧
      get_latest_progress (redis w') sid =
        Some {| lp_progress := 100; lp_stage := "complete"; lp_status := "complete" |} ∧
      ∃ questions identifier file pages diagrams,
        parse_file E path fmt = inr questions ∧
        result = ResultSuccess identifier file pages (Z.of_nat (length questions))
                   (Z.of_nat (length questions)) diagrams
  | Raise e =>
      get_result (redis w') sid
      = Some (ResultError (exn_str e) (exn_type e) (format_exc E e)) ∧
      get_latest_progress (redis w') sid =
        Some {| lp_progress := 0; lp_stage := "error"; lp_status := "error" |}
  end.
Proof.
  pose proof (task_outcome E sm sid path fmt lang w) as Houtcome.
  destruct (process_question_paper E sm sid path fmt lang w) as [[[result | e] w'] events]
    eqn:Hrun; [| exact Houtcome].
  destruct Houtcome as [Hres Hlatest]. split; [exact Hres |]. split; [exact Hlatest |].
  assert (Hlang : lang ≠ "").
  { intros ->. by pose proof (process_ok_supported E sm sid path fmt "" _ _ _ _ Hrun). }
  apply (process_ok_inv _ _ _ _ _ _ _ _ _ _ Hlang) in Hrun
    as (questions & entries & identifier & file & pages & diagrams & Hparse & _ & -> & _).
  by exists questions, identifier, file, pages, diagrams.
Qed.

Lemma raises_only_ret {A} (P : exn → Prop) (a : A) : raises_only P (ret a).
Proof. by intros w e w' ev. Qed.

Lemma raises_only_raise {A} (P : exn → Prop) e : P e → raises_only P (raise (A := A) e).
Proof. intros He w e' w' ev [= <- _ _]. exact He. Qed.

Lemma raises_only_bind {A B} (P : exn → Prop) (m : M A) (k : A → M B) :
  raises_only P m → (∀ a, raises_only P (k a)) → raises_only P (bind m k).
Proof.
  intros Hm Hk w e w' ev. unfold bind.
  destruct (m w) as [[[a | e1] w1] ev1] eqn:Hrun.
  - destruct (k a w1) as [[r w2] ev2] eqn:Hrun2. intros [= -> _ _]. by eapply Hk.
  - intros [= <- _ _]. by eapply Hm.
Qed.

Lemma raises_only_try_except {A} (P : exn → Prop) (m : M A) handler :
  (∀ e, raises_only P (handler e)) → raises_only P (try_except m handler).
Proof.
  intros Hh w e w' ev. unfold try_except, bind, catch.
  destruct (m w) as [[[a | e1] w1] ev1]; [done |].
  destruct (handler e1 w1) as [[r w2] ev2] eqn:Hrun. intros [= -> _ _]. by eapply Hh.
Qed.

(** X11. Each service raises only its own class of exception, whatever
    goes wrong inside it (the provider, the knowledge base, the progress
    callback, Graphviz, ReportLab or the validation of the objects it
    builds).  [generate_answer] raises nothing but an
    [AnswerGenerationError] or a [LanguageNotSupportedError], and the
    latter at once, before any progress event or provider call, when the
    language is not supported; [generate_diagram] raises nothing but a
    [DiagramGenerationError]; [generate_pdf] nothing but a
    [PDFGenerationError]. *)
Theorem services_raise_their_own_errors E g q lang spec questions answers diagrams :
  raises_only (fun e => exn_type e = "AnswerGenerationError" ∨
                        exn_type e = "LanguageNotSupportedError")
    (generate_answer E g q lang) ∧
  (is_supported lang = false →
   ∀ w, ∃ e, generate_answer E g q lang w = (Raise e, w, []) ∧
             exn_type e = "LanguageNotSupportedError") ∧
  raises_only (fun e => exn_type e = "DiagramGenerationError") (generate_diagram E spec) ∧
  raises_only (fun e => exn_type e = "PDFGenerationError")
    (generate_pdf E questions answers diagrams lang).
Proof.
  split; [| split; [| split]].
  - unfold generate_answer. destruct (is_supported lang); cbn [negb].
    + apply raises_only_try_except. intros e. unfold isinstance. case_bool_decide.
      * apply raises_only_raise. by right.
      * apply raises_only_raise. by left.
    + apply raises_only_raise. by right.
  - intros Hlang w. unfold generate_answer. rewrite Hlang. cbn [negb]. by eexists.
  - unfold generate_diagram. apply raises_only_try_except. intros e.
    unfold isinstance. case_bool_decide; by apply raises_only_raise.
  - unfold generate_pdf. apply raises_only_try_except. intros e.
    unfold isinstance. case_bool_decide; by apply raises_only_raise.
Qed.

Section DiagramsStep.
Variable E : Env.
Variable sm : SessionManager.
Variable sid : string.

Lemma generate_diagram_raises spec w e w' ev :
  generate_diagram E spec w = (Raise e, w', ev) → isinstance e "DiagramGenerationError" = true.
Proof.
  intros Hrun. unfold isinstance. apply bool_decide_eq_true_2.
  revert w e w' ev Hrun.
  change (raises_only (fun e => exn_type e = "DiagramGenerationError") (generate_diagram E spec)).
  unfold generate_diagram. apply raises_only_try_except. intros e.
  unfold isinstance. case_bool_decide; by apply raises_only_raise.
Qed.

(** The inner loop of step 4 never raises: it adds at most one diagram
    per specification. *)
Lemma diagram_loop_total total specs : ∀ answer_diagrams processed w,
  ∃ new processed' w' events,
    diagram_loop E sm sid total specs answer_diagrams processed w =
    (Ok (answer_diagrams ++ new, processed'), w', events) ∧
    (length new ≤ length specs)%nat.
Proof.
  induction specs as [| spec rest IH]; intros answer_diagrams processed w.
  - exists [], processed, w, []. rewrite app_nil_r. split; [reflexivity | done].
  - cbn [diagram_loop]. unfold bind at 1. unfold catch. unfold bind at 1.
    destruct (generate_diagram E spec w) as [[[diagram | e] w1] ev1] eqn:Hgen.
    + cbv beta iota zeta.
      rewrite (bind_run_ok _ _ _ _ _ _ (emit_progress_eq _ _ _ _ _ _)).
      unfold ret at 1. cbv beta iota.
      destruct (IH (answer_diagrams ++ [diagram]) (processed + 1)
                  (with_redis
                     (add_progress_event sm
                        (progress_event sid "generating_diagram"
                           (65 + py_int (py_fmul (py_truediv (processed + 1) total) 10))
                           ("Generated diagram " +:+ str_of_Z (processed + 1) +:+ "/" +:+
                            str_of_Z total) (clock w1))) w1))
        as (new & processed' & w' & events & -> & Hlen).
      exists (diagram :: new), processed', w'. eexists. split.
      * rewrite <- app_assoc. reflexivity.
      * cbn [length]. lia.
    + cbv beta iota. rewrite (generate_diagram_raises _ _ _ _ _ Hgen).
      destruct (IH answer_diagrams processed w1) as (new & processed' & w' & events & -> & Hlen).
      exists new, processed', w'. eexists. split; [reflexivity |]. cbn [length]. lia.
Qed.

Lemma diagrams_loop_total total answers : ∀ diagrams processed w,
  ∃ diagrams' w' events,
    diagrams_loop E sm sid total answers diagrams processed w = (Ok diagrams', w', events) ∧
    ∀ qid ds, diagrams' !! qid = Some ds →
      diagrams !! qid = Some ds ∨
      (ds ≠ [] ∧ ∃ answer, answer ∈ answers ∧ question_id answer = qid ∧
                           (length ds ≤ length (visual_elements answer))%nat).
Proof.
  induction answers as [| answer rest IH]; intros diagrams processed w.
  - exists diagrams, w, []. split; [reflexivity |]. intros qid ds Hds. by left.
  - cbn [diagrams_loop]. unfold bind at 1.
    destruct (diagram_loop_total total (visual_elements answer) [] processed w)
      as (new & processed' & w1 & ev1 & -> & Hlen).
    cbn [app]. cbv beta iota.
    match goal with
    | |- context [diagrams_loop E sm sid total rest ?d processed' w1] =>
        destruct (IH d processed' w1) as (diagrams' & w' & events & -> & Hin)
    end.
    exists diagrams', w'. eexists. split; [reflexivity |].
    intros qid ds Hds. destruct (Hin qid ds Hds) as [Hold | (Hne & a & Ha & Hq & Hl)].
    + destruct new as [| d new]; [by left |].
      destruct (decide (question_id answer = qid)) as [<- | Hqid].
      * rewrite lookup_insert_eq in Hold. injection Hold as <-.
        right. split; [done |]. exists answer. split; [apply list_elem_of_here |]. done.
      * rewrite lookup_insert_ne in Hold by done. by left.
    + right. split; [done |]. exists a. split; [by apply list_elem_of_further | done].
Qed.

Lemma diagrams_step_total answers w :
  ∃ diagrams w' events,
    diagrams_step E sm sid answers w = (Ok diagrams, w', events) ∧
    diagrams_of_answers answers diagrams.
Proof.
  unfold diagrams_step. rewrite (bind_run_ok _ _ _ _ _ _ (emit_progress_eq _ _ _ _ _ _)).
  cbv zeta. unfold bind at 1.
  destruct (0 <? _).
  - match goal with
    | |- context [diagrams_loop E sm sid ?t answers ∅ 0 ?w1] =>
        destruct (diagrams_loop_total t answers ∅ 0 w1) as (diagrams & w' & events & -> & Hin)
    end.
    cbv beta iota. rewrite (bind_run_ok _ _ _ _ _ _ (emit_progress_eq _ _ _ _ _ _)).
    unfold ret. cbv beta iota.
    eexists _, _, _. split; [reflexivity |].
    intros qid ds Hds. destruct (Hin qid ds Hds) as [Hempty | H]; [| exact H].
    by rewrite lookup_empty in Hempty.
  - unfold ret at 1. cbv beta iota.
    rewrite (bind_run_ok _ _ _ _ _ _ (emit_progress_eq _ _ _ _ _ _)).
    unfold ret. cbv beta iota.
    eexists _, _, _. split; [reflexivity |].
    intros qid ds Hds. by rewrite lookup_empty in Hds.
Qed.

End DiagramsStep.

(** X12. Step 4 never fails the task: whatever Graphviz does and whatever
    the specifications are, the diagrams step returns.  A diagram that
    cannot be generated is skipped; the dictionary it returns has an entry
    only for questions with at least one diagram, holding no more diagrams
    than an answer to that question has visual elements. *)
Theorem diagram_failures_are_isolated E sm sid answers w :
  ∃ diagrams w' events,
    diagrams_step E sm sid answers w = (Ok diagrams, w', events) ∧
    diagrams_of_answers answers diagrams.
Proof. apply diagrams_step_total. Qed.

Section TaskReturns.
Variable E : Env.
Variable sm : SessionManager.
Variables sid path fmt lang : string.
Variable questions : list Question.
Hypothesis Hparse : parse_file E path fmt = inr questions.
Hypothesis Hquestions : questions ≠ [].
Hypothesis Hservices : pipeline_services E = None.
Hypothesis Hlang : lang ≠ "".

Lemma parse_step_run_ok w :
  path ∈ uploads w →
  ∃ w1 ev, parse_step E sm sid path fmt w = (Ok questions, w1, ev) ∧
           stored_answers ev = [].
Proof.
  intros Hexists. unfold parse_step.
  rewrite (bind_run_ok _ _ _ _ _ _ (emit_progress_eq _ _ _ _ _ _)).
  rewrite (bind_run_ok _ _ _ _ _ _ (emit_progress_eq _ _ _ _ _ _)).
  erewrite bind_run_ok; [| apply parse_input_file_run; [exact Hexists | exact Hparse]].
  rewrite bool_decide_eq_false_2 by done.
  rewrite (bind_run_ok _ _ _ _ _ _ (emit_progress_eq _ _ _ _ _ _)).
  unfold ret. cbv beta iota. eexists _, _. split; reflexivity.
Qed.

Lemma services_step_run_ok w :
  ∃ w1 ev, services_step E sm sid w = (Ok (task_generator sm sid), w1, ev) ∧
           stored_answers ev = [].
Proof.
  unfold services_step, initialize_services. rewrite Hservices.
  rewrite (bind_run_ok _ _ _ _ _ _ (emit_progress_eq _ _ _ _ _ _)).
  unfold ret. cbv beta iota. eexists _, _. split; reflexivity.
Qed.

Lemma run_steps_later_steps :
  run_steps E sm sid path fmt lang =
  (questions <- parse_step E sm sid path fmt ;;
   answer_generator <- services_step E sm sid ;;
   answers <- answers_step E sm answer_generator sid lang questions ;;
   later_steps E sm sid lang questions answers).
Proof. reflexivity. Qed.

(** Steps 1 to 3 succeed once the parser has found questions and the
    services are set up, whatever the provider does: they leave one
    preview per question. *)
Lemma steps_1_to_3 w :
  path ∈ uploads w →
  ∃ answers entries w3 ev,
    run_steps E sm sid path fmt lang w =
    (let '(r, w', ev') := later_steps E sm sid lang questions answers w3 in
     (r, w', ev ++ ev')) ∧
    length answers = length questions ∧
    stored_answers ev = pair sid <$> entries ∧
    previews_of questions entries.
Proof.
  intros Hexists.
  destruct (parse_step_run_ok w Hexists) as (w1 & ev1 & Hstep1 & Hs1).
  destruct (services_step_run_ok w1) as (w2 & ev2 & Hstep2 & Hs2).
  pose proof (answers_step_run E sm sid lang (task_generator sm sid) Hlang
                (task_generator_callback sm sid (silent stored_answer_of)) questions w2)
    as Hstep3.
  destruct (answers_step E sm (task_generator sm sid) sid lang questions w2)
    as [[r w3] ev3] eqn:Hrun3.
  destruct Hstep3 as (answers & entries & -> & Hlen & Hstored & Hindex & Hq & _).
  exists answers, entries, w3, (ev1 ++ ev2 ++ ev3). split.
  - rewrite run_steps_later_steps.
    rewrite (bind_run_ok _ _ _ _ _ _ Hstep1). rewrite (bind_run_ok _ _ _ _ _ _ Hstep2).
    rewrite (bind_run_ok _ _ _ _ _ _ Hrun3).
    destruct (later_steps E sm sid lang questions answers w3) as [[r w'] ev'].
    by rewrite <- !app_assoc.
  - split; [exact Hlen |]. split; [| by split].
    by rewrite !stored_answers_app, Hs1, Hs2, Hstored.
Qed.

Lemma later_steps_silent answers :
  respects (silent stored_answer_of) (later_steps E sm sid lang questions answers).
Proof.
  unfold later_steps.
  apply respects_bind;
    [tc_solve | apply (respects_diagrams_step (silent stored_answer_of)) | intros diagrams].
  apply respects_bind;
    [tc_solve | apply (respects_pdf_step (silent stored_answer_of)) | intros doc].
  apply respects_bind;
    [tc_solve | apply (respects_storage_step (silent stored_answer_of)) | intros identifier].
  apply respects_ret. tc_solve.
Qed.

(** The events of a run of the task: the [PROCESSING] write, the events
    of the steps, those of [finalize] or of the [except] block, which
    store no preview, and those of the cleanup. *)
Lemma process_run_shape w :
  let w0 := with_redis (update_session_status sm sid PROCESSING) w in
  let '(r, w', events) := process_question_paper E sm sid path fmt lang w in
  ∃ closing cleanup,
    events = EvStatus sid PROCESSING :: (run_steps E sm sid path fmt lang w0).2
             ++ closing ++ cleanup ∧
    stored_answers closing = [] ∧ stored_answers cleanup = [] ∧
    match (run_steps E sm sid path fmt lang w0).1.1 with
    | Ok _ => ∃ result, r = Ok result
    | Raise e => r = Raise e
    end.
Proof.
  intros w0.
  unfold process_question_paper, try_finally, try_except, try_block.
  unfold bind at 1. unfold catch. unfold bind at 1.
  unfold call_update_session_status, redis_do. cbv beta iota. fold w0.
  unfold bind at 1.
  destruct (run_steps E sm sid path fmt lang w0) as [[[p | e] w1] steps];
    cbn [fst snd]; cbv beta iota.
  - destruct (finalize_run sm sid p w1) as (w2 & result & event & -> & _).
    cbv beta iota. unfold ret at 1. cbv beta iota.
    pose proof (finally_block_total E path w2) as Htotal.
    pose proof (finally_block_stored_answers E path w2) as Hclean.
    destruct (finally_block E path w2) as [[rc w3] cleanup].
    cbn [fst snd] in Htotal, Hclean. subst rc. cbv beta iota.
    exists [EvStoreResult sid result; EvStatus sid COMPLETE; EvProgress event], cleanup.
    split; [by rewrite ?app_nil_r, <- ?app_assoc |]. split; [reflexivity |].
    split; [exact Hclean |]. by exists result.
  - destruct (except_block_run E sm sid e w1) as (w2 & result & event & -> & _).
    cbv beta iota.
    pose proof (finally_block_total E path w2) as Htotal.
    pose proof (finally_block_stored_answers E path w2) as Hclean.
    destruct (finally_block E path w2) as [[rc w3] cleanup].
    cbn [fst snd] in Htotal, Hclean. subst rc. cbv beta iota.
    exists [EvStoreResult sid result; EvStatus sid ERROR; EvProgress event], cleanup.
    split; [by rewrite ?app_nil_r, <- ?app_assoc |]. split; [reflexivity |].
    split; [exact Hclean |]. reflexivity.
Qed.

Lemma task_previews w :
  path ∈ uploads w →
  let '(r, w', events) := process_question_paper E sm sid path fmt lang w in
  ∃ entries,
    stored_answers events = pair sid <$> entries ∧
    previews_of questions entries ∧
    get_answers (redis w') sid = get_answers (redis w) sid ++ entries.
Proof.
  intros Hexists.
  pose proof (process_run_shape w) as Hshape. cbv zeta in Hshape.
  pose proof (process_answers_logged E sm sid path fmt lang w) as Hlogged.
  destruct (process_question_paper E sm sid path fmt lang w) as [[r w'] events].
  cbn [fst snd] in Hlogged.
  destruct Hshape as (closing & cleanup & -> & Hclosing & Hcleanup & _).
  destruct (steps_1_to_3 (with_redis (update_session_status sm sid PROCESSING) w) Hexists)
    as (answers & entries & w3 & ev & Hrun & _ & Hstored & Hpreviews).
  pose proof (later_steps_silent answers w3) as Hsilent. unfold silent in Hsilent.
  fold (stored_answers (later_steps E sm sid lang questions answers w3).2) in Hsilent.
  assert (Hsteps : stored_answers
                     (run_steps E sm sid path fmt lang
                        (with_redis (update_session_status sm sid PROCESSING) w)).2
                   = pair sid <$> entries).
  { rewrite Hrun.
    destruct (later_steps E sm sid lang questions answers w3) as [[r' w''] ev'].
    cbn [snd] in *. by rewrite stored_answers_app, Hstored, Hsilent, app_nil_r. }
  assert (Hall : stored_answers
                   (EvStatus sid PROCESSING
                    :: (run_steps E sm sid path fmt lang
                          (with_redis (update_session_status sm sid PROCESSING) w)).2
                       ++ closing ++ cleanup) = pair sid <$> entries).
  { change (?x :: ?l) with ([x] ++ l).
    rewrite !stored_answers_app, Hsteps, Hclosing, Hcleanup. cbn. by rewrite !app_nil_r. }
  exists entries. split; [exact Hall |]. split; [exact Hpreviews |].
  unfold get_answers. rewrite (Hlogged (_get_answers_key sid)).
  by rewrite (stored_under_session sid entries).
Qed.

Hypothesis Hsupported : is_supported lang = true.
Hypothesis Hreportlab : ∀ qs answers diagrams,
  ∃ content filename,
    reportlab_build E qs answers diagrams lang = inr (content, filename) ∧ content ≠ "".
Hypothesis Hsave : ∀ doc identifier, backend_save E doc identifier = None.

Lemma pdf_step_run_ok answers diagrams w :
  length answers = length questions →
  ∃ doc w1 ev, pdf_step E sm sid lang questions answers diagrams w = (Ok doc, w1, ev).
Proof.
  intros Hlen. unfold pdf_step.
  rewrite (bind_run_ok _ _ _ _ _ _ (emit_progress_eq _ _ _ _ _ _)).
  destruct (Hreportlab questions answers diagrams) as (content & filename & Hbuild & Hcontent).
  assert (Hanswers : answers ≠ []).
  { intros ->. destruct questions; [done | discriminate]. }
  erewrite bind_run_ok.
  2: { unfold generate_pdf. apply try_except_run_ok.
       rewrite !bool_decide_eq_false_2 by done.
       rewrite bool_decide_eq_true_2 by (by symmetry). rewrite Hsupported. cbn [negb].
       unfold get_language_config. rewrite Hsupported.
       erewrite bind_run_ok by reflexivity. rewrite Hbuild. unfold lift at 1.
       erewrite bind_run_ok by reflexivity. cbn [fst snd].
       unfold PDFDocument_new. rewrite bool_decide_eq_false_2 by done.
       rewrite (proj2 (Z.ltb_ge _ _)) by lia. reflexivity. }
  rewrite (bind_run_ok _ _ _ _ _ _ (emit_progress_eq _ _ _ _ _ _)).
  unfold ret. cbv beta iota. by eexists _, _, _.
Qed.

Lemma storage_step_run_ok doc w :
  ∃ identifier w1 ev, storage_step E sm sid doc w = (Ok identifier, w1, ev).
Proof.
  unfold storage_step. rewrite (bind_run_ok _ _ _ _ _ _ (emit_progress_eq _ _ _ _ _ _)).
  unfold save_pdf. rewrite Hsave. by eexists _, _, _.
Qed.

Lemma later_steps_run_ok answers w :
  length answers = length questions →
  ∃ p w' ev, later_steps E sm sid lang questions answers w = (Ok p, w', ev).
Proof.
  intros Hlen. unfold later_steps.
  destruct (diagrams_step_total E sm sid answers w) as (diagrams & w1 & ev1 & Hd & _).
  rewrite (bind_run_ok _ _ _ _ _ _ Hd).
  destruct (pdf_step_run_ok answers diagrams w1 Hlen) as (doc & w2 & ev2 & Hp).
  rewrite (bind_run_ok _ _ _ _ _ _ Hp).
  destruct (storage_step_run_ok doc w2) as (identifier & w3 & ev3 & Hs).
  rewrite (bind_run_ok _ _ _ _ _ _ Hs).
  unfold ret. cbv beta iota. by eexists _, _, _.
Qed.

Lemma task_returns w :
  path ∈ uploads w →
  ∃ result, (process_question_paper E sm sid path fmt lang w).1.1 = Ok result.
Proof.
  intros Hexists.
  pose proof (process_run_shape w) as Hshape. cbv zeta in Hshape.
  destruct (process_question_paper E sm sid path fmt lang w) as [[r w'] events].
  destruct Hshape as (closing & cleanup & _ & _ & _ & Hr).
  destruct (steps_1_to_3 (with_redis (update_session_status sm sid PROCESSING) w) Hexists)
    as (answers & entries & w3 & ev & Hrun & Hlen & _).
  destruct (later_steps_run_ok answers w3 Hlen) as (p & w4 & ev4 & Hlater).
  rewrite Hrun, Hlater in Hr. cbn [fst] in Hr. exact Hr.
Qed.

End TaskReturns.

(** X13. Failures of the provider, of the knowledge base and of Graphviz
    never fail the task.  When the uploaded file exists, the parser finds
    at least one question, the services can be set up, the language is
    supported, ReportLab builds a non-empty document and the storage
    backend saves it, the task returns, whatever the provider, the
    knowledge base and Graphviz do on any of their calls. *)
Theorem task_returns_despite_failures E sm sid path fmt lang questions w :
  path ∈ uploads w →
  parse_file E path fmt = inr questions →
  questions ≠ [] →
  pipeline_services E = None →
  is_supported lang = true →
  (∀ qs answers diagrams,
     ∃ content filename,
       reportlab_build E qs answers diagrams lang = inr (content, filename) ∧ content ≠ "") →
  (∀ doc identifier, backend_save E doc identifier = None) →
  ∃ result, (process_question_paper E sm sid path fmt lang w).1.1 = Ok result.
Proof.
  intros Hexists Hparse Hquestions Hservices Hsupported Hreportlab Hsave.
  apply (task_returns E sm sid path fmt lang questions); try done.
  intros ->. by vm_compute in Hsupported.
Qed.

(** X14. The previews do not depend on how the run ends.  When the
    uploaded file exists, the parser finds at least one question, the
    services can be set up and the language is not empty, every run of the
    task, whether it returns or raises in a later step, has appended
    exactly one preview per question, in order and with the indices 0, 1,
    ..., to the previews the session had. *)
Theorem previews_survive_failure E sm sid path fmt lang questions w :
  path ∈ uploads w →
  parse_file E path fmt = inr questions →
  questions ≠ [] →
  pipeline_services E = None →
  lang ≠ "" →
  let '(r, w', events) := process_question_paper E sm sid path fmt lang w in
  ∃ entries,
    stored_answers events = pair sid <$> entries ∧
    previews_of questions entries ∧
    get_answers (redis w') sid = get_answers (redis w) sid ++ entries.
Proof.
  intros Hexists Hparse Hquestions Hservices Hlang.
  by apply (task_previews E sm sid path fmt lang questions).
Qed.

Lemma env_flaky_reportlab failing qs answers diagrams :
  ∃ content filename,
    reportlab_build (env_flaky [question_1] failing) qs answers diagrams "en"
    = inr (content, filename) ∧ content ≠ "".
Proof. by exists "%PDF", "answers.pdf". Qed.

Lemma one_question : [question_1] ≠ [].
Proof. done. Qed.

Lemma task_returns_despite_failures_witness :
  (process_question_paper (env_flaky [question_1] [0; 1; 2]%nat) SessionManager_new
     demo_session demo_upload "text" "en" world_uploaded).1.1
  = Ok (ResultSuccess "pdf_3" "answers.pdf" 3 1 1 0) ∧
  ∃ result,
    (process_question_paper (env_flaky [question_1] [0; 1; 2]%nat) SessionManager_new
       demo_session demo_upload "text" "en" world_uploaded).1.1 = Ok result.
Proof.
  split; [vm_compute; reflexivity |].
  exact (task_returns_despite_failures (env_flaky [question_1] [0; 1; 2]%nat)
           SessionManager_new demo_session demo_upload "text" "en" [question_1]
           world_uploaded demo_upload_exists eq_refl one_question eq_refl eq_refl
           (env_flaky_reportlab [0; 1; 2]%nat) (fun _ _ => eq_refl)).
Defined.

Lemma en_is_a_language : "en" ≠ "".
Proof. done. Qed.

Lemma previews_survive_failure_witness :
  (process_question_paper (env_storage_down [question_1]) SessionManager_new
     demo_session demo_upload "text" "en" world_uploaded).1.1
  = Raise (Exn "OSError" "disk full") ∧
  ltac:(let t := type of (previews_survive_failure (env_storage_down [question_1])
                            SessionManager_new demo_session demo_upload "text" "en"
                            [question_1] world_uploaded demo_upload_exists eq_refl
                            one_question eq_refl en_is_a_language) in
        exact t).
Proof.
  split; [vm_compute; reflexivity |].
  exact (previews_survive_failure (env_storage_down [question_1]) SessionManager_new
           demo_session demo_upload "text" "en" [question_1] world_uploaded
           demo_upload_exists eq_refl one_question eq_refl en_is_a_language).
Defined.

Lemma references_fold (acc l : list string) :
  NoDup acc →
  ∃ new,
    foldl (fun references ref =>
             if bool_decide (ref ∈ references) then references else references ++ [ref])
      acc l = acc ++ new ∧
    NoDup (acc ++ new) ∧
    new `sublist_of` l ∧
    (∀ ref, ref ∈ l → ref ∈ acc ++ new).
Proof.
  revert acc. induction l as [| x l IH]; intros acc Hacc.
  - exists []. rewrite app_nil_r. split_and!; try done. intros ref Hin. by apply elem_of_nil in Hin.
  - cbn [foldl]. case_bool_decide as Hx.
    + destruct (IH acc Hacc) as (new & -> & Hnd & Hsub & Hall).
      exists new. split_and!; try done.
      * by apply sublist_cons.
      * intros ref [-> | Hin]%elem_of_cons; [| by apply Hall].
        apply elem_of_app. by left.
    + destruct (IH (acc ++ [x])) as (new & -> & Hnd & Hsub & Hall).
      { apply NoDup_app. split; [done |]. split; [| apply NoDup_singleton].
        intros y Hy Hyx%list_elem_of_singleton. by subst y. }
      exists (x :: new). rewrite <- app_assoc in *. cbn [app] in *.
      split_and!; try done.
      * by apply sublist_skip.
      * intros ref [-> | Hin]%elem_of_cons; [| by apply Hall].
        apply elem_of_app. right. apply list_elem_of_here.
Qed.

(** X15. The reference list of an answer, [_generate_references]: it has
    no duplicates; it holds exactly the references of the knowledge
    entries, none lost and none added; it keeps them in the order of the
    entries (it is a sublist of their references chained); and references
    of further entries are only ever appended, so each reference stands at
    the place of its first occurrence. *)
Theorem generate_references_dedup entries more :
  NoDup (_generate_references entries) ∧
  (∀ ref, ref ∈ _generate_references entries ↔
          ∃ entry, entry ∈ entries ∧ ref ∈ ke_references entry) ∧
  _generate_references entries `sublist_of` (entries ≫= ke_references) ∧
  _generate_references entries `prefix_of` _generate_references (entries ++ more).
Proof.
  unfold _generate_references.
  destruct (references_fold [] (entries ≫= ke_references) NoDup_nil_2)
    as (refs & Hrefs & Hnd & Hsub & Hall).
  cbn [app] in *. rewrite Hrefs.
  split; [exact Hnd |]. split; [| split; [exact Hsub |]].
  - intros ref. split.
    + intros Hin. apply (elem_of_sublist _ _ _ Hin), list_elem_of_bind in Hsub
        as (entry & Href & Hentry).
      by exists entry.
    + intros (entry & Hentry & Href). apply Hall, list_elem_of_bind. by exists entry.
  - rewrite bind_app, foldl_app, Hrefs.
    destruct (references_fold refs (more ≫= ke_references) Hnd) as (new & -> & _).
    by exists new.
Qed.

(* ===================================================================== *)
(** ** Provider selection and the security validators: properties *)
(* ===================================================================== *)

Section ProviderSelectionFacts.
Variable settings : Settings.
Variable get_user_api_key : Z → string → exn + option string.
Variable getenv : string → option string.

Lemma truthy_Some key : truthy (Some key) = true ↔ key ≠ "".
Proof.
  unfold truthy, str_truthy. split.
  - intros Ht ->. by rewrite bool_decide_eq_true_2 in Ht.
  - intros Hne. by rewrite bool_decide_eq_false_2.
Qed.

Lemma str_truthy_true s : str_truthy s = true ↔ s ≠ "".
Proof. apply (truthy_Some s). Qed.

Lemma str_truthy_false s : str_truthy s = false ↔ s = "".
Proof.
  unfold str_truthy. split.
  - case_bool_decide; [done | discriminate].
  - intros ->. by rewrite bool_decide_eq_true_2.
Qed.

Lemma load_keys_ok user_id providers keys keys' :
  (∀ prov, prov ∈ providers → prov ∈ known_providers) →
  user_keys_ok keys →
  load_keys get_user_api_key user_id providers keys = inr keys' →
  user_keys_ok keys'.
Proof.
  revert keys. induction providers as [| prov rest IH]; intros keys Hknown Hok; cbn [load_keys].
  - by intros [= <-].
  - destruct (get_user_api_key user_id prov) as [e | key]; [done |].
    apply IH.
    + intros p Hp. apply Hknown. by apply list_elem_of_further.
    + destruct key as [key |]; [| exact Hok]. cbn [truthy default].
      destruct (str_truthy key) eqn:Hkey; [| exact Hok].
      apply str_truthy_true in Hkey.
      intros p k. destruct (decide (prov = p)) as [<- | Hne].
      * rewrite lookup_insert_eq. intros [= <-]. split; [done |].
        apply Hknown, list_elem_of_here.
      * rewrite lookup_insert_ne by done. apply Hok.
Qed.

Lemma load_user_api_keys_ok user_id keys :
  load_user_api_keys get_user_api_key user_id = inr keys → user_keys_ok keys.
Proof.
  unfold load_user_api_keys.
  assert (Hempty : user_keys_ok ∅) by (intros p k Hk; by rewrite lookup_empty in Hk).
  destruct user_id as [uid |]; [| by intros [= <-]].
  case_bool_decide; [by intros [= <-] |].
  by apply load_keys_ok.
Qed.

Lemma init_api_key_given prov key :
  prov ∈ known_providers → key ≠ "" →
  init_api_key settings getenv prov (Some key) = inr key.
Proof.
  intros Hprov Hkey. apply truthy_Some in Hkey.
  unfold known_providers in Hprov. rewrite !elem_of_cons, elem_of_nil in Hprov.
  unfold init_api_key, py_or.
  destruct Hprov as [-> | [-> | [-> | [-> | []]]]]; cbn [bool_decide decide_rel];
    repeat (case_bool_decide; try done); by rewrite !Hkey.
Qed.

Lemma find_user_provider keys :
  user_keys_ok keys → keys ≠ ∅ →
  ∃ prov key,
    List.find (fun prov => bool_decide (is_Some (keys !! prov)))
      ["gemini"; "perplexity"; "openai"; "anthropic"] = Some prov ∧
    keys !! prov = Some key.
Proof.
  intros Hok Hne.
  destruct (List.find _ _) as [prov |] eqn:Hfind.
  - apply find_some in Hfind as [_ Hsome]. apply bool_decide_eq_true_1 in Hsome as [key Hkey].
    by exists prov, key.
  - exfalso. apply Hne, map_empty. intros prov.
    destruct (keys !! prov) as [key |] eqn:Hkey; [| done].
    destruct (Hok prov key Hkey) as [_ Hprov].
    assert (Hin : In prov ["gemini"; "perplexity"; "openai"; "anthropic"]).
    { unfold known_providers in Hprov. rewrite !elem_of_cons, elem_of_nil in Hprov.
      destruct Hprov as [-> | [-> | [-> | [-> | []]]]]; cbn; auto 10. }
    pose proof (find_none _ _ Hfind prov Hin) as Hnone. cbv beta in Hnone.
    rewrite Hkey, bool_decide_eq_true_2 in Hnone by (by eexists).
    discriminate Hnone.
Qed.

Lemma select_provider_spec provider keys :
  user_keys_ok keys →
  let '(llm_provider, api_key_override) := select_provider settings provider keys in
  match api_key_override with
  | Some key =>
      key ≠ "" ∧
      (keys !! llm_provider = Some key ∨
       (keys = ∅ ∧ system_key settings llm_provider = Some key)) ∧
      (is_Some (keys !! provider) → llm_provider = provider) ∧
      init_api_key settings getenv llm_provider api_key_override = inr key
  | None =>
      keys = ∅ ∧ llm_provider = provider ∧
      gemini_api_key settings = "" ∧ perplexity_api_key settings = "" ∧
      openai_api_key settings = "" ∧
      (provider = "anthropic" → anthropic_api_key settings = "")
  end.
Proof.
  intros Hok. unfold select_provider.
  case_bool_decide as Hempty.
  - (* no user keys: the system keys *)
    subst keys. cbn [truthy].
    assert (Hsys : ∀ prov key, prov ∈ known_providers → str_truthy key = true →
                     system_key settings prov = Some key →
                     key ≠ "" ∧
                     ((∅ : gmap string string) !! prov = Some key ∨
                      ((∅ : gmap string string) = ∅ ∧ system_key settings prov = Some key)) ∧
                     init_api_key settings getenv prov (Some key) = inr key).
    { intros prov key Hprov Hkey%str_truthy_true Hsystem. split; [done |].
      split; [by right |]. by apply init_api_key_given. }
    assert (Hno : ∀ prov : string, is_Some ((∅ : gmap string string) !! prov) → False).
    { intros prov [k Hk]. by rewrite lookup_empty in Hk. }
    assert (Hcases : provider = "gemini" ∨ provider = "perplexity" ∨ provider = "openai" ∨
                     provider = "anthropic" ∨
                     (provider ≠ "gemini" ∧ provider ≠ "perplexity" ∧ provider ≠ "openai" ∧
                      provider ≠ "anthropic")).
    { destruct (decide (provider = "gemini")); [by left |].
      destruct (decide (provider = "perplexity")); [by right; left |].
      destruct (decide (provider = "openai")); [by right; right; left |].
      destruct (decide (provider = "anthropic")); [by right; right; right; left |].
      by right; right; right; right. }
    destruct Hcases as [-> | [-> | [-> | [-> | (Hg & Hp & Ho & Ha)]]]];
      repeat (case_bool_decide; try done); cbn [andb];
      destruct (str_truthy (gemini_api_key settings)) eqn:Hgemini;
      destruct (str_truthy (perplexity_api_key settings)) eqn:Hperplexity;
      destruct (str_truthy (openai_api_key settings)) eqn:Hopenai;
      destruct (str_truthy (anthropic_api_key settings)) eqn:Hanthropic;
      cbv beta iota;
      lazymatch goal with
      | |- _ ∧ _ ∧ _ ∧ init_api_key _ _ ?p (Some ?k) = _ =>
          destruct (Hsys p k) as (? & ? & ?);
          [unfold known_providers;
           repeat first [apply list_elem_of_here | apply list_elem_of_further]
          | done | reflexivity |];
          split_and!; try done; by intros []%Hno
      | |- _ =>
          apply str_truthy_false in Hgemini, Hperplexity, Hopenai;
          try apply str_truthy_false in Hanthropic;
          by split_and!
      end.
  - (* user keys *)
    destruct (keys !! provider) as [key |] eqn:Hkey.
    + destruct (Hok provider key Hkey) as [Hne Hprov].
      rewrite (proj2 (truthy_Some key) Hne).
      split; [done |]. split; [by left |]. split; [done |].
      by apply init_api_key_given.
    + destruct (find_user_provider keys Hok Hempty) as (prov & key & -> & Hprov).
      rewrite Hprov. destruct (Hok prov key Hprov) as [Hne Hknown].
      rewrite (proj2 (truthy_Some key) Hne).
      split; [done |]. split; [by left |]. split; [by intros [? ?] |].
      by apply init_api_key_given.
Qed.

Lemma provider_cases (provider : string) :
  provider = "gemini" ∨ provider = "perplexity" ∨ provider = "openai" ∨
  provider = "anthropic" ∨
  (provider ≠ "gemini" ∧ provider ≠ "perplexity" ∧ provider ≠ "openai" ∧
   provider ≠ "anthropic").
Proof.
  destruct (decide (provider = "gemini")); [by left |].
  destruct (decide (provider = "perplexity")); [by right; left |].
  destruct (decide (provider = "openai")); [by right; right; left |].
  destruct (decide (provider = "anthropic")); [by right; right; right; left |].
  by right; right; right; right.
Qed.

(** Without keys of the user: the system key of the provider asked for
    if there is one, and otherwise the first of the system keys of
    Gemini, Perplexity and OpenAI. *)
Lemma select_provider_system_keys provider :
  (∀ key, system_key settings provider = Some key → key ≠ "" →
     select_provider settings provider ∅ = (provider, Some key)) ∧
  ((∀ key, system_key settings provider = Some key → key = "") →
   select_provider settings provider ∅ =
   if bool_decide (gemini_api_key settings ≠ "") then
     ("gemini", Some (gemini_api_key settings))
   else if bool_decide (perplexity_api_key settings ≠ "") then
     ("perplexity", Some (perplexity_api_key settings))
   else if bool_decide (openai_api_key settings ≠ "") then
     ("openai", Some (openai_api_key settings))
   else (provider, None)).
Proof.
  assert (Htruthy : ∀ s, str_truthy s = bool_decide (s ≠ "")).
  { intros s. unfold str_truthy. by repeat case_bool_decide. }
  unfold select_provider, system_key.
  rewrite (bool_decide_eq_true_2 ((∅ : gmap string string) = ∅)) by reflexivity.
  cbn [truthy].
  rewrite !Htruthy.
  destruct (provider_cases provider) as [-> | [-> | [-> | [-> | (Hg & Hp & Ho & Ha)]]]];
    repeat (case_bool_decide; try done); cbn [andb negb]; cbv beta iota;
    (split; [intros key [= <-] Hkey; try done |
             intros Hnone; try done;
             try (by (exfalso; eauto));
             try (specialize (Hnone _ eq_refl); done)]).
Qed.

End ProviderSelectionFacts.

(** X16. The choice of the provider and of the API key in the task.  For
    the keys loaded for the user (none for a [user_id] that is [None] or
    [0]): a key that is handed to the generator is never empty and always
    belongs to the provider selected with it, as a key of the user, or,
    when the user has no key at all, as the system key of that provider;
    a key of the user is preferred to every system key; the provider that
    was asked for is kept whenever the user holds a key for it, and
    otherwise the provider is the first of Gemini, Perplexity, OpenAI and
    Anthropic the user holds a key for; and [AnswerGenerator.__init__]
    then builds its client with exactly that key.  When the user has no
    key, the system key of the provider asked for is taken if the
    settings hold one; if not, the first of the system keys of Gemini,
    Perplexity and OpenAI that the settings hold is taken with its
    provider, and when they hold none of the three no key is handed over
    and the provider stays the one asked for.  So the system key of
    Anthropic is used when Anthropic is asked for and never as a
    fallback: no key is handed over exactly when the user has none and
    the settings have no key for Gemini, Perplexity or OpenAI, nor one
    for Anthropic if Anthropic was asked for. *)
Theorem selected_key_belongs_to_provider settings get_user_api_key getenv user_id provider
    keys :
  load_user_api_keys get_user_api_key user_id = inr keys →
  let '(llm_provider, api_key_override) := select_provider settings provider keys in
  match api_key_override with
  | Some key =>
      key ≠ "" ∧
      (keys !! llm_provider = Some key ∨
       (keys = ∅ ∧ system_key settings llm_provider = Some key)) ∧
      (is_Some (keys !! provider) → llm_provider = provider) ∧
      init_api_key settings getenv llm_provider api_key_override = inr key
  | None =>
      keys = ∅ ∧ llm_provider = provider ∧
      gemini_api_key settings = "" ∧ perplexity_api_key settings = "" ∧
      openai_api_key settings = "" ∧
      (provider = "anthropic" → anthropic_api_key settings = "")
  end ∧
  (keys ≠ ∅ → keys !! provider = None →
   List.find (fun prov => bool_decide (is_Some (keys !! prov)))
     ["gemini"; "perplexity"; "openai"; "anthropic"] = Some llm_provider) ∧
  (keys = ∅ →
   (∀ key, system_key settings provider = Some key → key ≠ "" →
      (llm_provider, api_key_override) = (provider, Some key)) ∧
   ((∀ key, system_key settings provider = Some key → key = "") →
      (llm_provider, api_key_override) =
      if bool_decide (gemini_api_key settings ≠ "") then
        ("gemini", Some (gemini_api_key settings))
      else if bool_decide (perplexity_api_key settings ≠ "") then
        ("perplexity", Some (perplexity_api_key settings))
      else if bool_decide (openai_api_key settings ≠ "") then
        ("openai", Some (openai_api_key settings))
      else (provider, None)) ∧
   (provider ≠ "anthropic" → llm_provider = "anthropic" → api_key_override = None)).
Proof.
  intros Hload. pose proof (load_user_api_keys_ok _ _ _ Hload) as Hok.
  pose proof (select_provider_spec settings getenv provider keys Hok) as Hspec.
  pose proof (select_provider_system_keys settings provider) as [Hown Hfallback].
  assert (Huser : keys ≠ ∅ → keys !! provider = None →
            List.find (fun prov => bool_decide (is_Some (keys !! prov)))
              ["gemini"; "perplexity"; "openai"; "anthropic"]
            = Some (select_provider settings provider keys).1).
  { intros Hne Hnone. unfold select_provider.
    rewrite bool_decide_eq_false_2 by done. rewrite Hnone.
    destruct (find_user_provider keys Hok Hne) as (prov & key & Hfind & Hkey).
    rewrite Hfind, Hkey. destruct (Hok prov key Hkey) as [Hkey' _].
    by rewrite (proj2 (truthy_Some key) Hkey'). }
  destruct (select_provider settings provider keys) as [llm_provider api_key_override] eqn:Hsel.
  split; [exact Hspec |]. split; [exact Huser |].
  intros ->. rewrite Hsel in Hown, Hfallback.
  split; [exact Hown |]. split; [exact Hfallback |].
  intros Hasked ->.
  assert (Hchain :
            ("anthropic", api_key_override) =
            (if bool_decide (gemini_api_key settings ≠ "") then
               ("gemini", Some (gemini_api_key settings))
             else if bool_decide (perplexity_api_key settings ≠ "") then
               ("perplexity", Some (perplexity_api_key settings))
             else if bool_decide (openai_api_key settings ≠ "") then
               ("openai", Some (openai_api_key settings))
             else (provider, None)) → api_key_override = None).
  { intros Heq. repeat case_bool_decide; by simplify_eq. }
  destruct (system_key settings provider) as [key |] eqn:Hsys.
  - destruct (decide (key = "")) as [-> | Hkey].
    + apply Hchain, Hfallback. by intros ? [= <-].
    + specialize (Hown key eq_refl Hkey). by simplify_eq.
  - apply Hchain, Hfallback. done.
Qed.

Lemma user_with_perplexity_keys :
  load_user_api_keys user_with_perplexity (Some 7) = inr {["perplexity" := "pplx-user"]}.
Proof. vm_compute. reflexivity. Qed.

Lemma selected_key_belongs_to_provider_witness :
  select_provider settings_anthropic_only "gemini" {["perplexity" := "pplx-user"]}
  = ("perplexity", Some "pplx-user") ∧
  ltac:(let t := type of (selected_key_belongs_to_provider settings_anthropic_only
                            user_with_perplexity (fun _ => None) (Some 7) "gemini" _
                            user_with_perplexity_keys) in
        exact t).
Proof.
  split; [vm_compute; reflexivity |].
  exact (selected_key_belongs_to_provider settings_anthropic_only user_with_perplexity
           (fun _ => None) (Some 7) "gemini" _ user_with_perplexity_keys).
Defined.

(** X17. The provider of the regeneration endpoint is Gemini, Perplexity
    or OpenAI, in this order of preference among the providers the
    settings hold a key for: Gemini when the settings hold a key for it,
    Perplexity when they hold none for Gemini but one for Perplexity,
    OpenAI when they hold one for OpenAI only.  When the settings hold a
    key for one of the three, the generator is built with the key of the
    provider chosen.  When they hold none, the provider is Gemini and the
    construction depends on the environment variable [GEMINI_API_KEY]
    alone: without it the constructor raises the [AnswerGenerationError]
    "Gemini API key not found", also when a key for Anthropic is
    configured. *)
Theorem regenerate_provider_choice settings getenv :
  let provider := regenerate_provider settings in
  (provider = "gemini" ∨ provider = "perplexity" ∨ provider = "openai") ∧
  (gemini_api_key settings ≠ "" → provider = "gemini") ∧
  (gemini_api_key settings = "" → perplexity_api_key settings ≠ "" →
   provider = "perplexity") ∧
  (gemini_api_key settings = "" → perplexity_api_key settings = "" →
   openai_api_key settings ≠ "" → provider = "openai") ∧
  (gemini_api_key settings ≠ "" ∨ perplexity_api_key settings ≠ "" ∨
   openai_api_key settings ≠ "" →
   ∃ key, system_key settings provider = Some key ∧ key ≠ "" ∧
          init_api_key settings getenv provider None = inr key) ∧
  (gemini_api_key settings = "" → perplexity_api_key settings = "" →
   openai_api_key settings = "" →
   provider = "gemini" ∧
   init_api_key settings getenv provider None =
   match getenv "GEMINI_API_KEY" with
   | Some key =>
       if bool_decide (key = "") then
         inl (AnswerGenerationError
                "Gemini API key not found. Set GEMINI_API_KEY environment variable.")
       else inr key
   | None =>
       inl (AnswerGenerationError
              "Gemini API key not found. Set GEMINI_API_KEY environment variable.")
   end).
Proof.
  intros provider. unfold provider, regenerate_provider. clear provider.
  assert (Hinit : ∀ prov key,
            prov ∈ ["gemini"; "perplexity"; "openai"] →
            system_key settings prov = Some key → key ≠ "" →
            init_api_key settings getenv prov None = inr key).
  { intros prov key Hprov Hsys Hkey. rewrite !elem_of_cons, elem_of_nil in Hprov.
    unfold init_api_key, py_or. cbn [truthy].
    destruct Hprov as [-> | [-> | [-> | []]]]; injection Hsys as <-;
      repeat (case_bool_decide; try done);
      rewrite (proj2 (str_truthy_true _) Hkey); cbn [truthy default];
      by rewrite (proj2 (str_truthy_true _) Hkey). }
  destruct (str_truthy (gemini_api_key settings)) eqn:Hgemini; cbn [negb andb].
  - apply str_truthy_true in Hgemini.
    split; [by left |]. split; [done |]. split; [done |]. split; [done |].
    split; [| done].
    intros _. exists (gemini_api_key settings). split; [reflexivity |]. split; [done |].
    apply Hinit; [apply list_elem_of_here | reflexivity | done].
  - apply str_truthy_false in Hgemini.
    destruct (str_truthy (perplexity_api_key settings)) eqn:Hperplexity; cbn [negb andb].
    + apply str_truthy_true in Hperplexity.
      split; [by right; left |]. split; [done |]. split; [done |]. split; [done |].
      split; [| done].
      intros _. exists (perplexity_api_key settings). split; [reflexivity |]. split; [done |].
      apply Hinit; [apply list_elem_of_further, list_elem_of_here | reflexivity | done].
    + apply str_truthy_false in Hperplexity.
      destruct (str_truthy (openai_api_key settings)) eqn:Hopenai.
      * apply str_truthy_true in Hopenai.
        split; [by right; right |]. split; [done |]. split; [done |]. split; [done |].
        split; [| done].
        intros _. exists (openai_api_key settings). split; [reflexivity |]. split; [done |].
        apply Hinit; [| reflexivity | done].
        apply list_elem_of_further, list_elem_of_further, list_elem_of_here.
      * apply str_truthy_false in Hopenai.
        split; [by left |]. split; [done |]. split; [done |]. split; [done |].
        split; [by intros [? | [? | ?]] |].
        intros _ _ _. split; [done |].
        unfold init_api_key, py_or. repeat (case_bool_decide; try done); cbn [truthy].
        rewrite (proj2 (str_truthy_false _) Hgemini).
        destruct (getenv "GEMINI_API_KEY") as [key |]; cbn [truthy default]; [| done].
        unfold str_truthy. by case_bool_decide.
Qed.

(** X18. The format check of language codes and the language service.
    [validate_language_code] accepts exactly the texts made of two
    lowercase letters, possibly followed by one line feed (the [$] of the
    pattern matches before a final newline), and raises a
    [ValidationError] on every other text: "Language code cannot be
    empty" on the empty text, "Invalid language code format" with the
    text otherwise; it never returns [False].  It accepts every language
    the language service supports, so that among the languages that pass
    it the upload goes on to refuse those the service does not support,
    as it does ["xx"] and ["en"] followed by a line feed. *)
Theorem language_code_validation l :
  (validate_language_code l = inr true ↔
   ∃ a b, is_lower_letter a = true ∧ is_lower_letter b = true ∧
          (l = String a (String b "") ∨ l = String a (String b newline))) ∧
  (validate_language_code l ≠ inr true →
   validate_language_code l =
   inl (ValidationError
          (if bool_decide (l = "") then "Language code cannot be empty"
           else "Invalid language code format: '" +:+ l +:+ "'. " +:+
                "Language codes must be 2 lowercase letters (ISO 639-1 format)"))) ∧
  (is_supported l = true → validate_language_code l = inr true) ∧
  (validate_language_code "xx" = inr true ∧ is_supported "xx" = false) ∧
  (validate_language_code ("en" +:+ newline) = inr true ∧
   is_supported ("en" +:+ newline) = false) ∧
  validate_language_code "" = inl (ValidationError "Language code cannot be empty").
Proof.
  split; [| split; [| split; [| by vm_compute]]].
  - unfold validate_language_code. split.
    + case_bool_decide as Hempty; [done |].
      destruct (language_code_matches l) eqn:Hmatch; [| done]. intros _.
      destruct l as [| a [| b rest]]; try done. cbn [language_code_matches] in Hmatch.
      apply andb_prop in Hmatch as [Hab Hrest]. apply andb_prop in Hab as [Ha Hb].
      exists a, b. split; [done |]. split; [done |].
      apply orb_prop in Hrest as [Hrest | Hrest]; apply bool_decide_eq_true_1 in Hrest;
        subst rest; [by left | by right].
    + intros (a & b & Ha & Hb & [-> | ->]);
        (rewrite bool_decide_eq_false_2 by done); cbn [language_code_matches];
        rewrite Ha, Hb; reflexivity.
  - unfold validate_language_code. case_bool_decide as Hempty; [done |].
    by destruct (language_code_matches l).
  - unfold is_supported. intros Hl%bool_decide_eq_true_1.
    unfold _SUPPORTED_LANGUAGES in Hl. rewrite !elem_of_cons, elem_of_nil in Hl.
    repeat destruct Hl as [-> | Hl]; try (vm_compute; reflexivity). destruct Hl.
Qed.

Lemma sanitize_input_keeps_all isprintable c :
  (∀ c, (c < 32)%N → isprintable c = false) → sanitize_input_keeps isprintable c = true.
Proof.
  intros Hcontrol. unfold sanitize_input_keeps.
  destruct (32 <=? c)%N eqn:Hc; [apply orb_true_r |].
  apply N.leb_gt in Hc. rewrite (Hcontrol c Hc). cbn [negb].
  rewrite orb_true_r. reflexivity.
Qed.

Lemma filter_all_true {A} (f : A → bool) l : (∀ x, f x = true) → List.filter f l = l.
Proof.
  intros Hf. induction l as [| x l IH]; [done |]. cbn. by rewrite Hf, IH.
Qed.

(** X19. [sanitize_input] does not remove control characters.  A
    character below 32 is not printable, so the test of its filter, which
    keeps a character that is a newline, a carriage return or a tab, or is
    not printable, or is at or above 32, holds of every character.  For a
    text within the length limit the result is therefore the text without
    its null characters, stripped of leading and trailing white space:
    every other control character (an escape, a bell, a backspace) comes
    through.  The empty text gives the empty text, and a text longer than
    the limit (before any removal) is refused. *)
Theorem sanitize_input_keeps_control_characters isprintable isspace text max_length :
  (∀ c, (c < 32)%N → isprintable c = false) →
  (∀ c, sanitize_input_keeps isprintable c = true) ∧
  sanitize_input isprintable isspace text max_length =
  if bool_decide (text = []) then inr []
  else if max_length <? Z.of_nat (length text) then
    inl (ValidationError
           ("Input text exceeds maximum length of " +:+ str_of_Z max_length +:+
            " characters"))
  else inr (ustr_strip isspace (List.filter (fun c => negb (c =? 0)%N) text)).
Proof.
  intros Hcontrol. split; [intros c; by apply sanitize_input_keeps_all |].
  unfold sanitize_input. case_bool_decide; [done |].
  destruct (max_length <? _); [done |].
  rewrite (filter_all_true (sanitize_input_keeps isprintable))
    by (intros c; by apply sanitize_input_keeps_all).
  reflexivity.
Qed.

Lemma ascii_isprintable_control c : (c < 32)%N → ascii_isprintable c = false.
Proof.
  intros Hc. unfold ascii_isprintable. by rewrite (proj2 (N.leb_gt 32 c) Hc).
Qed.

(** An ANSI escape sequence, a null character and a bell around a word. *)
Lemma sanitize_input_keeps_control_characters_witness :
  sanitize_input ascii_isprintable ascii_isspace
    ([32; 27; 91; 51; 49; 109; 0; 104; 105; 7; 10]%N) 10000
  = inr [27; 91; 51; 49; 109; 104; 105; 7]%N.
Proof.
  rewrite (proj2 (sanitize_input_keeps_control_characters ascii_isprintable ascii_isspace
                    _ 10000 ascii_isprintable_control)).
  vm_compute. reflexivity.
Defined.

Lemma sanitize_filename_limit filename :
  sanitize_filename filename =
  let sanitized := sanitized_before_limit filename in
  if (255 <? length sanitized)%nat then
    py_slice_to (path_stem sanitized) (255 - Z.of_nat (length (path_suffix sanitized)))
    ++ path_suffix sanitized
  else sanitized.
Proof. reflexivity. Qed.

Lemma safe_not_slash c : is_safe_char c = true → c ≠ chr_slash.
Proof. intros H ->. vm_compute in H. discriminate. Qed.

Lemma safe_name_no_slash s : safe_name s → chr_slash ∉ s.
Proof.
  intros Hs Hin. eapply Forall_forall in Hs; [| exact Hin].
  by apply safe_not_slash in Hs.
Qed.

Lemma ustr_split_plain sep s : sep ∉ s → ustr_split sep s = [s].
Proof.
  induction s as [| c s IH]; [done |]. intros Hs.
  apply not_elem_of_cons in Hs as [Hc Hs]. cbn [ustr_split].
  rewrite (proj2 (N.eqb_neq c sep)) by congruence. rewrite (IH Hs). reflexivity.
Qed.

Lemma ustr_split_part_length sep s part :
  part ∈ ustr_split sep s → (length part ≤ length s)%nat.
Proof.
  revert part. induction s as [| c s IH]; intros part Hin; cbn [ustr_split] in Hin.
  - apply list_elem_of_singleton in Hin as ->. done.
  - destruct (c =? sep)%N.
    + apply elem_of_cons in Hin as [-> | Hin]; [cbn; lia |].
      apply IH in Hin. cbn. lia.
    + destruct (ustr_split sep s) as [| p parts] eqn:Hsplit.
      * apply list_elem_of_singleton in Hin as ->. cbn. lia.
      * apply elem_of_cons in Hin as [-> | Hin].
        -- specialize (IH p (list_elem_of_here _ _)). cbn. lia.
        -- specialize (IH part (list_elem_of_further _ _ _ Hin)). cbn. lia.
Qed.

Lemma path_name_length s : (length (path_name s) ≤ length s)%nat.
Proof.
  unfold path_name.
  destruct (last _) as [part |] eqn:Hlast; cbn [default]; [| cbn; lia].
  apply last_Some_elem_of in Hlast. apply list_elem_of_filter in Hlast as [_ Hin].
  by apply ustr_split_part_length in Hin.
Qed.

Lemma path_name_plain s : chr_slash ∉ s → s ≠ [] → s ≠ [chr_dot] → path_name s = s.
Proof.
  intros Hs H1 H2. unfold path_name. rewrite (ustr_split_plain _ _ Hs).
  rewrite filter_cons_True by done. reflexivity.
Qed.

Lemma replace_unsafe_safe s :
  safe_name ((fun c => if is_safe_char c then c else chr_underscore) <$> s).
Proof.
  apply Forall_fmap, Forall_true. intros c. cbn.
  destruct (is_safe_char c) eqn:Hc; [done | reflexivity].
Qed.

Lemma replace_unsafe_id s :
  safe_name s → (fun c => if is_safe_char c then c else chr_underscore) <$> s = s.
Proof.
  induction 1 as [| c s Hc _ IH]; [done |]. rewrite fmap_cons, Hc, IH. reflexivity.
Qed.

Lemma sanitized_before_limit_spec filename :
  let s := sanitized_before_limit filename in
  safe_name s ∧ s ≠ [] ∧ (¬ hidden_name s) ∧ s ≠ [chr_underscore] ∧
  (s = ustr_of "unnamed_file" ∨ length s = length (path_name filename)).
Proof.
  assert (Hunnamed : let s := ustr_of "unnamed_file" in
            safe_name s ∧ s ≠ [] ∧ (¬ hidden_name s) ∧ s ≠ [chr_underscore] ∧
            (s = ustr_of "unnamed_file" ∨ length s = length (path_name filename))).
  { cbv zeta. split; [| split; [| split; [| split]]]; try by vm_compute.
    - unfold safe_name. vm_compute. repeat constructor.
    - by left. }
  unfold sanitized_before_limit. cbv zeta.
  pose proof (replace_unsafe_safe (path_name filename)) as Hsafe.
  pose proof (length_fmap (fun c => if is_safe_char c then c else chr_underscore)
                (path_name filename)) as Hlen.
  destruct (_ <$> path_name filename) as [| c rest]; [exact Hunnamed |].
  apply Forall_cons in Hsafe as [Hc Hrest].
  destruct (c =? chr_dot)%N eqn:Hdot.
  - rewrite bool_decide_eq_false_2 by done. rewrite orb_false_l.
    case_bool_decide as Hone; [exact Hunnamed |].
    split; [by constructor |]. split; [done |].
    split; [unfold hidden_name; cbn [head]; intros Heq; by vm_compute in Heq |].
    split; [done |]. right. exact Hlen.
  - rewrite bool_decide_eq_false_2 by done. rewrite orb_false_l.
    case_bool_decide as Hone; [exact Hunnamed |].
    split; [by constructor |]. split; [done |].
    split; [unfold hidden_name; cbn [head]; intros Heq;
            injection Heq as ->; by vm_compute in Hdot |].
    split; [done |]. right. exact Hlen.
Qed.

Lemma sanitized_before_limit_id s :
  safe_name s → s ≠ [] → ¬ hidden_name s → s ≠ [chr_underscore] →
  sanitized_before_limit s = s.
Proof.
  intros Hsafe Hne Hvis Hone. unfold sanitized_before_limit. cbv zeta.
  rewrite path_name_plain; [| by apply safe_name_no_slash | done |].
  2: { intros ->. by apply Hvis. }
  rewrite (replace_unsafe_id _ Hsafe).
  destruct s as [| c rest]; [done |].
  destruct (c =? chr_dot)%N eqn:Hdot.
  { apply N.eqb_eq in Hdot as ->. by destruct Hvis. }
  rewrite bool_decide_eq_false_2 by done. by rewrite bool_decide_eq_false_2 by done.
Qed.

Lemma py_slice_to_take {A} (s : list A) k : ∃ n, py_slice_to s k = take n s.
Proof. unfold py_slice_to. destruct (0 <=? k); eauto. Qed.

(** The stem and the suffix of a name cut it in two; the suffix, when
    there is one, starts at a dot after the first character. *)
Lemma stem_suffix_cases s :
  (path_stem s = path_name s ∧ path_suffix s = []) ∨
  (∃ i, (0 < i < length (path_name s) - 1)%nat ∧ rfind_dot (path_name s) = Some i ∧
        path_stem s = take i (path_name s) ∧ path_suffix s = drop i (path_name s)).
Proof.
  unfold path_stem, path_suffix. cbv zeta.
  destruct (rfind_dot (path_name s)) as [i |]; [| by left].
  case_bool_decide as Hi; [| by left]. right. by exists i.
Qed.

(** X20. [sanitize_filename] always returns a usable name: it is not
    empty, it is made of letters, digits, dots, hyphens and underscores
    only (so it has no path separator), and it is neither ["."] nor
    [".."].  When the last component of the given path has at most 255
    characters the result has at most 255 characters and does not start
    with a dot, and sanitizing it again changes nothing. *)
Theorem sanitize_filename_safe filename :
  let r := sanitize_filename filename in
  (safe_name r ∧ r ≠ [] ∧ (chr_slash ∉ r) ∧ r ≠ [chr_dot] ∧ r ≠ [chr_dot; chr_dot]) ∧
  (length (path_name filename) ≤ length filename)%nat ∧
  ((length (path_name filename) ≤ 255)%nat →
   r = sanitized_before_limit filename ∧
   (length r ≤ 255)%nat ∧ (¬ hidden_name r) ∧ sanitize_filename r = r).
Proof.
  cbv zeta. rewrite sanitize_filename_limit. cbv zeta.
  destruct (sanitized_before_limit_spec filename) as (Hsafe & Hne & Hvis & Hone & Hlen).
  set (s := sanitized_before_limit filename) in *.
  assert (Hname : path_name s = s).
  { apply path_name_plain; [by apply safe_name_no_slash | done |].
    intros Hs. apply Hvis. by rewrite Hs. }
  split; [| split; [apply path_name_length |]].
  - assert (Hr : let r := if (255 <? length s)%nat
                   then py_slice_to (path_stem s)
                          (255 - Z.of_nat (length (path_suffix s))) ++ path_suffix s
                   else s in
                 safe_name r ∧ r ≠ [] ∧ r ≠ [chr_dot] ∧ r ≠ [chr_dot; chr_dot]).
    { cbv zeta. destruct (255 <? length s)%nat eqn:Hlong.
      - apply Nat.ltb_lt in Hlong.
        destruct (stem_suffix_cases s) as [[Hstem Hsuffix] | (i & Hi & _ & Hstem & Hsuffix)];
          rewrite Hstem, Hsuffix, Hname.
        + rewrite app_nil_r. cbn [length].
          change (py_slice_to s (255 - Z.of_nat 0)) with (take 255 s).
          assert (Htake : length (take 255 s) = 255%nat) by (rewrite length_take; lia).
          split; [by apply Forall_take |].
          split; [| split]; intros Heq; rewrite Heq in Htake; cbn in Htake; lia.
        + rewrite Hname in Hi.
          unfold py_slice_to.
          set (k := 255 - Z.of_nat (length (drop i s))).
          set (n := if 0 <=? k then Z.to_nat k
                    else Z.to_nat (Z.of_nat (length (take i s)) + k)).
          assert (Hslice : (if 0 <=? k then take (Z.to_nat k) (take i s)
                            else take (Z.to_nat (Z.of_nat (length (take i s)) + k))
                                   (take i s)) = take n (take i s))
            by (subst n; by destruct (0 <=? k)).
          rewrite Hslice.
          assert (Hcut : (255 ≤ length (take n (take i s) ++ drop i s))%nat).
          { rewrite length_app, !length_take, length_drop. subst n k.
            rewrite length_take, length_drop.
            destruct (0 <=? 255 - Z.of_nat (length s - i))%Z eqn:Hk;
              [apply Z.leb_le in Hk | apply Z.leb_gt in Hk]; lia. }
          split; [apply Forall_app; split;
                  [by apply Forall_take, Forall_take | by apply Forall_drop] |].
          split; [| split]; intros Heq; rewrite Heq in Hcut; cbn in Hcut; lia.
      - split; [done |]. split; [done |].
        split; intros Heq; apply Hvis; by rewrite Heq. }
    cbv zeta in Hr. destruct Hr as (Hr1 & Hr2 & Hr3 & Hr4).
    split; [done |]. split; [done |]. split; [by apply safe_name_no_slash | done].
  - intros Hshort.
    assert (Hs : (length s ≤ 255)%nat).
    { destruct Hlen as [Hs | Hs]; [rewrite Hs; vm_compute; lia | lia]. }
    rewrite (proj2 (Nat.ltb_ge 255 (length s))) by lia.
    split; [done |]. split; [done |]. split; [done |].
    rewrite sanitize_filename_limit. cbv zeta.
    rewrite (sanitized_before_limit_id s Hsafe Hne Hvis Hone).
    by rewrite (proj2 (Nat.ltb_ge 255 (length s))) by lia.
Qed.

Lemma rfind_dot_none e : chr_dot ∉ e → rfind_dot e = None.
Proof.
  induction e as [| c e IH]; [done |]. intros [Hc He]%not_elem_of_cons.
  cbn [rfind_dot]. rewrite (IH He). by rewrite (proj2 (N.eqb_neq c chr_dot)) by done.
Qed.

Lemma rfind_dot_last stem e :
  chr_dot ∉ e → rfind_dot (stem ++ chr_dot :: e) = Some (length stem).
Proof.
  intros He. induction stem as [| c stem IH].
  - cbn [app rfind_dot length]. by rewrite (rfind_dot_none e He).
  - cbn [app rfind_dot length]. by rewrite IH.
Qed.

(** X21. The length limit of [sanitize_filename] keeps the whole
    extension and cuts the stem with a slice whose bound is 255 minus the
    length of the extension.  For a name [stem.e] of more than 255
    allowed characters the result is the stem cut at [254 - len(e)],
    followed by [.e]: with an extension [e] of fewer than 254 characters
    it has exactly 255 characters and is not hidden; with 254 characters
    the stem disappears and the result is the hidden name [.e]; with 255
    or more the bound is negative, counts from the end of the stem, and
    the result is longer than 255 characters. *)
Theorem sanitize_filename_long_extension stem e :
  safe_name stem → safe_name e → ¬ hidden_name stem → chr_dot ∉ e →
  stem ≠ [] → e ≠ [] → (255 < length (stem ++ chr_dot :: e))%nat →
  let r := sanitize_filename (stem ++ chr_dot :: e) in
  r = py_slice_to stem (254 - Z.of_nat (length e)) ++ chr_dot :: e ∧
  ((length e < 254)%nat → length r = 255%nat ∧ ¬ hidden_name r) ∧
  ((length e = 254)%nat → r = chr_dot :: e ∧ hidden_name r) ∧
  ((255 ≤ length e)%nat →
   (255 < length r)%nat ∧ ((length stem + 254 ≤ length e)%nat → hidden_name r)).
Proof.
  intros Hstem He Hvis Hdot Hne Hene Hlong. cbv zeta.
  set (f := stem ++ chr_dot :: e) in *.
  assert (Hf : safe_name f).
  { apply Forall_app. split; [done |]. by constructor. }
  assert (Hfvis : ¬ hidden_name f).
  { subst f. destruct stem; [done | exact Hvis]. }
  assert (Hfne : f ≠ []) by (intros Heq; rewrite Heq in Hlong; cbn in Hlong; lia).
  assert (Hfone : f ≠ [chr_underscore])
    by (intros Heq; rewrite Heq in Hlong; cbn in Hlong; lia).
  assert (Hname : path_name f = f).
  { apply path_name_plain; [by apply safe_name_no_slash | done |].
    intros Heq; rewrite Heq in Hlong; cbn in Hlong; lia. }
  assert (Hlen : length f = (length stem + S (length e))%nat)
    by (subst f; by rewrite length_app).
  assert (Hr : sanitize_filename f
               = py_slice_to stem (254 - Z.of_nat (length e)) ++ chr_dot :: e).
  { rewrite sanitize_filename_limit. cbv zeta.
    rewrite (sanitized_before_limit_id f Hf Hfne Hfvis Hfone).
    rewrite (proj2 (Nat.ltb_lt 255 (length f)) Hlong).
    unfold path_stem, path_suffix. cbv zeta. rewrite Hname.
    subst f. rewrite (rfind_dot_last stem e Hdot).
    assert (0 < length stem)%nat by (destruct stem; [done | cbn; lia]).
    assert (0 < length e)%nat by (destruct e; [done | cbn; lia]).
    rewrite bool_decide_eq_true_2 by lia.
    rewrite take_app_length, drop_app_length. cbn [length].
    by replace (255 - Z.of_nat (S (length e))) with (254 - Z.of_nat (length e)) by lia. }
  rewrite Hr. split; [reflexivity |].
  assert (Hpos : (0 < length stem)%nat) by (destruct stem; [done | cbn; lia]).
  unfold py_slice_to. split; [| split].
  - intros Hshort. rewrite (proj2 (Z.leb_le 0 (254 - Z.of_nat (length e)))) by lia.
    split.
    + rewrite length_app, length_take. cbn [length]. lia.
    + destruct stem as [| c stem]; [done |].
      replace (Z.to_nat (254 - Z.of_nat (length e)))
        with (S (Z.to_nat (253 - Z.of_nat (length e)))) by lia.
      exact Hvis.
  - intros Heq. rewrite Heq. cbn [Z.leb Z.sub Z.of_nat]. by vm_compute (take _).
  - intros Hbig. rewrite (proj2 (Z.leb_gt 0 (254 - Z.of_nat (length e)))) by lia.
    split.
    + rewrite length_app, length_take. cbn [length]. lia.
    + intros Hsmall.
      replace (Z.to_nat (Z.of_nat (length stem) + (254 - Z.of_nat (length e))))
        with 0%nat by lia.
      reflexivity.
Qed.

(** A name with one letter before the dot and 255 after it: the result
    is hidden and has 256 characters. *)
Lemma sanitize_filename_long_extension_witness :
  let name := [97%N] ++ chr_dot :: replicate 255 98%N in
  (255 < length name)%nat ∧
  sanitize_filename name = chr_dot :: replicate 255 98%N ∧
  hidden_name (sanitize_filename name) ∧
  (255 < length (sanitize_filename name))%nat.
Proof.
  assert (Hsafe : safe_name (replicate 255 98%N)) by (by apply Forall_replicate).
  assert (Hdot : chr_dot ∉ replicate 255 98%N).
  { intros [Heq _]%elem_of_replicate. by vm_compute in Heq. }
  assert (Hone : safe_name [97%N]) by (by repeat constructor).
  assert (Hvis : ¬ hidden_name [97%N]) by (by vm_compute).
  assert (Hlong : (255 < length ([97%N] ++ chr_dot :: replicate 255 98%N))%nat)
    by (vm_compute; lia).
  destruct (sanitize_filename_long_extension [97%N] (replicate 255 98%N)
              Hone Hsafe Hvis Hdot ltac:(done) ltac:(done) Hlong)
    as (Hr & _ & _ & Hbig).
  cbv zeta. split; [exact Hlong |].
  destruct (Hbig ltac:(rewrite length_replicate; lia)) as [Hlen Hhidden].
  split; [| split; [apply Hhidden; rewrite length_replicate; cbn; lia | exact Hlen]].
  rewrite Hr. reflexivity.
Defined.

(* ===================================================================== *)
(** ** The endpoints after the task *)
(* ===================================================================== *)

(** A session with a latest progress is a session [get_session] finds;
    its status, unless it reads as pending, is the field of the hash. *)
Lemma latest_progress_session r sid info :
  get_latest_progress r sid = Some info →
  ∃ session, get_session r sid = Some session ∧
    (lp_status info ≠ "pending" → session !! "status" = Some (lp_status info)).
Proof.
  unfold get_latest_progress, get_session, hget, hgetall. cbv zeta.
  destruct (hashes r !! _get_session_key sid) as [h |];
    cbn [mbind option_bind default from_option id]; [| done].
  destruct (h !! "progress") as [p |] eqn:Hp; [| done]. intros [= <-].
  exists h. split.
  - rewrite bool_decide_eq_false_2; [done |]. intros ->. by rewrite lookup_empty in Hp.
  - cbn [lp_status]. destruct (h !! "status") as [s |]; [| done].
    case_bool_decide; [done |]. done.
Qed.

Section AfterTheTask.
Variable E : Env.
Variable sm : SessionManager.
Variables sid path fmt lang : string.

Lemma finalize_result p w :
  (finalize sm sid p w).1.1
  = Ok (ResultSuccess (p_identifier p) (pdf_filename (p_document p))
          (pdf_page_count (p_document p))
          (Z.of_nat (length (p_questions p))) (Z.of_nat (length (p_answers p)))
          (count_diagrams (p_diagrams p))) ∧
  pdfs (finalize sm sid p w).1.2 = pdfs w.
Proof.
  unfold finalize, bind, call_store_result, call_update_session_status, redis_do. simpl.
  split; reflexivity.
Qed.

Lemma except_block_pdfs e w :
  pdfs (except_block (A := ResultData) E sm sid e w).1.2 = pdfs w.
Proof.
  unfold except_block, bind, call_store_result, call_update_session_status, redis_do. simpl.
  reflexivity.
Qed.

Lemma finally_block_pdfs w : pdfs (finally_block E path w).1.2 = pdfs w.
Proof.
  unfold finally_block, try_except, bind, catch, os_path_exists, os_remove, ret; simpl.
  repeat case_bool_decide; try done; by destruct (os_remove_error E path).
Qed.

(** The steps end with the storage of the document. *)
Lemma run_steps_saved w p w1 steps :
  run_steps E sm sid path fmt lang w = (Ok p, w1, steps) →
  pdfs w1 !! p_identifier p = Some (p_document p).
Proof.
  unfold run_steps. intros Hrun.
  apply bind_ok_inv in Hrun as (questions & wa & ? & ? & _ & Hrun & _).
  apply bind_ok_inv in Hrun as (generator & wb & ? & ? & _ & Hrun & _).
  apply bind_ok_inv in Hrun as (answers & wc & ? & ? & _ & Hrun & _).
  apply bind_ok_inv in Hrun as (diagrams & wd & ? & ? & _ & Hrun & _).
  apply bind_ok_inv in Hrun as (document & we & ? & ? & _ & Hrun & _).
  apply bind_ok_inv in Hrun as (identifier & wf & ? & ? & Hstore & Hret & _).
  unfold ret in Hret. injection Hret as <- <- _. cbn [p_identifier p_document].
  unfold storage_step in Hstore.
  apply bind_ok_inv in Hstore as ([] & wg & ? & ? & _ & Hsave & _).
  unfold save_pdf in Hsave. destruct (backend_save E document _); [done |].
  injection Hsave as <- <- _. cbn [pdfs]. apply lookup_insert_eq.
Qed.

(** What a run that returns leaves behind: the result names a stored
    document. *)
Lemma task_document w :
  let '(r, w', _) := process_question_paper E sm sid path fmt lang w in
  ∀ result, r = Ok result →
    ∃ identifier document q a d,
      result = ResultSuccess identifier (pdf_filename document) (pdf_page_count document)
                 q a d ∧
      pdfs w' !! identifier = Some document.
Proof.
  unfold process_question_paper, try_finally, try_except, try_block.
  unfold bind at 1. unfold catch. unfold bind at 1.
  unfold call_update_session_status, redis_do. cbv beta iota.
  set (w0 := with_redis (update_session_status sm sid PROCESSING) w).
  unfold bind at 1.
  destruct (run_steps E sm sid path fmt lang w0) as [[[p | e] w1] steps] eqn:Hrun;
    cbn [fst snd]; cbv beta iota.
  - pose proof (finalize_result p w1) as [Hresult Hpdfs].
    destruct (finalize sm sid p w1) as [[rf w2] closing]. cbn [fst snd] in Hresult, Hpdfs.
    subst rf. cbv beta iota. unfold ret at 1. cbv beta iota.
    pose proof (finally_block_total E path w2) as Htotal.
    pose proof (finally_block_pdfs w2) as Hclean.
    destruct (finally_block E path w2) as [[rc w3] cleanup].
    cbn [fst snd] in Htotal, Hclean. subst rc. cbv beta iota.
    intros result [= <-]. eexists _, _, _, _, _. split; [reflexivity |].
    rewrite Hclean, Hpdfs. by eapply run_steps_saved.
  - destruct (except_block_run E sm sid e w1) as (w2 & result & event & -> & _).
    cbv beta iota.
    pose proof (finally_block_total E path w2) as Htotal.
    destruct (finally_block E path w2) as [[rc w3] cleanup].
    cbn [fst snd] in Htotal. subst rc. cbv beta iota. intros result' [=].
Qed.

End AfterTheTask.

(** X22. The status endpoint after the task.  For a session id of the
    accepted form, once [process_question_paper] has ended the endpoint
    answers 200, whatever the session was before (also when it did not
    exist): with status ["complete"], progress 100 and the message that
    the PDF is ready when the task returned, with status ["error"],
    progress 0 and the message that an error occurred when it raised;
    the answers are the previews stored.  The request changes nothing. *)
Theorem status_after_task E sm sid path fmt lang w :
  validate_session_id sid = None →
  let '(r, w', _) := process_question_paper E sm sid path fmt lang w in
  get_status sid w' =
  (Ok (Status200
         {| sc_status := match r with Ok _ => "complete" | Raise _ => "error" end;
            sc_progress := match r with Ok _ => 100 | Raise _ => 0 end;
            sc_message :=
              match r with
              | Ok _ => "Processing complete. PDF is ready for download."
              | Raise _ => "An error occurred during processing. Please try again."
              end;
            sc_answers := get_answers (redis w') sid |}),
   w', []).
Proof.
  intros Hvalid. pose proof (task_outcome E sm sid path fmt lang w) as Hout.
  destruct (process_question_paper E sm sid path fmt lang w) as [[r w'] events].
  assert (Hinfo : ∃ info, get_latest_progress (redis w') sid = Some info ∧
            lp_status info = match r with Ok _ => "complete" | Raise _ => "error" end ∧
            lp_progress info = match r with Ok _ => 100 | Raise _ => 0 end).
  { destruct r; destruct Hout as [_ ->]; by eexists. }
  clear Hout. destruct Hinfo as (info & Hinfo & Hstatus & Hprogress).
  destruct (latest_progress_session _ _ _ Hinfo) as (session & Hsession & Hfield).
  rewrite Hstatus in Hfield.
  assert (Hfield' : session !! "status"
                    = Some (match r with Ok _ => "complete" | Raise _ => "error" end)).
  { apply Hfield. by destruct r. }
  unfold get_status, try_except, catch. rewrite Hvalid.
  unfold bind, call_get_session, call_get_answers, redis_get, ret. cbv beta iota.
  rewrite Hsession. cbv beta iota. rewrite Hinfo, Hfield'. cbn [default].
  rewrite Hprogress. destruct r; reflexivity.
Qed.

(** The session of the demonstration run, whose id has the accepted
    form. *)
Lemma demo_session_valid : validate_session_id demo_session = None.
Proof. vm_compute. reflexivity. Qed.

Lemma status_after_task_witness :
  validate_session_id demo_session = None ∧
  ltac:(let t := type of (status_after_task (env_ok [question_1]) SessionManager_new
                            demo_session demo_upload "text" "en" world_uploaded
                            demo_session_valid) in
        exact t).
Proof.
  split; [exact demo_session_valid |].
  exact (status_after_task (env_ok [question_1]) SessionManager_new demo_session demo_upload
           "text" "en" world_uploaded demo_session_valid).
Defined.

(** X23. The download endpoint after the task.  For a session id of the
    accepted form: when [process_question_paper] returned, its result
    names a document held by the storage, and, if the storage can be read
    and the output directory written, the endpoint answers with that
    document: a file [<session_id>_temp.pdf] of the output directory with
    the content of the document, offered under the file name of the
    document; the file stays in the output directory.  When the task
    raised, the endpoint answers 400, the PDF is not ready, and writes
    nothing. *)
Theorem download_after_task retrieve_error write_error E sm sid path fmt lang w outputs :
  validate_session_id sid = None →
  let '(r, w', _) := process_question_paper E sm sid path fmt lang w in
  match r with
  | Ok result =>
      ∃ identifier document q a d,
        result = ResultSuccess identifier (pdf_filename document) (pdf_page_count document)
                   q a d ∧
        pdfs w' !! identifier = Some document ∧
        (retrieve_error identifier = None → write_error (sid +:+ "_temp.pdf") = None →
         download_pdf retrieve_error write_error sid outputs w' =
         (Ok (FileResponse (sid +:+ "_temp.pdf") (pdf_filename document)
                ("attachment; filename=" +:+ pdf_filename document),
              <[sid +:+ "_temp.pdf" := pdf_content document]> outputs),
          w', []))
  | Raise e =>
      download_pdf retrieve_error write_error sid outputs w' =
      (Ok (DownloadError 400 "PDF not ready. Current status: error", outputs), w', [])
  end.
Proof.
  intros Hvalid. pose proof (task_outcome E sm sid path fmt lang w) as Hout.
  pose proof (task_document E sm sid path fmt lang w) as Hdoc.
  destruct (process_question_paper E sm sid path fmt lang w) as [[r w'] events].
  destruct r as [result | e].
  - destruct Hout as [Hresult Hinfo].
    destruct (Hdoc result eq_refl) as (identifier & document & q & a & d & -> & Hstored).
    exists identifier, document, q, a, d. split; [reflexivity |]. split; [exact Hstored |].
    intros Hread Hwrite.
    destruct (latest_progress_session _ _ _ Hinfo) as (session & Hsession & Hfield).
    specialize (Hfield ltac:(done)). cbn [lp_status] in Hfield.
    unfold download_pdf, try_except, catch. rewrite Hvalid.
    unfold bind, call_get_session, redis_get, retrieve_pdf, ret. cbv beta iota.
    rewrite Hsession. cbv beta iota. rewrite Hfield.
    rewrite bool_decide_eq_true_2 by reflexivity. cbn [negb]. cbv beta iota.
    rewrite Hresult. cbv beta iota. rewrite Hread. cbv beta iota.
    rewrite Hstored. cbv beta iota. rewrite Hwrite. reflexivity.
  - destruct Hout as [_ Hinfo].
    destruct (latest_progress_session _ _ _ Hinfo) as (session & Hsession & Hfield).
    specialize (Hfield ltac:(done)). cbn [lp_status] in Hfield.
    unfold download_pdf, try_except, catch. rewrite Hvalid.
    unfold bind, call_get_session, redis_get, ret. cbv beta iota.
    rewrite Hsession. cbv beta iota. rewrite Hfield.
    rewrite bool_decide_eq_false_2 by done. reflexivity.
Qed.

Lemma download_after_task_witness :
  validate_session_id demo_session = None ∧
  ltac:(let t := type of (download_after_task never_fails never_fails
                            (env_ok [question_1]) SessionManager_new
                            demo_session demo_upload "text" "en" world_uploaded
                            empty_output_dir
                            demo_session_valid) in
        exact t).
Proof.
  split; [exact demo_session_valid |].
  exact (download_after_task never_fails never_fails (env_ok [question_1])
           SessionManager_new demo_session demo_upload "text" "en" world_uploaded
           empty_output_dir
           demo_session_valid).
Defined.

(* ===================================================================== *)
(** ** The local file storage: round trip, deletion and cleanup *)
(* ===================================================================== *)

(** *** Texts and their characters *)

Lemma chars_app a b :
  list_ascii_of_string (a +:+ b) = list_ascii_of_string a ++ list_ascii_of_string b.
Proof.
  induction a as [| c a IH]; [done |].
  change (c :: list_ascii_of_string (a +:+ b)
          = c :: (list_ascii_of_string a ++ list_ascii_of_string b)).
  by rewrite IH.
Qed.

Lemma chars_inj a b : list_ascii_of_string a = list_ascii_of_string b → a = b.
Proof.
  intros H. rewrite <- (string_of_list_ascii_of_string a), H.
  apply string_of_list_ascii_of_string.
Qed.


Lemma string_app_inv_tail a b s : a +:+ s = b +:+ s → a = b.
Proof.
  intros H. apply chars_inj. apply (f_equal list_ascii_of_string) in H.
  rewrite !chars_app in H. by apply app_inv_tail in H.
Qed.

Lemma pdf_name_inj a b : a +:+ ".pdf" = b +:+ ".pdf" → a = b.
Proof. apply string_app_inv_tail. Qed.

Lemma meta_name_inj a b : a +:+ ".meta" = b +:+ ".meta" → a = b.
Proof. apply string_app_inv_tail. Qed.

Lemma pdf_name_not_meta a b : a +:+ ".pdf" ≠ b +:+ ".meta".
Proof.
  intros H. apply (f_equal list_ascii_of_string) in H. rewrite !chars_app in H.
  apply (f_equal reverse) in H. rewrite !reverse_app in H. by cbn in H.
Qed.

Lemma meta_name_not_pdf name : is_pdf_name name = true → ∀ b, name ≠ b +:+ ".meta".
Proof.
  unfold is_pdf_name. intros [k Hk]%bool_decide_eq_true_1 b ->.
  rewrite chars_app in Hk. apply (f_equal reverse) in Hk.
  rewrite !reverse_app in Hk. by cbn in Hk.
Qed.

Lemma is_pdf_name_spec name : is_pdf_name name = true ↔ ∃ x, name = x +:+ ".pdf".
Proof.
  unfold is_pdf_name. rewrite bool_decide_eq_true. split.
  - intros [k Hk]. exists (string_of_list_ascii k). apply chars_inj.
    by rewrite chars_app, list_ascii_of_string_of_list_ascii.
  - intros [x ->]. exists (list_ascii_of_string x). by rewrite chars_app.
Qed.

(** *** Reading text files *)



Lemma one_line_app a b : one_line a → one_line b → one_line (a +:+ b).
Proof.
  unfold one_line. rewrite chars_app, !not_elem_of_app. tauto.
Qed.







(** *** Saving and retrieving *)

Section LocalFileStorageFacts.
Variable base_path : string.
Variable str_strip : string → string.
Variable int_of_text : string → exn + Z.


(** [retrieve] reads the two files of the identifier and nothing else. *)
Lemma retrieve_same_files identifier dir dir' :
  dir' !! (identifier +:+ ".pdf") = dir !! (identifier +:+ ".pdf") →
  dir' !! (identifier +:+ ".meta") = dir !! (identifier +:+ ".meta") →
  LocalFileStorage.retrieve str_strip int_of_text identifier dir'
  = LocalFileStorage.retrieve str_strip int_of_text identifier dir.
Proof. unfold LocalFileStorage.retrieve. by intros -> ->. Qed.

Lemma retrieve_absent identifier dir :
  dir !! (identifier +:+ ".pdf") = None →
  LocalFileStorage.retrieve str_strip int_of_text identifier dir = inr None.
Proof. unfold LocalFileStorage.retrieve. by intros ->. Qed.

End LocalFileStorageFacts.

(** The files of two identifiers are four files. *)
Lemma names_apart a b :
  a ≠ b →
  a +:+ ".pdf" ≠ b +:+ ".pdf" ∧ a +:+ ".meta" ≠ b +:+ ".meta" ∧
  a +:+ ".pdf" ≠ b +:+ ".meta" ∧ a +:+ ".meta" ≠ b +:+ ".pdf".
Proof.
  intros Hab. split; [| split; [| split]].
  - by intros H%pdf_name_inj.
  - by intros H%meta_name_inj.
  - apply pdf_name_not_meta.
  - intros H. by apply (pdf_name_not_meta b a).
Qed.


(** X25. [delete] of the local file storage removes the PDF and its
    metadata: afterwards [retrieve] finds no document under the
    identifier, and a second [delete] reports [False].  It reports [True]
    exactly when the PDF file was there; a metadata file without its PDF
    is removed too, yet reported as not deleted.  The documents of the
    other identifiers are retrieved as before. *)
Theorem delete_removes_document str_strip int_of_text identifier dir :
  plain_name identifier →
  let '(deleted, dir') := LocalFileStorage.delete identifier dir in
  deleted = bool_decide (is_Some (dir !! (identifier +:+ ".pdf"))) ∧
  dir' !! (identifier +:+ ".pdf") = None ∧
  dir' !! (identifier +:+ ".meta") = None ∧
  LocalFileStorage.retrieve str_strip int_of_text identifier dir' = inr None ∧
  LocalFileStorage.delete identifier dir' = (false, dir') ∧
  ∀ other, plain_name other → other ≠ identifier →
    LocalFileStorage.retrieve str_strip int_of_text other dir'
    = LocalFileStorage.retrieve str_strip int_of_text other dir.
Proof.
  intros _. unfold LocalFileStorage.delete at 1. cbv zeta.
  set (dir' := base.delete (identifier +:+ ".meta")
                 (if bool_decide (is_Some (dir !! (identifier +:+ ".pdf")))
                  then base.delete (identifier +:+ ".pdf") dir else dir)).
  assert (Hpdf : dir' !! (identifier +:+ ".pdf") = None).
  { subst dir'.
    rewrite lookup_delete_ne by (intros H; by apply (pdf_name_not_meta identifier identifier)).
    case_bool_decide as Hthere; [apply lookup_delete_eq |].
    by apply eq_None_not_Some. }
  assert (Hmeta : dir' !! (identifier +:+ ".meta") = None)
    by (subst dir'; apply lookup_delete_eq).
  split; [reflexivity |]. split; [exact Hpdf |]. split; [exact Hmeta |].
  split; [by apply retrieve_absent |]. split.
  - unfold LocalFileStorage.delete. cbv zeta. rewrite Hpdf.
    rewrite bool_decide_eq_false_2 by (by intros [? ?]).
    by rewrite delete_id.
  - intros other _ Hother.
    destruct (names_apart other identifier Hother) as (H1 & H2 & H3 & H4).
    apply retrieve_same_files; subst dir'.
    + rewrite lookup_delete_ne by done. case_bool_decide; [| done].
      by rewrite lookup_delete_ne by done.
    + rewrite lookup_delete_ne by done. case_bool_decide; [| done].
      by rewrite lookup_delete_ne by done.
Qed.

(** *** Cleaning up *)

Lemma string_of_ustr_of x : string_of_ustr (ustr_of x) = x.
Proof.
  unfold string_of_ustr, ustr_of. rewrite <- list_fmap_compose.
  rewrite (list_fmap_ext _ id (list_ascii_of_string x)).
  - rewrite list_fmap_id. apply string_of_list_ascii_of_string.
  - intros i c _. cbn. apply ascii_N_embedding.
Qed.

Lemma plain_name_ustr x : plain_name x → chr_slash ∉ ustr_of x.
Proof.
  unfold plain_name, ustr_of. intros Hx (c & Hc & Hin)%list_elem_of_fmap. apply Hx.
  replace "/"%char with c; [done |].
  rewrite <- (ascii_N_embedding c), <- Hc. reflexivity.
Qed.

(** The stem of the file of an identifier is the identifier, unless the
    identifier is empty. *)
Lemma name_stem_pdf x : x ≠ "" → plain_name x → name_stem (x +:+ ".pdf") = x.
Proof.
  intros Hx Hplain. unfold name_stem.
  assert (Hu : ustr_of (x +:+ ".pdf") = ustr_of x ++ chr_dot :: [112; 100; 102]%N).
  { unfold ustr_of. by rewrite chars_app, fmap_app. }
  assert (Hlen : (0 < length (ustr_of x))%nat).
  { unfold ustr_of. rewrite length_fmap. destruct x; [done | cbn; lia]. }
  rewrite Hu. unfold path_stem. cbv zeta.
  rewrite path_name_plain.
  - rewrite rfind_dot_last.
    2: { intros Hin. repeat (apply elem_of_cons in Hin as [Hin | Hin]; [done |]).
         by apply elem_of_nil in Hin. }
    rewrite bool_decide_eq_true_2 by (rewrite length_app; cbn [length]; lia).
    rewrite take_app_length. apply string_of_ustr_of.
  - rewrite not_elem_of_app. split; [by apply plain_name_ustr |].
    intros Hin. repeat (apply elem_of_cons in Hin as [Hin | Hin]; [done |]).
    by apply elem_of_nil in Hin.
  - intros Heq. apply (f_equal length) in Heq. rewrite length_app in Heq.
    cbn [length] in Heq. lia.
  - intros Heq. apply (f_equal length) in Heq. rewrite length_app in Heq.
    cbn [length] in Heq. lia.
Qed.

Lemma expired_same dir dir' cutoff name :
  dir' !! name = dir !! name → expired dir' cutoff name = expired dir cutoff name.
Proof. unfold expired. by intros ->. Qed.

Lemma filter_ext_in {A} (P Q : A → Prop) `{!∀ x, Decision (P x), !∀ x, Decision (Q x)}
    (l : list A) :
  (∀ x, x ∈ l → P x ↔ Q x) → filter P l = filter Q l.
Proof.
  induction l as [| a l IH]; intros Hl; [done |].
  assert (Hrest : filter P l = filter Q l).
  { apply IH. intros x Hx. apply Hl. by apply list_elem_of_further. }
  destruct (decide (P a)) as [Ha | Ha].
  - rewrite (filter_cons_True P) by done.
    rewrite (filter_cons_True Q) by (by apply (Hl a (list_elem_of_here _ _))).
    by rewrite Hrest.
  - rewrite (filter_cons_False P) by done.
    rewrite (filter_cons_False Q)
      by (intros HQ; by apply Ha, (Hl a (list_elem_of_here _ _))).
    exact Hrest.
Qed.

Section CleanupLoop.
Variable base_path : string.
Variable cutoff : Z.

(** The loop of [cleanup_expired] on names that are still in the
    directory and are the files of identifiers. *)
Lemma cleanup_loop_spec listing :
  ∀ dir count,
    NoDup listing →
    (∀ name, name ∈ listing →
       is_Some (dir !! name) ∧ ∃ x, x ≠ "" ∧ plain_name x ∧ name = x +:+ ".pdf") →
    ∃ dir',
      LocalFileStorage.cleanup_loop base_path cutoff listing count dir
      = inr (count + Z.of_nat (length (filter (fun name => expired dir cutoff name = true)
                                         listing)),
             dir') ∧
      (∀ name, dir' !! name = dir !! name ∨
               (dir' !! name = None ∧
                ∃ x, x +:+ ".pdf" ∈ listing ∧ expired dir cutoff (x +:+ ".pdf") = true ∧
                     (name = x +:+ ".pdf" ∨ name = x +:+ ".meta"))) ∧
      (∀ x, x +:+ ".pdf" ∈ listing → expired dir cutoff (x +:+ ".pdf") = true →
            dir' !! (x +:+ ".pdf") = None ∧ dir' !! (x +:+ ".meta") = None).
Proof.
  induction listing as [| name rest IH]; intros dir count Hnodup Hnames.
  - exists dir. cbn [LocalFileStorage.cleanup_loop]. rewrite filter_nil. cbn [length].
    split; [by rewrite Z.add_0_r |]. split; [by left |].
    intros x Hin. by apply elem_of_nil in Hin.
  - apply NoDup_cons in Hnodup as [Hfresh Hnodup].
    destruct (Hnames name (list_elem_of_here _ _)) as ([file Hfile] & x & Hx & Hplain & ->).
    cbn [LocalFileStorage.cleanup_loop]. rewrite Hfile.
    assert (Hexpired : expired dir cutoff (x +:+ ".pdf") = (st_mtime file <? cutoff))
      by (unfold expired; by rewrite Hfile).
    destruct (st_mtime file <? cutoff) eqn:Hold.
    + (* an expired document: both its files go *)
      rewrite (name_stem_pdf x Hx Hplain).
      unfold LocalFileStorage.delete. cbv zeta.
      rewrite bool_decide_eq_true_2 by (by rewrite Hfile).
      set (dir1 := base.delete (x +:+ ".meta") (base.delete (x +:+ ".pdf") dir)).
      assert (Hkept : ∀ name, name ≠ x +:+ ".pdf" → name ≠ x +:+ ".meta" →
                dir1 !! name = dir !! name).
      { intros name H1 H2. subst dir1. rewrite lookup_delete_ne by done.
        by rewrite lookup_delete_ne by done. }
      assert (Hpdf : dir1 !! (x +:+ ".pdf") = None).
      { subst dir1.
        rewrite lookup_delete_ne by (intros H; by apply (pdf_name_not_meta x x)).
        apply lookup_delete_eq. }
      assert (Hmeta : dir1 !! (x +:+ ".meta") = None)
        by (subst dir1; apply lookup_delete_eq).
      assert (Hrest : ∀ name, name ∈ rest → dir1 !! name = dir !! name).
      { intros name Hin. apply Hkept; [by intros -> |].
        destruct (Hnames name (list_elem_of_further _ _ _ Hin)) as (_ & y & _ & _ & ->).
        apply pdf_name_not_meta. }
      destruct (IH dir1 (count + 1) Hnodup) as (dir' & Hrun & Hframe & Hgone).
      { intros name Hin. rewrite (Hrest name Hin).
        apply Hnames. by apply list_elem_of_further. }
      exists dir'. split; [| split].
      * rewrite Hrun. f_equal. f_equal.
        rewrite filter_cons_True by done.
        rewrite (filter_ext_in (fun name => expired dir1 cutoff name = true)
                   (fun name => expired dir cutoff name = true)).
        -- cbn [length]. lia.
        -- intros name Hin. by rewrite (expired_same dir dir1 cutoff name (Hrest name Hin)).
      * intros name. destruct (Hframe name) as [Hsame | (Hnone & y & Hy & Hyold & Hcase)].
        -- destruct (decide (name = x +:+ ".pdf")) as [-> | Hn1].
           { right. split; [by rewrite Hsame |]. exists x.
             split; [apply list_elem_of_here |]. split; [done | by left]. }
           destruct (decide (name = x +:+ ".meta")) as [-> | Hn2].
           { right. split; [by rewrite Hsame |]. exists x.
             split; [apply list_elem_of_here |]. split; [done | by right]. }
           left. rewrite Hsame. by apply Hkept.
        -- right. split; [done |]. exists y. split; [by apply list_elem_of_further |].
           split; [| done].
           by rewrite <- (expired_same dir dir1 cutoff _ (Hrest _ Hy)).
      * intros y [Hy | Hy]%elem_of_cons Hyold.
        -- apply pdf_name_inj in Hy as ->. split.
           ++ destruct (Hframe (x +:+ ".pdf")) as [-> | [-> _]]; done.
           ++ destruct (Hframe (x +:+ ".meta")) as [-> | [-> _]]; done.
        -- apply Hgone; [done |].
           by rewrite (expired_same dir dir1 cutoff _ (Hrest _ Hy)).
    + (* a document within the retention period stays *)
      destruct (IH dir count Hnodup) as (dir' & Hrun & Hframe & Hgone).
      { intros name Hin. apply Hnames. by apply list_elem_of_further. }
      exists dir'. split; [| split].
      * rewrite Hrun. f_equal. f_equal.
        by rewrite filter_cons_False by (by rewrite Hexpired).
      * intros name. destruct (Hframe name) as [Hsame | (Hnone & y & Hy & Hyold & Hcase)];
          [by left |].
        right. split; [done |]. exists y. split; [by apply list_elem_of_further | done].
      * intros y [Hy | Hy]%elem_of_cons Hyold.
        -- apply pdf_name_inj in Hy as ->. by rewrite Hexpired in Hyold.
        -- by apply Hgone.
Qed.

End CleanupLoop.

(** X26. [cleanup_expired] of the local file storage removes exactly the
    expired documents.  In a directory of plain files that has no file
    named [.pdf], whatever the order in which the directory is listed:
    the call does not fail and returns the number of PDF files older than
    the retention period; each of them is gone with its metadata, so that
    [retrieve] no longer finds it; every document within the retention
    period keeps both its files and is retrieved as before; nothing is
    written, and a metadata file without its PDF is never removed. *)
Theorem cleanup_expired_sweeps base_path str_strip int_of_text now retention_days listing
    dir :
  glob_pdf dir listing →
  (∀ name, is_Some (dir !! name) → plain_name name) →
  dir !! ".pdf" = None →
  let cutoff_time := now - retention_days * 24 * 60 * 60 in
  ∃ dir',
    LocalFileStorage.cleanup_expired base_path now retention_days listing dir
    = inr (Z.of_nat (length (filter (fun name => expired dir cutoff_time name = true)
                               listing)),
           dir') ∧
    (∀ identifier, expired dir cutoff_time (identifier +:+ ".pdf") = true →
       dir' !! (identifier +:+ ".pdf") = None ∧
       dir' !! (identifier +:+ ".meta") = None ∧
       LocalFileStorage.retrieve str_strip int_of_text identifier dir' = inr None) ∧
    (∀ identifier, expired dir cutoff_time (identifier +:+ ".pdf") = false →
       dir' !! (identifier +:+ ".pdf") = dir !! (identifier +:+ ".pdf") ∧
       dir' !! (identifier +:+ ".meta") = dir !! (identifier +:+ ".meta") ∧
       LocalFileStorage.retrieve str_strip int_of_text identifier dir'
       = LocalFileStorage.retrieve str_strip int_of_text identifier dir) ∧
    (∀ name, dir' !! name = dir !! name ∨ dir' !! name = None).
Proof.
  intros [Hnodup Hlisting] Hplain Hdot cutoff_time.
  unfold LocalFileStorage.cleanup_expired. cbv zeta. fold cutoff_time.
  destruct (cleanup_loop_spec base_path cutoff_time listing dir 0 Hnodup)
    as (dir' & Hrun & Hframe & Hgone).
  { intros name [Hthere Hpdf]%Hlisting. split; [done |].
    apply is_pdf_name_spec in Hpdf as [x ->]. exists x.
    split; [| split; [| reflexivity]].
    - intros ->. change ("" +:+ ".pdf") with ".pdf" in Hthere.
      rewrite Hdot in Hthere. by destruct Hthere.
    - specialize (Hplain _ Hthere). unfold plain_name in *.
      rewrite chars_app, not_elem_of_app in Hplain. tauto. }
  exists dir'. rewrite Hrun, Z.add_0_l. split; [reflexivity |].
  assert (Hlisted : ∀ identifier, expired dir cutoff_time (identifier +:+ ".pdf") = true →
            identifier +:+ ".pdf" ∈ listing).
  { intros identifier Hold. apply Hlisting. split.
    - unfold expired in Hold. by destruct (dir !! (identifier +:+ ".pdf")).
    - apply is_pdf_name_spec. by exists identifier. }
  split; [| split].
  - intros identifier Hold. destruct (Hgone identifier (Hlisted _ Hold) Hold) as [H1 H2].
    split; [done |]. split; [done |]. by apply retrieve_absent.
  - intros identifier Hfresh.
    assert (H1 : dir' !! (identifier +:+ ".pdf") = dir !! (identifier +:+ ".pdf")).
    { destruct (Hframe (identifier +:+ ".pdf")) as [H | (_ & x & _ & Hold & [H | H])];
        [done | |].
      - apply pdf_name_inj in H as ->. by rewrite Hold in Hfresh.
      - by apply pdf_name_not_meta in H. }
    assert (H2 : dir' !! (identifier +:+ ".meta") = dir !! (identifier +:+ ".meta")).
    { destruct (Hframe (identifier +:+ ".meta")) as [H | (_ & x & _ & Hold & [H | H])];
        [done | |].
      - symmetry in H. by apply pdf_name_not_meta in H.
      - apply meta_name_inj in H as ->. by rewrite Hold in Hfresh. }
    split; [done |]. split; [done |]. by apply retrieve_same_files.
  - intros name. destruct (Hframe name) as [H | [H _]]; [by left | by right].
Qed.

(** *** The demonstration directory *)

Lemma demo_identifier_plain : plain_name "pdf_1".
Proof.
  unfold plain_name. cbn [list_ascii_of_string].
  repeat (apply not_elem_of_cons; split; [done |]). apply not_elem_of_nil.
Qed.






Lemma delete_removes_document_witness :
  (LocalFileStorage.delete "pdf_1"
     (LocalFileStorage.save "storage/pdfs" 5 demo_document "pdf_1" ∅).2).1 = true ∧
  LocalFileStorage.retrieve ascii_strip int_of_numeral "pdf_1"
    (LocalFileStorage.delete "pdf_1"
       (LocalFileStorage.save "storage/pdfs" 5 demo_document "pdf_1" ∅).2).2
  = inr None.
Proof.
  split; [vm_compute; reflexivity |].
  exact (proj1 (proj2 (proj2 (proj2
           (delete_removes_document ascii_strip int_of_numeral "pdf_1"
              (LocalFileStorage.save "storage/pdfs" 5 demo_document "pdf_1" ∅).2
              demo_identifier_plain))))).
Defined.

Lemma demo_directory_names name :
  is_Some (demo_directory !! name) →
  name ∈ ["pdf_new.meta"; "pdf_new.pdf"; "pdf_old.meta"; "pdf_old.pdf"].
Proof.
  unfold demo_directory, LocalFileStorage.save. cbn [snd]. intros [file Hfile].
  apply lookup_insert_Some in Hfile as [[<- _] | [_ Hfile]]; [apply list_elem_of_here |].
  apply list_elem_of_further.
  apply lookup_insert_Some in Hfile as [[<- _] | [_ Hfile]]; [apply list_elem_of_here |].
  apply list_elem_of_further.
  apply lookup_insert_Some in Hfile as [[<- _] | [_ Hfile]]; [apply list_elem_of_here |].
  apply list_elem_of_further.
  apply lookup_insert_Some in Hfile as [[<- _] | [_ Hfile]]; [apply list_elem_of_here |].
  by rewrite lookup_empty in Hfile.
Qed.

Lemma demo_glob : glob_pdf demo_directory demo_listing.
Proof.
  split.
  - unfold demo_listing. apply NoDup_cons. split; [| apply NoDup_singleton].
    by intros H%list_elem_of_singleton.
  - intros name. split.
    + unfold demo_listing. rewrite !elem_of_cons, elem_of_nil.
      intros [-> | [-> | []]]; (split; [by eexists; vm_compute | by vm_compute]).
    + intros [Hthere Hpdf]. apply demo_directory_names in Hthere.
      rewrite !elem_of_cons, elem_of_nil in Hthere. unfold demo_listing.
      destruct Hthere as [-> | [-> | [-> | [-> | []]]]];
        try (by vm_compute in Hpdf);
        [apply list_elem_of_further, list_elem_of_here | apply list_elem_of_here].
Qed.

Lemma demo_directory_plain name : is_Some (demo_directory !! name) → plain_name name.
Proof.
  intros Hthere%demo_directory_names. rewrite !elem_of_cons, elem_of_nil in Hthere.
  unfold plain_name.
  destruct Hthere as [-> | [-> | [-> | [-> | []]]]]; cbn [list_ascii_of_string];
    repeat (apply not_elem_of_cons; split; [done |]); apply not_elem_of_nil.
Qed.

Lemma demo_directory_no_dot_pdf : demo_directory !! ".pdf" = None.
Proof. vm_compute. reflexivity. Qed.

(** Seven days of retention at the time 1000000: the document stored at
    the time 0 is removed, the one stored at the time 1000000 stays. *)
Lemma cleanup_expired_sweeps_witness :
  (LocalFileStorage.cleanup_expired "storage/pdfs" 1000000 7 demo_listing demo_directory
   = inr (1, (LocalFileStorage.save "storage/pdfs" 1000000 demo_document "pdf_new" ∅).2)) ∧
  ltac:(let t := type of (cleanup_expired_sweeps "storage/pdfs" ascii_strip int_of_numeral
                            1000000 7 demo_listing demo_directory demo_glob
                            demo_directory_plain demo_directory_no_dot_pdf) in
        exact t).
Proof.
  split; [vm_compute; reflexivity |].
  exact (cleanup_expired_sweeps "storage/pdfs" ascii_strip int_of_numeral 1000000 7
           demo_listing demo_directory demo_glob demo_directory_plain
           demo_directory_no_dot_pdf).
Defined.
